(** * GitHub Stars Categorizer: the analysis pipeline

    A shallow embedding of the classification pipeline of the repository
    (services/gemini.service.ts, services/cache.service.ts,
    services/analyzer.service.ts, lib/errors.ts, lib/fs-utils.ts, config.ts)
    and the properties its specification states about it; and of what the
    pipeline is used with (services/reporter.service.ts, the fetching and
    the list assignment of services/github.service.ts, the limit of the
    command line), with further properties read off the code.

    Conventions.
    - A JavaScript string is a [string] holding its UTF-8 encoding.  Where
      the source works on UTF-16 code units ([String.prototype.replace] with
      a character class, [trim]) the embedding follows the code points behind
      the bytes, so that both views agree on every well-formed string.
    - A JavaScript exception is a value of [Thrown]; a computation that may
      throw returns a [Completion].
    - What the program does not control (the classification endpoint, the
      wall clock, the file system's willingness to write, [JSON.parse]) is
      an explicit parameter: [Runtime] and [World]. *)

From Stdlib Require Import ZArith String Ascii List Bool Lia Permutation DecimalString Sorted.
From stdpp Require Import base option list gmap strings.

Import ListNotations.
Local Open Scope string_scope.

(* ===================================================================== *)
(** * JavaScript strings and values                                       *)
(* ===================================================================== *)

Module JS.

(** [s.includes(needle)] *)
Fixpoint includes (s needle : string) : bool :=
  String.prefix needle s
  || match s with
     | EmptyString => false
     | String _ rest => includes rest needle
     end.

Definition byte (n : nat) : string := String (ascii_of_nat n) EmptyString.
Definition bytes (l : list nat) : string := string_of_list_ascii (List.map ascii_of_nat l).

(** The code points [trim] removes (ECMAScript WhiteSpace and
    LineTerminator), each by its UTF-8 encoding. *)
Definition whiteSpace : list string :=
  [ byte 9; byte 10; byte 11; byte 12; byte 13; byte 32;
    bytes [194; 160];                       (* U+00A0 *)
    bytes [225; 154; 128];                  (* U+1680 *)
    bytes [226; 128; 128]; bytes [226; 128; 129]; bytes [226; 128; 130];
    bytes [226; 128; 131]; bytes [226; 128; 132]; bytes [226; 128; 133];
    bytes [226; 128; 134]; bytes [226; 128; 135]; bytes [226; 128; 136];
    bytes [226; 128; 137]; bytes [226; 128; 138];  (* U+2000 .. U+200A *)
    bytes [226; 128; 168]; bytes [226; 128; 169];  (* U+2028, U+2029 *)
    bytes [226; 128; 175];                  (* U+202F *)
    bytes [226; 129; 159];                  (* U+205F *)
    bytes [227; 128; 128];                  (* U+3000 *)
    bytes [239; 187; 191] ].                (* U+FEFF *)

Definition reverse (s : string) : string :=
  string_of_list_ascii (List.rev (list_ascii_of_string s)).

Fixpoint dropPrefix (n : nat) (s : string) : string :=
  match n, s with
  | S n', String _ rest => dropPrefix n' rest
  | _, _ => s
  end.

(** Removes one leading element of [ws] from [s], if there is one. *)
Fixpoint dropOne (ws : list string) (s : string) : option string :=
  match ws with
  | [] => None
  | w :: ws' =>
      if String.prefix w s then Some (dropPrefix (String.length w) s)
      else dropOne ws' s
  end.

Fixpoint dropAll (fuel : nat) (ws : list string) (s : string) : string :=
  match fuel with
  | O => s
  | S fuel' =>
      match dropOne ws s with
      | Some rest => dropAll fuel' ws rest
      | None => s
      end
  end.

Definition trimStart (s : string) : string :=
  dropAll (String.length s) whiteSpace s.

Definition trimEnd (s : string) : string :=
  reverse (dropAll (String.length s) (List.map reverse whiteSpace) (reverse s)).

(** [s.trim()] *)
Definition trim (s : string) : string := trimEnd (trimStart s).

(** [s.replace(/[class]/g, ...)]: every character is replaced on its own. *)
Fixpoint replaceEach (f : ascii -> string) (s : string) : string :=
  match s with
  | EmptyString => EmptyString
  | String c rest => f c ++ replaceEach f rest
  end.

(** The values a parsed JSON field can hold, as far as the source looks at
    them: its truthiness and its [typeof].  A number is kept by its integer
    value (a non-integer behaves as any non-zero one). *)
Inductive Value :=
| Undefined
| Null
| Boolean (b : bool)
| Number (n : Z)
| Str (s : string)
| Object.

Definition truthy (v : Value) : bool :=
  match v with
  | Undefined | Null => false
  | Boolean b => b
  | Number n => negb (n =? 0)%Z
  | Str s => negb (s =? EmptyString)
  | Object => true
  end.

(** A value without properties: reading a property of it throws. *)
Inductive Nullish :=
| IsUndefined
| IsNull.

(** [a || b] on optional numbers *)
Definition orNumber (a b : option Z) : option Z :=
  match a with
  | Some n => if (n =? 0)%Z then b else a
  | None => b
  end.

(** [a || b] where [a] is an optional string *)
Definition orString (a : option string) (b : string) : string :=
  match a with
  | Some s => if s =? EmptyString then b else s
  | None => b
  end.

End JS.

(* ===================================================================== *)
(** * types.ts and config.ts: the data model and the taxonomy             *)
(* ===================================================================== *)

Record GitHubRepo := {
  full_name : string;
  node_id : string;
  repo_description : option string;
  language : option string;
  topics : list string;
  html_url : string;
}.

Record CategorizationResult := {
  category : string;
  confidence : Z;
  reasoning : string;
}.

(** [timestamp] holds an ISO-8601 string in the source; it is kept as the
    instant the string denotes, in milliseconds since the epoch. *)
Record AnalysisResult := {
  repo : GitHubRepo;
  categorization : CategorizationResult;
  webSearchCalls : nat;
  cached : bool;
  timestamp : Z;
  failed : option bool;
  error : option string;
}.

Record CategoryConfig := {
  name : string;
  emoji : string;
  description : string;
}.

Definition CATEGORIES : list CategoryConfig := [
  {| name := "AI & LLM";
     emoji := "🤖";
     description := "AI/LLM libraries (LangChain, LlamaIndex), vector databases, RAG frameworks, AI model APIs. NOT workflow engines that support AI agents - those are Backend." |};
  {| name := "UI & Design Systems";
     emoji := "🎨";
     description := "Component libraries, design systems, Tailwind, Shadcn, animations" |};
  {| name := "Frontend Frameworks";
     emoji := "⚛️";
     description := "React, Next.js, Vue, Remix, Svelte, Deno Fresh" |};
  {| name := "Testing & QA";
     emoji := "🧪";
     description := "Cypress, Playwright, test frameworks, E2E tools" |};
  {| name := "Backend & Runtimes";
     emoji := "🚀";
     description := "Runtimes (Node, Deno, Bun), API frameworks, workflow/orchestration engines (Temporal, Inngest, Vercel Workflow), backend services, job queues." |};
  {| name := "DevOps & Containers";
     emoji := "🐳";
     description := "Docker, Kubernetes, containers, infrastructure, deployment" |};
  {| name := "CLI & Terminal";
     emoji := "💻";
     description := "Command-line tools, shell utilities, terminal emulators, prompts" |};
  {| name := "Code Quality";
     emoji := "✨";
     description := "Linters, formatters, static analysis, Prettier, ESLint, Biome" |};
  {| name := "Dev Tooling";
     emoji := "🛠️";
     description := "Build/bundle tools (Webpack, Vite, Turbo), package managers (pnpm), monorepo tools. NOT analytics, monitoring, or product tools." |};
  {| name := "Web Scraping & APIs";
     emoji := "🌐";
     description := "Web scrapers, HTTP clients, API tools, data extraction" |};
  {| name := "Editors & IDEs";
     emoji := "📝";
     description := "Code editors, IDEs, VSCode extensions, editor tools" |};
  {| name := "Media & Download";
     emoji := "📹";
     description := "Video downloaders, media tools, streaming tools" |};
  {| name := "Trading & Finance";
     emoji := "📈";
     description := "Trading bots, backtesting, technical analysis, finance tools" |};
  {| name := "Logging & Debug";
     emoji := "🔍";
     description := "Logging, debugging, network tools, monitoring, observability, product analytics (PostHog, Sentry, Mixpanel), APM, session recording." |};
  {| name := "Databases & Auth";
     emoji := "🔐";
     description := "Databases (Postgres, MongoDB, Neon, Prisma), ORMs, authentication libraries (NextAuth, Better Auth), session management" |};
  {| name := "Learning Resources";
     emoji := "📚";
     description := "Awesome lists, tutorials, courses (30-Days-Of-*, You-Dont-Know-JS), algorithm collections, cheatsheets, educational repos" |};
  {| name := "Utilities & Libraries";
     emoji := "🧰";
     description := "General-purpose utilities (Ramda, Lodash), data structures, type libraries (type-fest), converters (turndown), diagram tools (Mermaid)" |};
  {| name := "Other Tools";
     emoji := "📦";
     description := "Security tools, browsers, system utilities, misc tools that don't fit other categories" |}
].

Definition CATEGORY_NAMES : list string := List.map name CATEGORIES.

(* ===================================================================== *)
(** * lib/errors.ts                                                       *)
(* ===================================================================== *)

(** What the source reads off a value thrown by code outside the
    repository (the endpoint's SDK, [JSON.parse]). *)
Record ErrorObject := {
  instanceofError : bool;           (* error instanceof Error *)
  err_message : option string;      (* error.message *)
  err_status : option Z;            (* error.status *)
  err_error_code : option Z;        (* error.error?.code *)
  err_error_status : option string; (* error.error?.status *)
  err_toString : string;            (* String(error) *)
}.

(** The values the pipeline can see thrown.  [GeminiAPIError] and
    [CacheError] are the repository's error classes, with the arguments of
    their constructors. *)
Inductive Thrown :=
| Foreign (e : ErrorObject)
| GeminiAPIError (message : string) (statusCode : option Z)
                 (retryable : bool) (cause : Cause)
| CacheError (message : string) (cause : Cause)
with Cause :=
| NoCause
| CausedBy (e : Thrown).

Inductive Completion (A : Type) :=
| Return (a : A)
| Throw (e : Thrown).
Arguments Return {A} a.
Arguments Throw {A} e.

Definition isRetryableError (error : Thrown) : bool :=
  match error with
  | GeminiAPIError _ _ retryable _ => retryable
  | CacheError message _ =>
      JS.includes message "503"
      || JS.includes message "overloaded"
      || JS.includes message "UNAVAILABLE"
  | Foreign apiError =>
      let errorCode := JS.orNumber (err_status apiError) (err_error_code apiError) in
      let errorStatus := err_error_status apiError in
      let errorMessage := JS.orString (err_message apiError) (err_toString apiError) in
      match errorCode with Some c => (c =? 429)%Z || (c =? 503)%Z | None => false end
      || match errorStatus with Some s => s =? "UNAVAILABLE" | None => false end
      || JS.includes errorMessage "503"
      || JS.includes errorMessage "overloaded"
      || JS.includes errorMessage "UNAVAILABLE"
  end.

Definition getErrorMessage (error : Thrown) : string :=
  match error with
  | GeminiAPIError message _ _ _ => message
  | CacheError message _ => message
  | Foreign e =>
      if instanceofError e
      then match err_message e with Some m => m | None => EmptyString end
      else err_toString e
  end.

(** [error.message] *)
Definition messageOf (error : Thrown) : string :=
  match error with
  | GeminiAPIError message _ _ _ => message
  | CacheError message _ => message
  | Foreign e => default EmptyString (err_message e)
  end.

(* ===================================================================== *)
(** * The platform and the outside world                                  *)
(* ===================================================================== *)

(** The object [JSON.parse] returns for the classifier's answer.  The
    source validates [category] only; [confidence] and [reasoning] are
    carried through as the interface [CategorizationResult] declares them. *)
Record ParsedCategorization := {
  parsed_category : JS.Value;
  parsed_confidence : Z;
  parsed_reasoning : string;
}.

Class Runtime := {
  (** [JSON.parse] on a text that starts with an opening brace: the parsed
      object, or the message of the [SyntaxError] it throws. *)
  JSON_parse : string -> ParsedCategorization + string;
}.

(** [client.models.generateContent]'s answer, as far as the source reads it. *)
Record GenerateContentResult := {
  text : option string;             (* result.text *)
  groundingChunkCount : option nat; (* result.groundingMetadata?.groundingChunks?.length *)
  totalTokenCount : option nat;     (* result.usageMetadata?.totalTokenCount *)
}.

Inductive EndpointReply :=
| Replied (r : GenerateContentResult)
| Failed (e : ErrorObject).

(** The surroundings of one call of [analyzeAll]. *)
Record World := {
  (** the endpoint's answer to the [n]-th request made for the [i]-th item
      of the batch, [n] counting from 1 *)
  endpoint : nat -> nat -> EndpointReply;
  (** [Date.now()] at the [n]-th step of the call *)
  clock : nat -> Z;
  (** whether [mkdir] and [writeFile] succeed on a path at the [n]-th step *)
  writable : nat -> string -> bool;
}.

(* ===================================================================== *)
(** * lib/config.ts                                                       *)
(* ===================================================================== *)

(** The validated environment: the schema admits positive integers only. *)
Record EnvConfig := {
  CACHE_MAX_AGE_HOURS : positive;
  CATEGORIZER_CONCURRENCY : positive;
  GEMINI_MODEL : string;
  RETRY_DELAY_MS : positive;
  RETRY_MAX_ATTEMPTS : positive;
}.

Module PATHS.
Definition CACHE_DIR := "cache".
Definition CACHE_ANALYSIS_DIR := "cache/analysis".
Definition CACHE_REPOS_FILE := "cache/starred-repos.json".
Definition RESULTS_DIR := "results".
End PATHS.

Module DEFAULTS.
Definition CONCURRENCY := 40%positive.
Definition CACHE_MAX_AGE_HOURS := 360%positive.
Definition RETRY_DELAY_MS := 1000%positive.
Definition RETRY_MAX_ATTEMPTS := 5%positive.
Definition GEMINI_MODEL := "gemini-2.5-flash".
End DEFAULTS.

Definition defaultConfig : EnvConfig :=
  {| CACHE_MAX_AGE_HOURS := DEFAULTS.CACHE_MAX_AGE_HOURS;
     CATEGORIZER_CONCURRENCY := DEFAULTS.CONCURRENCY;
     GEMINI_MODEL := DEFAULTS.GEMINI_MODEL;
     RETRY_DELAY_MS := DEFAULTS.RETRY_DELAY_MS;
     RETRY_MAX_ATTEMPTS := DEFAULTS.RETRY_MAX_ATTEMPTS |}.

(* ===================================================================== *)
(** * p-retry                                                             *)
(* ===================================================================== *)

Module PRetry.

(** [operation.mainError()] of the retry package, with which p-retry
    rejects when no retry is left.  Its loop goes through the errors of
    the failed attempts in their order with three variables: [counts],
    which maps a message to the number of times it was met so far
    ([counts[message] || 0]), [mainError] and [mainErrorCount]; an error
    whose message has by then been met as often as [mainErrorCount] at
    least becomes the main error. *)
Definition countError (state : gmap string nat * option Thrown * nat) (error : Thrown)
    : gmap string nat * option Thrown * nat :=
  let '(counts, mainError, mainErrorCount) := state in
  let message := messageOf error in
  let count := S (default 0 (counts !! message)) in
  let counts' := <[message := count]> counts in
  if (mainErrorCount <=? count)%nat
  then (counts', Some error, count)
  else (counts', mainError, mainErrorCount).

Definition mainError (errors : list Thrown) : option Thrown :=
  snd (fst (fold_left countError errors (∅, None, 0))).

(** [pRetry(input, {retries, onFailedAttempt})] as the library runs it, in
    the versions whose [onFailedAttempt] is handed the error itself, as
    the callback of [categorize] expects (up to 6, on the retry package):
    [input] is run with the attempt number, from 1; after a failed attempt
    [onFailedAttempt] is called with the error, and when it throws, the
    promise rejects at once with what it threw; otherwise the error is
    added to the errors of the operation ([errors], oldest first), and
    [input] is run again while retries are left; when none is left the
    promise rejects with [mainError()].  The waiting between attempts is
    not modelled, and neither are the branches for a thrown value that is
    no [Error], for an [AbortError] and for a [TypeError]: [input] here
    throws [GeminiAPIError]s only.  The result comes with the number of
    attempts made. *)
Fixpoint pRetry {A : Type} (input : nat -> Completion A)
    (onFailedAttempt : Thrown -> Completion unit)
    (retries : nat) (attemptNumber : nat) (errors : list Thrown) : Completion A * nat :=
  match input attemptNumber with
  | Return a => (Return a, attemptNumber)
  | Throw error =>
      match onFailedAttempt error with
      | Throw thrown => (Throw thrown, attemptNumber)
      | Return _ =>
          let errors' := (errors ++ [error])%list in
          match retries with
          | O => (Throw (default error (mainError errors')), attemptNumber)
          | S retriesLeft =>
              pRetry input onFailedAttempt retriesLeft (S attemptNumber) errors'
          end
      end
  end.

End PRetry.

(* ===================================================================== *)
(** * services/gemini.service.ts                                          *)
(* ===================================================================== *)

Record GeminiResponse := {
  resp_categorization : CategorizationResult;
  groundingChunks : nat;
  tokensUsed : nat;
}.

Module GeminiService.

(** The suffix of [s] that starts at its first opening brace. *)
Fixpoint fromFirstOpen (s : string) : option string :=
  match s with
  | EmptyString => None
  | String c rest => if Ascii.eqb c "{" then Some s else fromFirstOpen rest
  end.

(** The longest prefix of [s] that ends with a closing brace. *)
Fixpoint throughLastClose (s : string) : option string :=
  match s with
  | EmptyString => None
  | String c rest =>
      match throughLastClose rest with
      | Some m => Some (String c m)
      | None => if Ascii.eqb c "}" then Some (String c EmptyString) else None
      end
  end.

(** [text.match(/\{[\s\S]*\}/)]: the match starts at the first opening
    brace and, the star being greedy, runs to the last closing brace
    behind it. *)
Definition jsonMatch (text : string) : option string :=
  match fromFirstOpen text with
  | Some (String c rest) =>
      match throughLastClose rest with
      | Some m => Some (String c m)
      | None => None
      end
  | _ => None
  end.

(** [new SyntaxError(message)], thrown by [JSON.parse] *)
Definition syntaxError (message : string) : ErrorObject :=
  {| instanceofError := true;
     err_message := Some message;
     err_status := None;
     err_error_code := None;
     err_error_status := None;
     err_toString := "SyntaxError: " ++ message |}.

(** The test before the normalization: the category is falsy, or its
    [typeof] is not string, or it is empty once trimmed. *)
Definition invalidCategory (v : JS.Value) : bool :=
  negb (JS.truthy v)
  || match v with JS.Str _ => false | _ => true end
  || match v with JS.Str s => JS.trim s =? EmptyString | _ => false end.

(** The predicate handed to [CATEGORIES.find]. *)
Definition matchesCategory (categoryName : string) (cat : CategoryConfig) : bool :=
  (name cat =? categoryName)
  || ((emoji cat ++ " " ++ name cat) =? categoryName)
  || JS.includes categoryName (name cat).

(** Lines 181-197 of [parseResponse]: the category of the parsed object is
    replaced by a taxonomy name. *)
Definition normalizeCategory (categorization : ParsedCategorization)
    (rawCategory : string) : CategorizationResult :=
  let categoryName := JS.trim rawCategory in
  match List.find (matchesCategory categoryName) CATEGORIES with
  | Some matchedCategory =>
      {| category := name matchedCategory;
         confidence := parsed_confidence categorization;
         reasoning := parsed_reasoning categorization |}
  | None =>
      {| category := "Other Tools";
         confidence := parsed_confidence categorization;
         reasoning := "Original: " ++ categoryName ++ ". Fallback to Other Tools." |}
  end.

Definition parseResponse `{Runtime} (text : string) : Completion CategorizationResult :=
  match jsonMatch text with
  | None => Throw (GeminiAPIError "No JSON found in response" None true NoCause)
  | Some json =>
      match JSON_parse json with
      | inr message => Throw (Foreign (syntaxError message))
      | inl categorization =>
          if invalidCategory (parsed_category categorization)
          then Throw (GeminiAPIError "Empty or invalid category in response"
                        (Some 503%Z) true NoCause)
          else
            match parsed_category categorization with
            | JS.Str rawCategory => Return (normalizeCategory categorization rawCategory)
            | _ => Throw (GeminiAPIError "Empty or invalid category in response"
                            (Some 503%Z) true NoCause)
            end
      end
  end.

Definition extractErrorCode (error : Thrown) : option Z :=
  match error with
  | Foreign apiError => JS.orNumber (err_status apiError) (err_error_code apiError)
  | _ => None
  end.

Definition getErrorMessage (error : Thrown) : string :=
  match error with
  | GeminiAPIError message _ _ _ => message
  | CacheError message _ => message
  | Foreign e =>
      if instanceofError e
      then match err_message e with Some m => m | None => EmptyString end
      else err_toString e
  end.

(** The function handed to [pRetry]: one request and the parsing of its
    answer; whatever is thrown is wrapped into a [GeminiAPIError].  The
    analytics capture is left out. *)
Definition attempt `{Runtime} (reply : EndpointReply) : Completion GeminiResponse :=
  let body :=
    match reply with
    | Failed e => Throw (Foreign e)
    | Replied result =>
        let text := JS.orString (text result) "{}" in
        match parseResponse text with
        | Throw e => Throw e
        | Return categorization =>
            Return {| resp_categorization := categorization;
                      groundingChunks := default 0 (groundingChunkCount result);
                      tokensUsed := default 0 (totalTokenCount result) |}
        end
    end in
  match body with
  | Return response => Return response
  | Throw error =>
      Throw (GeminiAPIError ("Gemini API error: " ++ getErrorMessage error)
               (extractErrorCode error) (isRetryableError error) (CausedBy error))
  end.

(** The [onFailedAttempt] option: it rethrows the error to stop retrying. *)
Definition onFailedAttempt (error : Thrown) : Completion unit :=
  if JS.includes (messageOf error) "GeminiAPIError" && negb (isRetryableError error)
  then Throw error
  else Return tt.

(** [categorize(repo)], given the endpoint's answers to the successive
    requests it makes ([replies 1] answers the first).  Returns how the
    promise settles and the number of requests made. *)
Definition categorize `{Runtime} (cfg : EnvConfig) (replies : nat -> EndpointReply)
    : Completion GeminiResponse * nat :=
  PRetry.pRetry (fun attemptNumber => attempt (replies attemptNumber))
    onFailedAttempt (Pos.to_nat (RETRY_MAX_ATTEMPTS cfg)) 1 [].

(** What the specification calls the first balanced object substring:
    the text from the first opening brace whose matching closing brace
    exists up to that closing brace. *)
Fixpoint closeAt (depth : nat) (s : string) : option string :=
  match s with
  | EmptyString => None
  | String c rest =>
      if Ascii.eqb c "{" then
        match closeAt (S depth) rest with Some m => Some (String c m) | None => None end
      else if Ascii.eqb c "}" then
        match depth with
        | O => Some (String c EmptyString)
        | S d => match closeAt d rest with Some m => Some (String c m) | None => None end
        end
      else
        match closeAt depth rest with Some m => Some (String c m) | None => None end
  end.

Fixpoint spec_firstBalanced (s : string) : option string :=
  match s with
  | EmptyString => None
  | String c rest =>
      if Ascii.eqb c "{" then
        match closeAt 0 rest with
        | Some m => Some (String c m)
        | None => spec_firstBalanced rest
        end
      else spec_firstBalanced rest
  end.

End GeminiService.

(* ===================================================================== *)
(** * services/cache.service.ts and lib/fs-utils.ts                       *)
(* ===================================================================== *)

(** A file of the analysis cache, as [readJSON] finds it.  [readJSON] is
    [JSON.parse(content) as T] and checks nothing of what it parsed, so a
    file that parses may hold any JSON document:
    - [Stored r], a document with the fields of a record;
    - [Malformed c], a document that gives [getAnalysis] an object whose
      [categorization] is [c], [undefined] or [null]: the documents [{}]
      and [null], a number, a string, an array, an object without that
      field or with [null] in it;
    - [Unreadable], a file on which [readFile] or [JSON.parse] throws.
    A document that has a [categorization] is taken to have the fields the
    type [AnalysisResult] declares. *)
Inductive FileContent :=
| Stored (r : AnalysisResult)
| Malformed (categorization : JS.Nullish)
| Unreadable.

(** What [getAnalysis] returns for a file that parses, the object
    [{ ...result, cached: true }]: of a record, the record with [cached]
    set; of another document, an object without a [categorization]. *)
Inductive CachedAnalysis :=
| Complete (result : AnalysisResult)
| WithoutCategorization (categorization : JS.Nullish).

Module CacheService.

Definition isAlphanumeric (c : ascii) : bool :=
  let n := nat_of_ascii c in
  ((48 <=? n)%nat && (n <=? 57)%nat)
  || ((65 <=? n)%nat && (n <=? 90)%nat)
  || ((97 <=? n)%nat && (n <=? 122)%nat).

(** [/\//g] replaced by a hyphen *)
Definition slashToHyphen (c : ascii) : string :=
  if Ascii.eqb c "/" then "-" else String c EmptyString.

(** [/[^a-zA-Z0-9-]/g] replaced by an underscore.  The class is matched
    against UTF-16 code units: a code point outside ASCII is one unit, or
    two when it lies beyond U+FFFF, and its UTF-8 encoding starts with a
    byte from 192 (from 240 beyond U+FFFF) followed by bytes below 192. *)
Definition unsafeToUnderscore (c : ascii) : string :=
  let n := nat_of_ascii c in
  if isAlphanumeric c || Ascii.eqb c "-" then String c EmptyString
  else if (n <? 128)%nat then "_"
  else if (n <? 192)%nat then EmptyString
  else if (n <? 240)%nat then "_"
  else "__".

Definition slugify (name : string) : string :=
  JS.replaceEach unsafeToUnderscore (JS.replaceEach slashToHyphen name).

(** [join(this.analysisDir, `${slug}.json`)] *)
Definition getAnalysisPath (repoName : string) : string :=
  let slug := slugify repoName in
  PATHS.CACHE_ANALYSIS_DIR ++ "/" ++ slug ++ ".json".

Definition markCached (result : AnalysisResult) : AnalysisResult :=
  {| repo := repo result;
     categorization := categorization result;
     webSearchCalls := webSearchCalls result;
     cached := true;
     timestamp := timestamp result;
     failed := failed result;
     error := error result |}.

Definition getAnalysis (disk : gmap string FileContent) (repoName : string)
    : option CachedAnalysis :=
  let path := getAnalysisPath repoName in
  match disk !! path with
  | None => None
  | Some Unreadable => None
  | Some (Stored result) => Some (Complete (markCached result))
  | Some (Malformed categorization) => Some (WithoutCategorization categorization)
  end.

(** [saveAnalysis(result)] through [writeJSON]: the file is overwritten,
    or a [CacheError] is thrown when the directory or the file cannot be
    written (the error of the file system, its cause, is left out). *)
Definition saveAnalysis (canWrite : string -> bool) (disk : gmap string FileContent)
    (result : AnalysisResult) : Completion (gmap string FileContent) :=
  let path := getAnalysisPath (full_name (repo result)) in
  if canWrite path
  then Return (<[path := Stored result]> disk)
  else Throw (CacheError ("Failed to write JSON file: " ++ path) NoCause).

Definition hasAnalysis (disk : gmap string FileContent) (repoName : string) : bool :=
  bool_decide (is_Some (disk !! getAnalysisPath repoName)).

End CacheService.

(* ===================================================================== *)
(** * services/analyzer.service.ts                                        *)
(* ===================================================================== *)

Module Stats.
Record t := {
  total : nat;
  analyzed : nat;
  cached : nat;
  failed : nat;
  totalTokens : nat;
  totalWebSearches : nat;
}.
End Stats.
Abbreviation AnalyzerStats := Stats.t.

Module Progress.
Record t := {
  current : nat;
  total : nat;
  repo : string;
  cached : bool;
  category : option string;
  confidence : option Z;
  elapsedMs : option Z;
  tokensUsed : option nat;
}.
End Progress.
Abbreviation AnalyzerProgress := Progress.t.

Module AnalyzerService.

(** Where the function queued for one item stands.  The function suspends
    at its [await]s: the cache lookup, [gemini.categorize], the cache
    write, and the hand-over of its result to the caller, who pushes it. *)
Inductive Phase :=
| Queued
| Classifying (startTime : Z)
| Saving (startTime : Z) (result : AnalysisResult) (tokens : nat)
| Returned (result : AnalysisResult)
| Pushed (result : AnalysisResult).

Record Task := {
  item : GitHubRepo;
  phase : Phase;
}.

(** The service ([stats]), what it works on ([disk], the cache directory;
    [requests], the calls of [gemini.categorize] so far, each with the
    item's name and the number of requests it sent), and the locals of the
    running [analyzeAll] ([completed], [results], the invocations of
    [onProgress] in [emitted], oldest first, and the queued functions). *)
Record Pipeline := {
  stats : AnalyzerStats;
  disk : gmap string FileContent;
  requests : list (string * nat);
  completed : nat;
  results : list AnalysisResult;
  emitted : list AnalyzerProgress;
  tasks : list Task;
  tick : nat;
}.

Definition initialStats : AnalyzerStats :=
  {| Stats.total := 0; Stats.analyzed := 0; Stats.cached := 0;
     Stats.failed := 0; Stats.totalTokens := 0; Stats.totalWebSearches := 0 |}.

(** [new AnalyzerService(gemini, cache)] over a cache directory *)
Definition create (disk : gmap string FileContent) : Pipeline :=
  {| stats := initialStats; disk := disk; requests := [];
     completed := 0; results := []; emitted := []; tasks := []; tick := 0 |}.

Definition getStats (st : Pipeline) : AnalyzerStats := stats st.


(** Lines 83-93: the cache has a record for the item. *)
Definition cacheHit (i : nat) (task : Task) (found : AnalysisResult)
    (st : Pipeline) : Pipeline :=
  let s := stats st in
  let completed' := S (completed st) in
  {| stats := {| Stats.total := Stats.total s; Stats.analyzed := Stats.analyzed s;
                 Stats.cached := S (Stats.cached s); Stats.failed := Stats.failed s;
                 Stats.totalTokens := Stats.totalTokens s;
                 Stats.totalWebSearches := Stats.totalWebSearches s |};
     disk := disk st;
     requests := requests st;
     completed := completed';
     results := results st;
     emitted := emitted st ++
       [ {| Progress.current := completed';
            Progress.total := Stats.total s;
            Progress.repo := full_name (item task);
            Progress.cached := true;
            Progress.category := Some (category (categorization found));
            Progress.confidence := Some (confidence (categorization found));
            Progress.elapsedMs := None;
            Progress.tokensUsed := None |} ];
     tasks := <[i := {| item := item task; phase := Returned found |}]> (tasks st);
     tick := S (tick st) |}.

(** The cache does not have the item, or is skipped. *)
Definition cacheMiss (i : nat) (task : Task) (now : Z) (st : Pipeline) : Pipeline :=
  {| stats := stats st; disk := disk st; requests := requests st;
     completed := completed st; results := results st; emitted := emitted st;
     tasks := <[i := {| item := item task; phase := Classifying now |}]> (tasks st);
     tick := S (tick st) |}.

(** Lines 98-111: [gemini.categorize] resolved. *)
Definition classified (i : nat) (task : Task) (startTime : Z)
    (response : GeminiResponse) (attempts : nat) (now : Z) (st : Pipeline) : Pipeline :=
  let s := stats st in
  let result :=
    {| repo := item task;
       categorization := resp_categorization response;
       webSearchCalls := groundingChunks response;
       cached := false;
       timestamp := now;
       failed := None;
       error := None |} in
  {| stats := {| Stats.total := Stats.total s; Stats.analyzed := S (Stats.analyzed s);
                 Stats.cached := Stats.cached s; Stats.failed := Stats.failed s;
                 Stats.totalTokens := Stats.totalTokens s + tokensUsed response;
                 Stats.totalWebSearches :=
                   Stats.totalWebSearches s + groundingChunks response |};
     disk := disk st;
     requests := requests st ++ [(full_name (item task), attempts)];
     completed := completed st;
     results := results st;
     emitted := emitted st;
     tasks := <[i := {| item := item task;
                        phase := Saving startTime result (tokensUsed response) |}]> (tasks st);
     tick := S (tick st) |}.

(** Lines 114-130: [cache.saveAnalysis] resolved. *)
Definition saved (i : nat) (task : Task) (startTime : Z) (result : AnalysisResult)
    (tokens : nat) (disk' : gmap string FileContent) (now : Z) (st : Pipeline) : Pipeline :=
  let completed' := S (completed st) in
  {| stats := stats st;
     disk := disk';
     requests := requests st;
     completed := completed';
     results := results st;
     emitted := emitted st ++
       [ {| Progress.current := completed';
            Progress.total := Stats.total (stats st);
            Progress.repo := full_name (item task);
            Progress.cached := false;
            Progress.category := Some (category (categorization result));
            Progress.confidence := Some (confidence (categorization result));
            Progress.elapsedMs := Some (now - startTime)%Z;
            Progress.tokensUsed := Some tokens |} ];
     tasks := <[i := {| item := item task; phase := Returned result |}]> (tasks st);
     tick := S (tick st) |}.

(** The record the [catch] block returns. *)
Definition failedResult (r : GitHubRepo) (errorMsg : string) (now : Z)
    : AnalysisResult :=
  {| repo := r;
     categorization :=
       {| category := "Uncategorized";
          confidence := 0;
          reasoning := "Analysis failed: " ++ errorMsg |};
     webSearchCalls := 0;
     cached := false;
     timestamp := now;
     failed := Some true;
     error := Some errorMsg |}.

(** Lines 131-156: the [catch] block, entered with what [categorize],
    [saveAnalysis] or the branch of a cache hit threw. *)
Definition caught (i : nat) (task : Task) (thrown : Thrown)
    (requests' : list (string * nat)) (now : Z) (st : Pipeline) : Pipeline :=
  let s := stats st in
  let errorMsg := getErrorMessage thrown in
  let completed' := S (completed st) in
  {| stats := {| Stats.total := Stats.total s; Stats.analyzed := Stats.analyzed s;
                 Stats.cached := Stats.cached s; Stats.failed := S (Stats.failed s);
                 Stats.totalTokens := Stats.totalTokens s;
                 Stats.totalWebSearches := Stats.totalWebSearches s |};
     disk := disk st;
     requests := requests';
     completed := completed';
     results := results st;
     emitted := emitted st ++
       [ {| Progress.current := completed';
            Progress.total := Stats.total s;
            Progress.repo := full_name (item task);
            Progress.cached := false;
            Progress.category := None;
            Progress.confidence := None;
            Progress.elapsedMs := None;
            Progress.tokensUsed := None |} ];
     tasks := <[i := {| item := item task;
                        phase := Returned (failedResult (item task) errorMsg now) |}]> (tasks st);
     tick := S (tick st) |}.

(** The [TypeError] of [cached.categorization.category] when
    [cached.categorization] is [undefined] or [null]. *)
Definition noCategorization (categorization : JS.Nullish) : ErrorObject :=
  let message :=
    match categorization with
    | JS.IsUndefined => "Cannot read properties of undefined (reading 'category')"
    | JS.IsNull => "Cannot read properties of null (reading 'category')"
    end in
  {| instanceofError := true;
     err_message := Some message;
     err_status := None;
     err_error_code := None;
     err_error_status := None;
     err_toString := "TypeError: " ++ message |}.

(** Lines 84-85: [stats.cached++] and [completed++], with which the
    branch of a cache hit begins. *)
Definition counted (st : Pipeline) : Pipeline :=
  let s := stats st in
  {| stats := {| Stats.total := Stats.total s; Stats.analyzed := Stats.analyzed s;
                 Stats.cached := S (Stats.cached s); Stats.failed := Stats.failed s;
                 Stats.totalTokens := Stats.totalTokens s;
                 Stats.totalWebSearches := Stats.totalWebSearches s |};
     disk := disk st; requests := requests st;
     completed := S (completed st);
     results := results st; emitted := emitted st; tasks := tasks st;
     tick := tick st |}.

(** Lines 83-90 and 131-156: the cache has for the item a document
    without a [categorization].  The object [getAnalysis] built of it is
    truthy, so the branch of a cache hit is taken: the item is counted as
    cached and as completed, and then the argument of [onProgress] is
    built, which reads [cached.categorization.category] and throws a
    [TypeError] before [onProgress] is invoked; the [catch] block takes
    over, on the counters as they are by then. *)
Definition cacheBroken (i : nat) (task : Task) (categorization : JS.Nullish)
    (now : Z) (st : Pipeline) : Pipeline :=
  caught i task (Foreign (noCategorization categorization)) (requests st) now (counted st).

(** Lines 159-161: the caller pushes the result it awaited. *)
Definition pushed (i : nat) (task : Task) (result : AnalysisResult)
    (st : Pipeline) : Pipeline :=
  {| stats := stats st; disk := disk st; requests := requests st;
     completed := completed st;
     results := results st ++ [result];
     emitted := emitted st;
     tasks := <[i := {| item := item task; phase := Pushed result |}]> (tasks st);
     tick := S (tick st) |}.

(** The queue: a function is running from the moment the queue calls it
    until it returns; the queue calls the functions in the order they were
    added, and calls one only while fewer than [CATEGORIZER_CONCURRENCY]
    are running. *)
Definition isQueued (task : Task) : bool :=
  match phase task with Queued => true | _ => false end.

Definition isRunning (task : Task) : bool :=
  match phase task with Classifying _ | Saving _ _ _ => true | _ => false end.

Definition running (st : Pipeline) : nat :=
  length (List.filter isRunning (tasks st)).

Definition canStart (cfg : EnvConfig) (st : Pipeline) (i : nat) : bool :=
  (running st <? Pos.to_nat (CATEGORIZER_CONCURRENCY cfg))%nat
  && forallb (fun task => negb (isQueued task)) (firstn i (tasks st)).

(** The function queued for item [i] runs up to its next [await], once
    the queue has called it.  Between two [await]s nothing else runs, so
    the counters and [completed] are updated, and [onProgress] is invoked,
    in one step.  A call of [gemini.categorize] touches nothing the other
    items share and is one step as well.  [onProgress] is taken to return
    normally; its invocations are recorded in [emitted]. *)
Definition step `{Runtime} (cfg : EnvConfig) (w : World) (skipCache : bool)
    (st : Pipeline) (i : nat) : Pipeline :=
  match tasks st !! i with
  | None => st
  | Some task =>
      let now := clock w (tick st) in
      match phase task with
      | Queued =>
          if canStart cfg st i then
            let lookup :=
              if skipCache then None
              else CacheService.getAnalysis (disk st) (full_name (item task)) in
            match lookup with
            | Some (Complete found) => cacheHit i task found st
            | Some (WithoutCategorization categorization) =>
                cacheBroken i task categorization now st
            | None => cacheMiss i task now st
            end
          else st
      | Classifying startTime =>
          match GeminiService.categorize cfg (endpoint w i) with
          | (Return response, attempts) =>
              classified i task startTime response attempts now st
          | (Throw thrown, attempts) =>
              caught i task thrown
                (requests st ++ [(full_name (item task), attempts)]) now st
          end
      | Saving startTime result tokens =>
          match CacheService.saveAnalysis (writable w (tick st)) (disk st) result with
          | Return disk' => saved i task startTime result tokens disk' now st
          | Throw thrown => caught i task thrown (requests st) now st
          end
      | Returned result => pushed i task result st
      | Pushed _ => st
      end
  end.

(** The steps as a relation: one rule for each way a queued function
    moves on.  [step_moves] below shows that [step] takes these steps and
    no other. *)
Inductive Move `{Runtime} (cfg : EnvConfig) (w : World) (skipCache : bool)
    (st : Pipeline) (i : nat) : Pipeline -> Prop :=
| MoveAbsent :
    tasks st !! i = None ->
    Move cfg w skipCache st i st
| MoveSettled task result :
    tasks st !! i = Some task ->
    phase task = Pushed result ->
    Move cfg w skipCache st i st
| MoveWaiting task :
    tasks st !! i = Some task ->
    phase task = Queued ->
    canStart cfg st i = false ->
    Move cfg w skipCache st i st
| MoveHit task found :
    tasks st !! i = Some task ->
    phase task = Queued ->
    canStart cfg st i = true ->
    skipCache = false ->
    CacheService.getAnalysis (disk st) (full_name (item task)) = Some (Complete found) ->
    Move cfg w skipCache st i (cacheHit i task found st)
| MoveMiss task :
    tasks st !! i = Some task ->
    phase task = Queued ->
    canStart cfg st i = true ->
    skipCache = true
    \/ CacheService.getAnalysis (disk st) (full_name (item task)) = None ->
    Move cfg w skipCache st i (cacheMiss i task (clock w (tick st)) st)
| MoveClassified task startTime response attempts :
    tasks st !! i = Some task ->
    phase task = Classifying startTime ->
    GeminiService.categorize cfg (endpoint w i) = (Return response, attempts) ->
    Move cfg w skipCache st i
      (classified i task startTime response attempts (clock w (tick st)) st)
| MoveRejected task startTime thrown attempts :
    tasks st !! i = Some task ->
    phase task = Classifying startTime ->
    GeminiService.categorize cfg (endpoint w i) = (Throw thrown, attempts) ->
    Move cfg w skipCache st i
      (caught i task thrown (requests st ++ [(full_name (item task), attempts)])
         (clock w (tick st)) st)
| MoveSaved task startTime result tokens disk' :
    tasks st !! i = Some task ->
    phase task = Saving startTime result tokens ->
    CacheService.saveAnalysis (writable w (tick st)) (disk st) result = Return disk' ->
    Move cfg w skipCache st i
      (saved i task startTime result tokens disk' (clock w (tick st)) st)
| MoveUnsaved task startTime result tokens thrown :
    tasks st !! i = Some task ->
    phase task = Saving startTime result tokens ->
    CacheService.saveAnalysis (writable w (tick st)) (disk st) result = Throw thrown ->
    Move cfg w skipCache st i (caught i task thrown (requests st) (clock w (tick st)) st)
| MovePushed task result :
    tasks st !! i = Some task ->
    phase task = Returned result ->
    Move cfg w skipCache st i (pushed i task result st)
| MoveBroken task categorization :
    tasks st !! i = Some task ->
    phase task = Queued ->
    canStart cfg st i = true ->
    skipCache = false ->
    CacheService.getAnalysis (disk st) (full_name (item task))
    = Some (WithoutCategorization categorization) ->
    Move cfg w skipCache st i
      (cacheBroken i task categorization (clock w (tick st)) st).

(** The queued functions run in the order [schedule] picks them. *)
Definition run `{Runtime} (cfg : EnvConfig) (w : World) (skipCache : bool)
    (schedule : list nat) (st : Pipeline) : Pipeline :=
  fold_left (step cfg w skipCache) schedule st.

(** Lines 68-70: the start of [analyzeAll]. *)
Definition start (repos : list GitHubRepo) (st : Pipeline) : Pipeline :=
  let s := stats st in
  {| stats := {| Stats.total := length repos; Stats.analyzed := Stats.analyzed s;
                 Stats.cached := Stats.cached s; Stats.failed := Stats.failed s;
                 Stats.totalTokens := Stats.totalTokens s;
                 Stats.totalWebSearches := Stats.totalWebSearches s |};
     disk := disk st;
     requests := requests st;
     completed := 0;
     results := [];
     emitted := [];
     tasks := List.map (fun r => {| item := r; phase := Queued |}) repos;
     tick := 0 |}.

(** [Promise.all] waits for every item: whatever the schedule left
    unfinished runs to its end, item after item in the order of the queue.
    A queued function takes at most four steps. *)
Definition drain (n : nat) : list nat :=
  flat_map (fun i => repeat i 4) (seq 0 n).

(** [analyzeAll(repos, skipCache, onProgress)] on a pipeline [st], under a
    schedule of the queued functions.  The value returned to the caller is
    [results] of the final state. *)
Definition analyzeAll `{Runtime} (cfg : EnvConfig) (w : World) (schedule : list nat)
    (repos : list GitHubRepo) (skipCache : bool) (st : Pipeline) : Pipeline :=
  run cfg w skipCache (schedule ++ drain (length repos)) (start repos st).

End AnalyzerService.

(* ===================================================================== *)
(** * A runtime to run examples                                           *)
(* ===================================================================== *)

(** A reader for the answers the prompt asks for: one JSON object whose
    values are strings, integers, [true], [false] or [null].  It takes the
    place of [JSON.parse] where the model is run on a concrete answer; the
    theorems hold for every [Runtime]. *)
Module FlatJSON.

Definition quote : ascii := ascii_of_nat 34.
Definition backslash : ascii := ascii_of_nat 92.

Definition isSpace (c : ascii) : bool :=
  let n := nat_of_ascii c in
  (n =? 32)%nat || (n =? 9)%nat || (n =? 10)%nat || (n =? 13)%nat.

Definition isDigit (c : ascii) : bool :=
  let n := nat_of_ascii c in (48 <=? n)%nat && (n <=? 57)%nat.

Fixpoint skipSpace (s : string) : string :=
  match s with
  | String c rest => if isSpace c then skipSpace rest else s
  | EmptyString => s
  end.

Definition unescape (c : ascii) : option ascii :=
  if Ascii.eqb c quote then Some quote
  else if Ascii.eqb c backslash then Some backslash
  else if Ascii.eqb c "/" then Some "/"%char
  else if Ascii.eqb c "n" then Some (ascii_of_nat 10)
  else if Ascii.eqb c "t" then Some (ascii_of_nat 9)
  else if Ascii.eqb c "r" then Some (ascii_of_nat 13)
  else if Ascii.eqb c "b" then Some (ascii_of_nat 8)
  else if Ascii.eqb c "f" then Some (ascii_of_nat 12)
  else None.

(** Behind an opening quote: the characters of the string and what follows
    its closing quote. *)
Fixpoint readString (s : string) : option (string * string) :=
  match s with
  | EmptyString => None
  | String c rest =>
      if Ascii.eqb c quote then Some (EmptyString, rest)
      else if (nat_of_ascii c <? 32)%nat then None
      else if Ascii.eqb c backslash then
        match rest with
        | String e rest' =>
            match unescape e, readString rest' with
            | Some d, Some (str, tail) => Some (String d str, tail)
            | _, _ => None
            end
        | EmptyString => None
        end
      else
        match readString rest with
        | Some (str, tail) => Some (String c str, tail)
        | None => None
        end
  end.

Fixpoint readDigits (acc : Z) (s : string) : Z * string :=
  match s with
  | String c rest =>
      if isDigit c
      then readDigits (10 * acc + Z.of_nat (nat_of_ascii c - 48))%Z rest
      else (acc, s)
  | EmptyString => (acc, s)
  end.

Definition readNumber (s : string) : option (Z * string) :=
  match s with
  | String c rest => if isDigit c then Some (readDigits 0 s) else None
  | EmptyString => None
  end.

Definition readValue (s : string) : option (JS.Value * string) :=
  match s with
  | EmptyString => None
  | String c rest =>
      if Ascii.eqb c quote then
        match readString rest with
        | Some (str, tail) => Some (JS.Str str, tail)
        | None => None
        end
      else if Ascii.eqb c "-" then
        match readNumber rest with
        | Some (n, tail) => Some (JS.Number (- n), tail)
        | None => None
        end
      else if isDigit c then
        match readNumber s with
        | Some (n, tail) => Some (JS.Number n, tail)
        | None => None
        end
      else if String.prefix "true" s then Some (JS.Boolean true, JS.dropPrefix 4 s)
      else if String.prefix "false" s then Some (JS.Boolean false, JS.dropPrefix 5 s)
      else if String.prefix "null" s then Some (JS.Null, JS.dropPrefix 4 s)
      else None
  end.

(** The members behind the opening brace, up to the closing one. *)
Fixpoint readMembers (fuel : nat) (s : string) : option (list (string * JS.Value) * string) :=
  match fuel with
  | O => None
  | S fuel' =>
      match skipSpace s with
      | String q rest =>
          if Ascii.eqb q quote then
            match readString rest with
            | Some (key, tail) =>
                match skipSpace tail with
                | String colon tail' =>
                    if Ascii.eqb colon ":" then
                      match readValue (skipSpace tail') with
                      | Some (v, tail'') =>
                          match skipSpace tail'' with
                          | String sep more =>
                              if Ascii.eqb sep "," then
                                match readMembers fuel' more with
                                | Some (members, after) => Some ((key, v) :: members, after)
                                | None => None
                                end
                              else if Ascii.eqb sep "}" then Some ([(key, v)], more)
                              else None
                          | EmptyString => None
                          end
                      | None => None
                      end
                    else None
                | EmptyString => None
                end
            | None => None
            end
          else None
      | EmptyString => None
      end
  end.

Definition readObject (s : string) : option (list (string * JS.Value)) :=
  match skipSpace s with
  | String c rest =>
      if Ascii.eqb c "{" then
        match skipSpace rest with
        | String d after =>
            if Ascii.eqb d "}" then
              match skipSpace after with EmptyString => Some [] | _ => None end
            else
              match readMembers (String.length rest) rest with
              | Some (members, after') =>
                  match skipSpace after' with EmptyString => Some members | _ => None end
              | None => None
              end
        | EmptyString => None
        end
      else None
  | EmptyString => None
  end.

(** [object[key]]: the last member of that name counts. *)
Fixpoint member (key : string) (members : list (string * JS.Value)) : JS.Value :=
  match members with
  | [] => JS.Undefined
  | (k, v) :: rest =>
      match member key rest with
      | JS.Undefined => if k =? key then v else JS.Undefined
      | later => later
      end
  end.

Definition parse (s : string) : ParsedCategorization + string :=
  match readObject s with
  | None => inr "Unexpected token in JSON"
  | Some members =>
      inl {| parsed_category := member "category" members;
             parsed_confidence :=
               match member "confidence" members with JS.Number n => n | _ => 0%Z end;
             parsed_reasoning :=
               match member "reasoning" members with JS.Str r => r | _ => EmptyString end |}
  end.

End FlatJSON.

Definition flatRuntime : Runtime := {| JSON_parse := FlatJSON.parse |}.

(** Sample data: the item of the specification's concrete scenario, the
    answer of its classifier, and an endpoint error of the non-retryable
    kind. *)
Module Sample.

Definition q (s : string) : string :=
  String FlatJSON.quote s ++ String FlatJSON.quote EmptyString.

Definition answer (categoryText : string) (confidenceText : string) (reasoningText : string)
    : string :=
  "{" ++ q "category" ++ ":" ++ q categoryText ++ ","
      ++ q "confidence" ++ ":" ++ confidenceText ++ ","
      ++ q "reasoning" ++ ":" ++ q reasoningText ++ "}".

Definition item (fullName : string) : GitHubRepo :=
  {| full_name := fullName;
     node_id := "node";
     repo_description := None;
     language := None;
     topics := [];
     html_url := "https://github.com/" ++ fullName |}.

Definition replyWith (answerText : string) : EndpointReply :=
  Replied {| text := Some answerText;
             groundingChunkCount := None;
             totalTokenCount := Some 100 |}.

Definition frontend : EndpointReply :=
  replyWith (answer "Frontend Frameworks" "95" "x").

(** An HTTP 400 of the endpoint's client library. *)
Definition invalidRequest : ErrorObject :=
  {| instanceofError := true;
     err_message := Some "invalid request";
     err_status := Some 400%Z;
     err_error_code := None;
     err_error_status := None;
     err_toString := "Error: invalid request" |}.

Definition world (reply : EndpointReply) (canWrite : bool) : World :=
  {| endpoint := fun _ _ => reply;
     clock := fun n => Z.of_nat n;
     writable := fun _ _ => canWrite |}.

(** An endpoint with one scripted answer per item and request. *)
Definition scripted (script : nat -> nat -> EndpointReply) : World :=
  {| endpoint := script; clock := fun n => Z.of_nat n; writable := fun _ _ => true |}.

Definition serviceUnavailable : ErrorObject :=
  {| instanceofError := true;
     err_message := Some "503 service unavailable";
     err_status := Some 503%Z;
     err_error_code := None;
     err_error_status := Some "UNAVAILABLE";
     err_toString := "Error: 503 service unavailable" |}.

Definition storedRecord : AnalysisResult :=
  {| repo := item "a/b";
     categorization :=
       {| category := "CLI & Terminal"; confidence := 85; reasoning := "stored" |};
     webSearchCalls := 0;
     cached := false;
     timestamp := 0;
     failed := None;
     error := None |}.

End Sample.

(* ===================================================================== *)
(** * The specification's words                                           *)
(* ===================================================================== *)

(** The three matching rules of normalization, for one taxonomy entry:
    the returned string is the entry's name, or its prefix, a space and
    its name, or holds its name as a substring. *)
Definition spec_matches (cat : CategoryConfig) (returned : string) : Prop :=
  name cat = returned
  \/ emoji cat ++ " " ++ name cat = returned
  \/ exists pre post, returned = pre ++ name cat ++ post.

(** An opening brace with a closing brace somewhere behind it. *)
Definition hasBraces (s : string) : Prop :=
  exists pre mid post, s = pre ++ "{" ++ mid ++ "}" ++ post.

Definition chars (s : string) : list ascii := list_ascii_of_string s.

(** The characters a storage key is made of: alphanumerics, the hyphen and
    the underscore. *)
Definition keyChar (c : ascii) : bool :=
  CacheService.isAlphanumeric c || Ascii.eqb c "-" || Ascii.eqb c "_".

(** What [slugify] does to one ASCII character. *)
Definition slugChar (c : ascii) : ascii :=
  if Ascii.eqb c "/" then "-"%char
  else if CacheService.isAlphanumeric c || Ascii.eqb c "-" then c
  else "_"%char.

Fixpoint mapChars (f : ascii -> ascii) (s : string) : string :=
  match s with
  | EmptyString => EmptyString
  | String c rest => String (f c) (mapChars f rest)
  end.

Definition isASCII (c : ascii) : bool := (nat_of_ascii c <? 128)%nat.

(** * Notions used to state the properties of the retry loop *)

(** How often a message occurs among errors. *)
Definition occurrences (message : string) (errors : list Thrown) : nat :=
  length (List.filter (fun e => messageOf e =? message) errors).

(** The errors of the attempts from [k] on, [n] of them, those that
    failed. *)
Definition attemptErrors {A : Type} (input : nat -> Completion A) (k n : nat)
    : list Thrown :=
  omap (fun m => match input m with Throw e => Some e | Return _ => None end) (seq k n).

(** * Notions used to state the properties of the pipeline *)

(** The record a queued function has returned, if it has. *)
Definition returnedRecord (t : AnalyzerService.Task) : option AnalysisResult :=
  match AnalyzerService.phase t with
  | AnalyzerService.Returned r | AnalyzerService.Pushed r => Some r
  | _ => None
  end.

(** The record the caller has pushed for an item, if it has. *)
Definition pushedRecord (t : AnalyzerService.Task) : option AnalysisResult :=
  match AnalyzerService.phase t with
  | AnalyzerService.Pushed r => Some r
  | _ => None
  end.

(** The name of the item if its function has invoked [onProgress]. *)
Definition reported (t : AnalyzerService.Task) : option string :=
  match AnalyzerService.phase t with
  | AnalyzerService.Returned _ | AnalyzerService.Pushed _ =>
      Some (full_name (AnalyzerService.item t))
  | _ => None
  end.

(** 1 while the function waits for [saveAnalysis], else 0. *)
Definition saving (t : AnalyzerService.Task) : nat :=
  match AnalyzerService.phase t with
  | AnalyzerService.Saving _ _ _ => 1
  | _ => 0
  end.

(** The steps a queued function still has to take, at most. *)
Definition remaining (t : AnalyzerService.Task) : nat :=
  match AnalyzerService.phase t with
  | AnalyzerService.Queued => 4
  | AnalyzerService.Classifying _ => 3
  | AnalyzerService.Saving _ _ _ => 2
  | AnalyzerService.Returned _ => 1
  | AnalyzerService.Pushed _ => 0
  end.

(** Whether a record is one the [catch] block built: flagged as failed and
    not read from the cache. *)
Definition isFailure (r : AnalysisResult) : bool :=
  negb (cached r) && match failed r with Some true => true | _ => false end.

(** The number of failure records of a list. *)
Definition failures (l : list AnalysisResult) : nat :=
  length (List.filter isFailure l).

(** The sum of the three outcome counters. *)
Definition outcomes (s : AnalyzerStats) : nat :=
  Stats.analyzed s + Stats.cached s + Stats.failed s.

(** The record [getAnalysis] returns, when it returns one. *)
Definition cachedRecord (disk : gmap string FileContent) (repoName : string)
    : option AnalysisResult :=
  match CacheService.getAnalysis disk repoName with
  | Some (Complete found) => Some found
  | _ => None
  end.

(** Whether the cache stands between an item and the classifier during a
    whole call: the call looks the cache up, and the directory it started
    with holds under the item's key a document without a categorization.
    No file is removed and files are overwritten with records only, so
    whenever such an item is looked up the cache has something for it. *)
Definition brokenEntry (skipCache : bool) (disk0 : gmap string FileContent)
    (r : GitHubRepo) : bool :=
  negb skipCache
  && match disk0 !! CacheService.getAnalysisPath (full_name r) with
     | Some (Malformed _) => true
     | _ => false
     end.

(** Whether the function of such an item has returned a record that is
    not flagged as cached: the failure record of the [TypeError] thrown in
    the branch of a cache hit. *)
Definition brokenHit (skipCache : bool) (disk0 : gmap string FileContent)
    (t : AnalyzerService.Task) : bool :=
  match returnedRecord t with
  | Some r => negb (cached r) && brokenEntry skipCache disk0 (AnalyzerService.item t)
  | None => false
  end.

(** The number of these functions. *)
Definition brokenHits (skipCache : bool) (disk0 : gmap string FileContent)
    (ts : list AnalyzerService.Task) : nat :=
  list_sum (List.map (fun t => if brokenHit skipCache disk0 t then 1 else 0) ts).



(** * What a call of analyzeAll keeps true *)

Section Invariants.

Import AnalyzerService.

(** The queue calls the functions in the order they were added: behind a
    function still queued, every function is still queued. *)
Definition Fifo (st : Pipeline) : Prop :=
  forall j k tj tk,
    j < k -> tasks st !! j = Some tj -> tasks st !! k = Some tk ->
    isQueued tj = true -> isQueued tk = true.

(** The reports made so far: one for each function that has returned,
    with numbers that increase in the order the reports were made, from 1
    at least to [completed] at most. *)
Definition Reports (n : nat) (st : Pipeline) : Prop :=
  length (emitted st) <= completed st
  /\ (StronglySorted lt (List.map Progress.current (emitted st))
      /\ Forall (fun ev => 1 <= Progress.current ev <= completed st) (emitted st))
  /\ Forall (fun ev => Progress.total ev = n) (emitted st)
  /\ List.map Progress.repo (emitted st) ≡ₚ omap reported (tasks st)
  /\ results st ≡ₚ omap pushedRecord (tasks st)
  /\ Stats.total (stats st) = n.

(** Where the files and the records of a call that started with the
    directory [disk0] come from: a file is the one of [disk0] or holds a
    record; and the classifier is called, and a record waits to be
    written, only for an item the cache does not stand before. *)
Definition Traced (skipCache : bool) (disk0 : gmap string FileContent)
    (st : Pipeline) : Prop :=
  (forall path,
      disk st !! path = disk0 !! path \/ exists r, disk st !! path = Some (Stored r))
  /\ (forall j t,
        tasks st !! j = Some t -> isRunning t = true ->
        brokenEntry skipCache disk0 (item t) = false).

(** How far [completed] and the numbers of the reports are ahead of the
    reports made: by one for every failure record of a [TypeError] thrown
    in the branch of a cache hit, where [completed++] ran twice. *)
Definition Tally (skipCache : bool) (disk0 : gmap string FileContent)
    (st : Pipeline) : Prop :=
  completed st = length (emitted st) + brokenHits skipCache disk0 (tasks st)
  /\ Forall2 (fun k ev => k <= Progress.current ev
                          <= k + brokenHits skipCache disk0 (tasks st))
       (seq 1 (length (emitted st))) (emitted st).

(** What holds of the counters during a call entered with counters [s0]:
    none of the five has decreased; the three outcome counters have grown
    by one at least for every function that has returned or waits for the
    cache write; [failed] has grown by the number of failure records
    returned. *)
Definition Counts (s0 : AnalyzerStats) (st : Pipeline) : Prop :=
  Stats.analyzed s0 <= Stats.analyzed (stats st)
  /\ Stats.cached s0 <= Stats.cached (stats st)
  /\ Stats.failed s0 <= Stats.failed (stats st)
  /\ Stats.totalTokens s0 <= Stats.totalTokens (stats st)
  /\ Stats.totalWebSearches s0 <= Stats.totalWebSearches (stats st)
  /\ outcomes s0 + completed st + list_sum (List.map saving (tasks st))
     <= outcomes (stats st)
  /\ Stats.failed (stats st) = Stats.failed s0 + failures (omap returnedRecord (tasks st))
  /\ (forall j t s r k,
        tasks st !! j = Some t -> phase t = Saving s r k -> isFailure r = false).

(** When no cache write fails, the outcome counters have grown as
    [completed] has, and by one more for every function that waits for the
    cache write. *)
Definition CountedOnce (s0 : AnalyzerStats) (st : Pipeline) : Prop :=
  outcomes (stats st)
  = outcomes s0 + completed st + list_sum (List.map saving (tasks st)).



(** How the record returned for item [j] came about, in a call that
    started with the cache directory [disk0]: it was read from the cache;
    or the item went past the cache and [categorize] threw, and the
    [catch] block built the record from what was thrown; or the item went
    past the cache and [categorize] resolved, and the record is the fresh
    one or, the cache write having thrown, a failure record; or the cache
    stood before the item with a document without a categorization, and
    the [catch] block built the record from the [TypeError]. *)
Definition Explained `{Runtime} (cfg : EnvConfig) (w : World) (skipCache : bool)
    (disk0 : gmap string FileContent) (j : nat) (t : Task) (r : AnalysisResult) : Prop :=
  cached r = true
  \/ (brokenEntry skipCache disk0 (item t) = false
      /\ exists e n time,
           GeminiService.categorize cfg (endpoint w j) = (Throw e, n)
           /\ r = failedResult (item t) (getErrorMessage e) time)
  \/ (brokenEntry skipCache disk0 (item t) = false
      /\ exists response n,
           GeminiService.categorize cfg (endpoint w j) = (Return response, n)
           /\ ((categorization r = resp_categorization response
                /\ repo r = item t /\ cached r = false /\ failed r = None)
               \/ exists e time, r = failedResult (item t) (getErrorMessage e) time))
  \/ (brokenEntry skipCache disk0 (item t) = true
      /\ exists c time,
           r = failedResult (item t) (getErrorMessage (Foreign (noCategorization c))) time).

(** During a call that started with [disk0]: a file differs from the one
    of [disk0] only under the key of an item whose classification
    succeeded; a record waits to be written only after its item's
    classification succeeded; every record returned is explained. *)
Definition Writes `{Runtime} (cfg : EnvConfig) (w : World) (skipCache : bool)
    (disk0 : gmap string FileContent) (st : Pipeline) : Prop :=
  (forall path,
      disk st !! path = disk0 !! path
      \/ exists j t response n,
           tasks st !! j = Some t
           /\ CacheService.getAnalysisPath (full_name (item t)) = path
           /\ GeminiService.categorize cfg (endpoint w j) = (Return response, n))
  /\ (forall j t s r k,
        tasks st !! j = Some t -> phase t = Saving s r k ->
        repo r = item t
        /\ cached r = false /\ failed r = None
        /\ exists response n,
             GeminiService.categorize cfg (endpoint w j) = (Return response, n)
             /\ categorization r = resp_categorization response)
  /\ (forall j t r,
        tasks st !! j = Some t -> returnedRecord t = Some r ->
        Explained cfg w skipCache disk0 j t r).


(** The calls of [gemini.categorize] are logged in their order, behind
    the log the call of [analyzeAll] was entered with; in a call that does
    not skip the cache, each is for a name the cache directory [disk0] had
    nothing for. *)
Definition Appended (disk0 : gmap string FileContent) (requests0 : list (string * nat))
    (st : Pipeline) : Prop :=
  exists extra,
    requests st = (requests0 ++ extra)%list
    /\ Forall (fun q => CacheService.getAnalysis disk0 (fst q) = None) extra.


(** During a call that does not skip the cache and started with [disk0]
    and the request log [requests0]: the files of [disk0] that hold a
    record are untouched; an item is classified only if [disk0] has no
    record for it; a record returned for an item [disk0] has a record for
    is that record, flagged as cached; requests are logged only for items
    [disk0] has no record for. *)
Definition Hits (disk0 : gmap string FileContent) (requests0 : list (string * nat))
    (st : Pipeline) : Prop :=
  (forall path r, disk0 !! path = Some (Stored r) -> disk st !! path = Some (Stored r))
  /\ (forall j t s,
        tasks st !! j = Some t -> phase t = Classifying s ->
        CacheService.getAnalysis disk0 (full_name (item t)) = None)
  /\ (forall j t s r k,
        tasks st !! j = Some t -> phase t = Saving s r k ->
        repo r = item t
        /\ CacheService.getAnalysis disk0 (full_name (item t)) = None)
  /\ (forall j t r stored,
        tasks st !! j = Some t -> returnedRecord t = Some r ->
        disk0 !! CacheService.getAnalysisPath (full_name (item t)) = Some (Stored stored) ->
        r = CacheService.markCached stored)
  /\ (forall name n,
        In (name, n) (requests st) ->
        In (name, n) requests0 \/ CacheService.getAnalysis disk0 name = None).

End Invariants.

(* ===================================================================== *)
(** * Further notions of the pipeline                                     *)
(* ===================================================================== *)

(** Whether the function queued for an item went past the cache and
    called [gemini.categorize]: it waits for the cache write, or has
    returned a record that is not flagged as cached and is not the failure
    record of a [TypeError] thrown in the branch of a cache hit.
    [one_classification_per_uncached_record] below shows that the calls
    logged are the calls for these functions. *)
Definition asked (skipCache : bool) (disk0 : gmap string FileContent)
    (t : AnalyzerService.Task) : bool :=
  match AnalyzerService.phase t with
  | AnalyzerService.Saving _ _ _ => true
  | AnalyzerService.Returned r | AnalyzerService.Pushed r =>
      negb (cached r) && negb (brokenEntry skipCache disk0 (AnalyzerService.item t))
  | _ => false
  end.

(** The name of the item if [gemini.categorize] was called for it. *)
Definition askedFor (skipCache : bool) (disk0 : gmap string FileContent)
    (t : AnalyzerService.Task) : option string :=
  if asked skipCache disk0 t then Some (full_name (AnalyzerService.item t)) else None.

(** What one call of [gemini.categorize] adds to the counters [analyzed],
    [totalTokens] and [totalWebSearches] (lines 101-103 of [analyzeAll]):
    nothing when it throws. *)
Definition resolved (outcome : Completion GeminiResponse * nat) : nat :=
  match outcome with (Return _, _) => 1 | _ => 0 end.

Definition tokensOf (outcome : Completion GeminiResponse * nat) : nat :=
  match outcome with (Return response, _) => tokensUsed response | _ => 0 end.

Definition searchesOf (outcome : Completion GeminiResponse * nat) : nat :=
  match outcome with (Return response, _) => groundingChunks response | _ => 0 end.

(** The sum of [f] over the calls of [gemini.categorize] made so far, the
    call for the item at position [j] being answered by [endpoint w j]. *)
Definition charged `{Runtime} (cfg : EnvConfig) (w : World)
    (skipCache : bool) (disk0 : gmap string FileContent)
    (f : Completion GeminiResponse * nat -> nat) (ts : list AnalyzerService.Task) : nat :=
  list_sum (imap (fun j t =>
                    if asked skipCache disk0 t
                    then f (GeminiService.categorize cfg (endpoint w j)) else 0) ts).

(** 1 for a function that is running, else 0. *)
Definition busy (t : AnalyzerService.Task) : nat :=
  if AnalyzerService.isRunning t then 1 else 0.

(** 1 for an item that was classified, whose classification resolved and
    whose record is a failure record all the same, else 0: [j] is the
    item's position. *)
Definition lost `{Runtime} (cfg : EnvConfig) (w : World)
    (skipCache : bool) (disk0 : gmap string FileContent) (j : nat)
    (t : AnalyzerService.Task) : nat :=
  match returnedRecord t with
  | Some r =>
      if isFailure r && asked skipCache disk0 t
      then resolved (GeminiService.categorize cfg (endpoint w j)) else 0
  | None => 0
  end.

(** The number of such items. *)
Definition lostWrites `{Runtime} (cfg : EnvConfig) (w : World)
    (skipCache : bool) (disk0 : gmap string FileContent)
    (ts : list AnalyzerService.Task) : nat :=
  list_sum (imap (lost cfg w skipCache disk0) ts).

(** What an invocation of [onProgress] says of an item: its name, the
    cache flag, the category and the confidence if given, and whether a
    token count is given. *)
Definition eventInfo (ev : AnalyzerProgress)
    : string * bool * option string * option Z * bool :=
  (Progress.repo ev, Progress.cached ev, Progress.category ev, Progress.confidence ev,
   match Progress.tokensUsed ev with Some _ => true | None => false end).

(** The same of the record returned for an item, if one was returned: a
    failure record gives no category and no confidence, and a token count
    goes with a fresh record only. *)
Definition describe (t : AnalyzerService.Task)
    : option (string * bool * option string * option Z * bool) :=
  match returnedRecord t with
  | Some r =>
      Some (full_name (AnalyzerService.item t), cached r,
            if isFailure r then None else Some (category (categorization r)),
            if isFailure r then None else Some (confidence (categorization r)),
            negb (cached r) && negb (isFailure r))
  | None => None
  end.

Section MoreInvariants.

Import AnalyzerService.

(** The calls of [gemini.categorize] logged during a call of [analyzeAll]
    entered with the log [requests0] and the cache directory [disk0]: one
    for each function that went past the cache. *)
Definition Asked (skipCache : bool) (disk0 : gmap string FileContent)
    (requests0 : list (string * nat)) (st : Pipeline) : Prop :=
  List.map fst (requests st)
  ≡ₚ (List.map fst requests0 ++ omap (askedFor skipCache disk0) (tasks st))%list
  /\ (forall j t s r k,
        tasks st !! j = Some t -> phase t = Saving s r k -> cached r = false).

(** The counters of the classifier during a call entered with the
    counters [s0] and the cache directory [disk0]: each has grown by what
    the calls of [gemini.categorize] made so far have added. *)
Definition Charged `{Runtime} (cfg : EnvConfig) (w : World)
    (skipCache : bool) (disk0 : gmap string FileContent) (s0 : AnalyzerStats)
    (st : Pipeline) : Prop :=
  Stats.analyzed (stats st)
  = Stats.analyzed s0 + charged cfg w skipCache disk0 resolved (tasks st)
  /\ Stats.totalTokens (stats st)
     = Stats.totalTokens s0 + charged cfg w skipCache disk0 tokensOf (tasks st)
  /\ Stats.totalWebSearches (stats st)
     = Stats.totalWebSearches s0 + charged cfg w skipCache disk0 searchesOf (tasks st)
  /\ (forall j t s r k,
        tasks st !! j = Some t -> phase t = Saving s r k -> cached r = false).

(** The queue's limit: no more than [CATEGORIZER_CONCURRENCY] functions
    are running. *)
Definition Bounded (cfg : EnvConfig) (st : Pipeline) : Prop :=
  running st <= Pos.to_nat (CATEGORIZER_CONCURRENCY cfg).

(** A call that does not skip the cache, on a batch the cache directory
    [disk0] has every item of: nothing is classified or written, every
    record returned is the one [getAnalysis] reads from [disk0], and of the
    counters only [cached] moves, by one for each function that returned. *)
Definition AllHits (disk0 : gmap string FileContent) (requests0 : list (string * nat))
    (s0 : AnalyzerStats) (st : Pipeline) : Prop :=
  disk st = disk0
  /\ requests st = requests0
  /\ (forall j t, tasks st !! j = Some t ->
        is_Some (cachedRecord disk0 (full_name (item t)))
        /\ match phase t with
           | Queued => True
           | Returned r | Pushed r =>
               cachedRecord disk0 (full_name (item t)) = Some r
           | _ => False
           end)
  /\ Stats.analyzed (stats st) = Stats.analyzed s0
  /\ Stats.cached (stats st) = Stats.cached s0 + completed st
  /\ Stats.failed (stats st) = Stats.failed s0
  /\ Stats.totalTokens (stats st) = Stats.totalTokens s0
  /\ Stats.totalWebSearches (stats st) = Stats.totalWebSearches s0.


(** A call that skips the cache, entered with the counters [s0]: the
    counter [cached] stays, and every record, returned or waiting to be
    written, is about its item and not flagged as cached. *)
Definition Skipped (s0 : AnalyzerStats) (st : Pipeline) : Prop :=
  Stats.cached (stats st) = Stats.cached s0
  /\ (forall j t s r k,
        tasks st !! j = Some t -> phase t = Saving s r k ->
        cached r = false /\ repo r = item t)
  /\ (forall j t r,
        tasks st !! j = Some t -> returnedRecord t = Some r ->
        cached r = false /\ repo r = item t).

(** The outcome counters during a call entered with the counters [s0] and
    the cache directory [disk0]: they have grown as [completed] has, by
    one more for every function that waits for the cache write, and by one
    more for every lost write; and a record waits to be written only after
    its classification resolved. *)
Definition Balance `{Runtime} (cfg : EnvConfig) (w : World)
    (skipCache : bool) (disk0 : gmap string FileContent) (s0 : AnalyzerStats)
    (st : Pipeline) : Prop :=
  outcomes (stats st)
  = outcomes s0 + completed st + list_sum (List.map saving (tasks st))
    + lostWrites cfg w skipCache disk0 (tasks st)
  /\ (forall j t s r k,
        tasks st !! j = Some t -> phase t = Saving s r k ->
        isFailure r = false
        /\ resolved (GeminiService.categorize cfg (endpoint w j)) = 1).

(** The invocations of [onProgress] made so far describe the records
    returned so far. *)
Definition Described (st : Pipeline) : Prop :=
  List.map eventInfo (emitted st) ≡ₚ omap describe (tasks st)
  /\ (forall j t s r k,
        tasks st !! j = Some t -> phase t = Saving s r k ->
        cached r = false /\ isFailure r = false).

(** The cache directory holds a record under the key of every item whose
    function returned a record that is not a failure record. *)
Definition Kept (st : Pipeline) : Prop :=
  (forall j t s r k,
      tasks st !! j = Some t -> phase t = Saving s r k -> repo r = item t)
  /\ (forall j t r,
        tasks st !! j = Some t -> returnedRecord t = Some r -> isFailure r = false ->
        exists stored,
          disk st !! CacheService.getAnalysisPath (full_name (item t)) = Some (Stored stored)).

End MoreInvariants.

(** The name under which the prompt lists a category and [createList]
    creates its list: the emoji, a space, the name. *)
Definition fullNameOf (cat : CategoryConfig) : string :=
  emoji cat ++ " " ++ name cat.

(* ===================================================================== *)
(** * services/cache.service.ts: the cache of the starred repositories    *)
(* ===================================================================== *)

(** The file [cache/starred-repos.json]: a document of the interface
    [CachedRepos], or a file [readJSON] cannot read.  [timestamp] is a
    string in the source; it is kept as the instant
    [new Date(timestamp).getTime()] makes of it, in milliseconds since the
    epoch, [None] standing for the NaN of a string that is not a date. *)
Inductive ReposFile :=
| CachedRepos (timestamp : option Z) (repos : list GitHubRepo)
| UnreadableRepos.

Module StarredRepos.

Definition reposFile : string := PATHS.CACHE_REPOS_FILE.

(** [fileExists(this.reposFile)] *)
Definition fileExists (file : option ReposFile) : bool :=
  match file with Some _ => true | None => false end.

(** [readJSON<CachedRepos>(this.reposFile)] (the error of the file system,
    the cause of the [CacheError], is left out) *)
Definition readJSON (file : option ReposFile) : Completion (option Z * list GitHubRepo) :=
  match file with
  | Some (CachedRepos timestamp repos) => Return (timestamp, repos)
  | _ => Throw (CacheError ("Failed to read JSON file: " ++ reposFile) NoCause)
  end.

Definition HOUR : Z := 60 * 60 * 1000.
Definition MINUTE : Z := 60 * 1000.

(** [config().CACHE_MAX_AGE_HOURS * 60 * 60 * 1000] *)
Definition maxAge (cfg : EnvConfig) : Z := Z.pos (CACHE_MAX_AGE_HOURS cfg) * 60 * 60 * 1000.

(** [isReposCacheValid()], [now] being what [Date.now()] returns.  A
    comparison with NaN is false. *)
Definition isReposCacheValid (cfg : EnvConfig) (file : option ReposFile) (now : Z) : bool :=
  if negb (fileExists file) then false
  else
    match readJSON file with
    | Throw _ => false
    | Return (timestamp, _) =>
        match timestamp with
        | None => false
        | Some written =>
            let cacheAge := (now - written)%Z in
            (cacheAge <? maxAge cfg)%Z
        end
    end.

(** [getStarredRepos()]: the second read is not guarded in the source. *)
Definition getStarredRepos (cfg : EnvConfig) (file : option ReposFile) (now : Z)
    : Completion (option (list GitHubRepo)) :=
  if negb (isReposCacheValid cfg file now) then Return None
  else
    match readJSON file with
    | Throw e => Throw e
    | Return (_, repos) => Return (Some repos)
    end.

(** [saveStarredRepos(repos)] through [writeJSON], [now] being the instant
    of [new Date()]: the file as it is afterwards. *)
Definition saveStarredRepos (canWrite : string -> bool) (now : Z) (repos : list GitHubRepo)
    : Completion (option ReposFile) :=
  if canWrite reposFile
  then Return (Some (CachedRepos (Some now) repos))
  else Throw (CacheError ("Failed to write JSON file: " ++ reposFile) NoCause).

(** An integer in a template literal *)
Definition number (n : Z) : string := NilZero.string_of_int (Z.to_int n).

(** [getCacheAge()]: [Math.floor] of a quotient is [Z.div], the remainder
    [%] takes the sign of the dividend as [Z.rem] does. *)
Definition getCacheAge (file : option ReposFile) (now : Z) : option string :=
  if negb (fileExists file) then None
  else
    match readJSON file with
    | Throw _ => None
    | Return (timestamp, _) =>
        match timestamp with
        | None => Some "NaNh NaNm"
        | Some written =>
            let cacheAge := (now - written)%Z in
            let hours := (cacheAge / HOUR)%Z in
            let minutes := (Z.rem cacheAge HOUR / MINUTE)%Z in
            Some (number hours ++ "h " ++ number minutes ++ "m")
        end
    end.

End StarredRepos.

(* ===================================================================== *)
(** * services/reporter.service.ts                                        *)
(* ===================================================================== *)

(** [result.failed] as a condition *)
Definition isFailed (result : AnalysisResult) : bool :=
  match failed result with Some true => true | _ => false end.

Module Report.

Record entry := {
  count : nat;
  repos : list string;
}.

(** [timestamp] is the instant of the ISO string, as in [AnalysisResult]. *)
Record t := {
  timestamp : Z;
  totalRepos : nat;
  categories : gmap string entry;
  stats : AnalyzerStats;
  failedRepos : list string;
}.

End Report.

Module ReporterService.

(** The properties every object literal inherits from [Object.prototype]:
    [categories[key]] is one of them, and not [undefined], when [key] is
    one of these names and [categories] has no property of its own under
    it. *)
Definition objectPrototype : list string :=
  [ "constructor"; "__defineGetter__"; "__defineSetter__"; "hasOwnProperty";
    "__lookupGetter__"; "__lookupSetter__"; "isPrototypeOf"; "propertyIsEnumerable";
    "toString"; "valueOf"; "__proto__"; "toLocaleString" ].

Inductive Property :=
| Own (e : Report.entry)
| Inherited
| Absent.

(** [categories[key]] *)
Definition get (categories : gmap string Report.entry) (key : string) : Property :=
  match categories !! key with
  | Some e => Own e
  | None => if existsb (String.eqb key) objectPrototype then Inherited else Absent
  end.

(** The [TypeError] of [categories[category].repos.push] when
    [categories[category]] is an inherited property, which has no
    [repos]. *)
Definition typeError : ErrorObject :=
  {| instanceofError := true;
     err_message := Some "Cannot read properties of undefined (reading 'push')";
     err_status := None;
     err_error_code := None;
     err_error_status := None;
     err_toString := "TypeError: Cannot read properties of undefined (reading 'push')" |}.

(** One turn of the loop of [generateReport], on [categories] and
    [failedRepos]. *)
Definition visit (acc : gmap string Report.entry * list string) (result : AnalysisResult)
    : Completion (gmap string Report.entry * list string) :=
  let (categories, failedRepos) := acc in
  if isFailed result then Return (categories, (failedRepos ++ [full_name (repo result)])%list)
  else
    let category := category (categorization result) in
    match get categories category with
    | Absent =>
        Return (<[category := {| Report.count := 1;
                                 Report.repos := [full_name (repo result)] |}]> categories,
                failedRepos)
    | Own e =>
        Return (<[category := {| Report.count := S (Report.count e);
                                 Report.repos :=
                                   (Report.repos e ++ [full_name (repo result)])%list |}]>
                  categories,
                failedRepos)
    | Inherited => Throw (Foreign typeError)
    end.

Fixpoint loop (results : list AnalysisResult)
    (acc : gmap string Report.entry * list string)
    : Completion (gmap string Report.entry * list string) :=
  match results with
  | [] => Return acc
  | result :: rest =>
      match visit acc result with
      | Return acc' => loop rest acc'
      | Throw e => Throw e
      end
  end.

(** [generateReport(results, stats)], [now] being the instant of
    [new Date()]. *)
Definition generateReport (results : list AnalysisResult) (stats : AnalyzerStats) (now : Z)
    : Completion Report.t :=
  match loop results (∅, []) with
  | Throw e => Throw e
  | Return (categories, failedRepos) =>
      Return {| Report.timestamp := now;
                Report.totalRepos := length results;
                Report.categories := categories;
                Report.stats := stats;
                Report.failedRepos := failedRepos |}
  end.

End ReporterService.

(** The sum of the [count]s of a report's categories. *)
Definition totalCount (categories : gmap string Report.entry) : nat :=
  map_fold (fun _ e n => Report.count e + n) 0 categories.

(** The names of the results that are not flagged as failed and carry the
    category [c], in the order of the results. *)
Definition namesIn (c : string) (results : list AnalysisResult) : list string :=
  List.map (fun r => full_name (repo r))
    (List.filter (fun r => negb (isFailed r) && (category (categorization r) =? c)) results).

(** The entry of a category after the results named [names] were added to
    it: [before] is what it was. *)
Definition extend (before : option Report.entry) (names : list string)
    : option Report.entry :=
  match before, names with
  | None, [] => None
  | None, _ => Some {| Report.count := length names; Report.repos := names |}
  | Some e, _ =>
      Some {| Report.count := Report.count e + length names;
              Report.repos := (Report.repos e ++ names)%list |}
  end.

(* ===================================================================== *)
(** * services/github.service.ts: the assignment of repositories to lists *)
(* ===================================================================== *)

Record GitHubList := {
  list_id : string;
  list_name : string;
  list_description : string;
}.

Record Assignment := {
  listId : string;
  nodeId : string;
}.

Module GitHubService.

(** How a method of the service settles: it resolves with a value, or
    rejects with a [GitHubAPIError] of the message given (its cause is left
    out). *)
Inductive Settled (A : Type) :=
| Resolved (a : A)
| Rejected (message : string).
Arguments Resolved {A} a.
Arguments Rejected {A} message.

(** The line feed, as a string *)
Definition newline : string := String (ascii_of_nat 10) EmptyString.

(** [stdout.split(newline)]: the pieces between the line feeds. *)
Fixpoint split (stdout : string) : list string :=
  match stdout with
  | EmptyString => [EmptyString]
  | String c rest =>
      if Ascii.eqb c (ascii_of_nat 10) then EmptyString :: split rest
      else match split rest with
           | line :: more => String c line :: more
           | [] => [String c EmptyString]
           end
  end.

(** [line.trim()] as a condition *)
Definition notBlank (line : string) : bool := negb (JS.trim line =? EmptyString).

Section Fetch.

(** [JSON.parse] on a line of the output of [gh]: the repository, or the
    message of the [SyntaxError]. *)
Variable JSON_parse_line : string -> GitHubRepo + string.

(** [lines.map((line) => JSON.parse(line))]: the first line that does not
    parse ends it. *)
Fixpoint parseLines (lines : list string) : list GitHubRepo + string :=
  match lines with
  | [] => inl []
  | line :: rest =>
      match JSON_parse_line line with
      | inr message => inr message
      | inl repo =>
          match parseLines rest with
          | inl repos => inl (repo :: repos)
          | inr message => inr message
          end
      end
  end.

(** [fetchStarredRepos()], given how the command [gh api user/starred]
    ended: with its standard output, or with a failure (a non-zero exit,
    the timeout).  [verifyTokenScopes], which it awaits first, catches
    what it throws and only logs. *)
Definition fetchStarredRepos (gh : option string) : Settled (list GitHubRepo) :=
  match gh with
  | None => Rejected "Failed to fetch starred repositories"
  | Some stdout =>
      match parseLines (List.filter notBlank (split stdout)) with
      | inl repos => Resolved repos
      | inr _ => Rejected "Failed to fetch starred repositories"
      end
  end.

End Fetch.

(** [s.indexOf(c)] for a character of one byte: the position of its first
    occurrence, [None] standing for -1.  No byte of a longer UTF-8
    sequence equals an ASCII character, so the position found is that of
    the character, and cutting the string behind it cuts no sequence. *)
Fixpoint indexOf (c : ascii) (s : string) : option nat :=
  match s with
  | EmptyString => None
  | String d rest =>
      if Ascii.eqb d c then Some 0
      else match indexOf c rest with Some i => Some (S i) | None => None end
  end.

(** [`${emoji} ${name}`], the name [createList] asks for *)
Definition fullName (emoji name : string) : string := emoji ++ " " ++ name.

(** [list.name.substring(list.name.indexOf(" ") + 1)] *)
Definition categoryName (listName : string) : string :=
  JS.dropPrefix (match indexOf " " listName with Some i => i + 1 | None => 0 end) listName.

(** The [Map] filled by the loop over [lists]: a later list replaces an
    earlier one of the same category name. *)
Definition categoryToListId (lists : list GitHubList) : gmap string string :=
  fold_left (fun m list => <[categoryName (list_name list) := list_id list]> m) lists ∅.

(** Lines 203-217 of [assignReposToLists]: the results not flagged as
    failed, each with the list of its category, those without a list
    dropped. *)
Definition assignments (results : list AnalysisResult) (lists : list GitHubList)
    : list Assignment :=
  let successfulResults := List.filter (fun r => negb (isFailed r)) results in
  let ids := categoryToListId lists in
  omap (fun result =>
          match ids !! category (categorization result) with
          | Some id => Some {| listId := id; nodeId := node_id (repo result) |}
          | None => None
          end) successfulResults.

Definition BATCH_SIZE : nat := 10.

(** The loop of lines 225-227, from the index [i]; it is entered at most
    once for every assignment. *)
Fixpoint batchesFrom (fuel : nat) (i : nat) (assignments : list Assignment)
    : list (list Assignment) :=
  match fuel with
  | O => []
  | S fuel' =>
      if (i <? length assignments)%nat
      then firstn BATCH_SIZE (skipn i assignments)
           :: batchesFrom fuel' (i + BATCH_SIZE) assignments
      else []
  end.

Definition batches (assignments : list Assignment) : list (list Assignment) :=
  batchesFrom (length assignments) 0 assignments.


(** The locals [completed] and the invocations of [onProgress], oldest
    first, and the first rejection among the queued functions. *)
Record Progress := {
  completed : nat;
  reported : list (nat * nat);
  rejection : option string;
}.

(** The function queued for a batch, run to its end: the mutation is sent
    ([mutate] tells whether it succeeds; [graphqlMutation] throws a
    [GitHubAPIError] otherwise), and behind it [completed] grows and
    [onProgress] is invoked. *)
Definition finish (mutate : list Assignment -> bool) (total : nat) (st : Progress)
    (batch : list Assignment) : Progress :=
  if mutate batch then
    let completed' := completed st + length batch in
    {| completed := completed';
       reported := (reported st ++ [(completed', total)])%list;
       rejection := rejection st |}
  else
    {| completed := completed st;
       reported := reported st;
       rejection := match rejection st with
                    | Some m => Some m
                    | None => Some "GraphQL mutation failed"
                    end |}.

(** [assignReposToLists(results, lists, onProgress)]: the queued functions
    finish in the order [order] lists their batches in; [Promise.all]
    rejects with the first rejection and resolves when there is none. *)
Definition assignReposToLists (mutate : list Assignment -> bool)
    (order : list (list Assignment)) (results : list AnalysisResult)
    (lists : list GitHubList) : Settled unit * list (nat * nat) :=
  let total := length (assignments results lists) in
  let final := fold_left (finish mutate total) order
                 {| completed := 0; reported := []; rejection := None |} in
  (match rejection final with Some m => Rejected m | None => Resolved tt end,
   reported final).

End GitHubService.

(** The lists [createLists] returns when every list of the taxonomy is
    created under the name asked for, [ids] being the ids they are given,
    in the order of [CATEGORIES]. *)
Definition created (ids : list string) : list GitHubList :=
  zip_with (fun cat id =>
              {| list_id := id;
                 list_name := GitHubService.fullName (emoji cat) (name cat);
                 list_description := description cat |}) CATEGORIES ids.

(** The values [completed] takes as batches of the sizes [sizes] finish,
    from the value [c]. *)
Fixpoint totalsFrom (c : nat) (sizes : list nat) : list nat :=
  match sizes with
  | [] => []
  | n :: rest => (c + n) :: totalsFrom (c + n) rest
  end.

(* ===================================================================== *)
(** * index.ts and cli/hooks/useAnalysis.ts: the limit                    *)
(* ===================================================================== *)

Module Cli.

(** [repos.slice(0, end)] for an integer [end]: a negative [end] counts
    from the end of the array. *)
Definition slice0 {A : Type} (l : list A) (e : Z) : list A :=
  if (e <? 0)%Z
  then firstn (Z.to_nat (Z.of_nat (length l) + e)) l
  else firstn (Z.to_nat e) l.

(** [options.limit ? repos.slice(0, options.limit) : repos]; [None] is a
    limit that was not given or is NaN. *)
Definition reposToProcess (limit : option Z) (repos : list GitHubRepo) : list GitHubRepo :=
  match limit with
  | Some n => if (n =? 0)%Z then repos else slice0 repos n
  | None => repos
  end.

End Cli.

(* ===================================================================== *)
(** * Strings                                                             *)
(* ===================================================================== *)

#[local] Arguments String.append !_ _ / : simpl nomatch.

Section StringFacts.

Lemma append_assoc (a b c : string) : (a ++ b) ++ c = a ++ (b ++ c).
Proof. induction a as [|x a IH]; simpl; [reflexivity | now rewrite IH]. Qed.

Lemma chars_append (a b : string) :
  list_ascii_of_string (a ++ b) = (list_ascii_of_string a ++ list_ascii_of_string b)%list.
Proof. induction a as [|x a IH]; simpl; [reflexivity | now rewrite IH]. Qed.

Lemma prefix_spec (p s : string) :
  String.prefix p s = true <-> exists post, s = p ++ post.
Proof.
  revert s; induction p as [|c p IH]; intros s; simpl.
  - split; [intros _; now exists s | intros _; now destruct s].
  - destruct s as [|d s]; simpl.
    + split; [discriminate | intros [post H]; discriminate].
    + destruct (ascii_dec c d) as [->|Hne].
      * rewrite IH. split; intros [post H]; exists post; congruence.
      * split; [discriminate | intros [post H]; congruence].
Qed.

Lemma includes_unfold (s needle : string) :
  JS.includes s needle =
  String.prefix needle s
  || match s with
     | EmptyString => false
     | String _ rest => JS.includes rest needle
     end.
Proof. destruct s; reflexivity. Qed.

Lemma includes_spec (s needle : string) :
  JS.includes s needle = true <-> exists pre post, s = pre ++ needle ++ post.
Proof.
  split.
  - induction s as [|c s IH]; rewrite includes_unfold, orb_true_iff; intros [H|H].
    + apply prefix_spec in H as [post ->]. now exists EmptyString, post.
    + discriminate.
    + apply prefix_spec in H as [post ->]. now exists EmptyString, post.
    + destruct (IH H) as (pre & post & ->). now exists (String c pre), post.
  - intros (pre & post & ->). induction pre as [|c pre IH].
    + rewrite includes_unfold. simpl.
      assert (Hp : String.prefix needle (needle ++ post) = true)
        by (apply prefix_spec; now exists post).
      now rewrite Hp.
    + rewrite includes_unfold. simpl. rewrite IH. apply orb_true_r.
Qed.

End StringFacts.


Section Normalization.

Lemma matchesCategory_spec (cat : CategoryConfig) (returned : string) :
  GeminiService.matchesCategory returned cat = true <-> spec_matches cat returned.
Proof.
  unfold GeminiService.matchesCategory, spec_matches.
  rewrite !orb_true_iff, !String.eqb_eq, includes_spec. tauto.
Qed.

Lemma find_first {A : Type} (f : A -> bool) (l : list A) :
  match List.find f l with
  | Some x => exists before after,
      l = (before ++ x :: after)%list /\ Forall (fun y => f y = false) before /\ f x = true
  | None => Forall (fun y => f y = false) l
  end.
Proof.
  induction l as [|a l IH]; simpl.
  - constructor.
  - destruct (f a) eqn:Ha.
    + exists [], l. repeat split; [constructor | assumption].
    + destruct (List.find f l) as [x|].
      * destruct IH as (before & after & -> & Hb & Hx).
        exists (a :: before), after. repeat split; [constructor|]; assumption.
      * constructor; assumption.
Qed.

Lemma no_match_iff (returned : string) (l : list CategoryConfig) :
  Forall (fun c => GeminiService.matchesCategory returned c = false) l ->
  Forall (fun c => ~ spec_matches c returned) l.
Proof.
  induction 1 as [|c l Hc _ IH]; constructor; [|exact IH].
  intros Hs. apply matchesCategory_spec in Hs. congruence.
Qed.

Lemma invalidCategory_false (v : JS.Value) :
  GeminiService.invalidCategory v = false <->
  exists s, v = JS.Str s /\ JS.trim s <> EmptyString.
Proof.
  unfold GeminiService.invalidCategory. split.
  - destruct v as [| |b|n|s|]; simpl; rewrite ?orb_true_r; try discriminate.
    intros H. apply orb_false_iff in H as [H1 H2]. apply orb_false_iff in H1 as [_ _].
    exists s. split; [reflexivity|]. now apply String.eqb_neq.
  - intros (s & -> & Hs). simpl.
    assert (s <> EmptyString) by (intros ->; now apply Hs).
    apply String.eqb_neq in Hs. rewrite Hs.
    replace (s =? EmptyString) with false by (symmetry; now apply String.eqb_neq).
    reflexivity.
Qed.

Lemma parseResponse_valid {R : Runtime} (text json : string) (p : ParsedCategorization)
    (raw : string) :
  GeminiService.jsonMatch text = Some json ->
  JSON_parse json = inl p ->
  parsed_category p = JS.Str raw ->
  JS.trim raw <> EmptyString ->
  GeminiService.parseResponse text = Return (GeminiService.normalizeCategory p raw).
Proof.
  intros Hm Hp Hc Ht. unfold GeminiService.parseResponse. rewrite Hm, Hp.
  assert (Hv : GeminiService.invalidCategory (parsed_category p) = false)
    by (apply invalidCategory_false; eauto).
  now rewrite Hv, Hc.
Qed.

(** C4, as amended: the trimmed category is compared with the taxonomy in
    the order of its declaration; the first entry that the string equals,
    equals behind its prefix and a space, or contains, gives the category
    and the reasoning is kept; when no entry matches, the category is
    "Other Tools" and the reasoning is replaced by a note that holds the
    trimmed string.  [parseResponse] returns in both cases. *)
Theorem normalization_first_match_or_fallback {R : Runtime} (text json : string)
    (p : ParsedCategorization) (raw : string) :
  GeminiService.jsonMatch text = Some json ->
  JSON_parse json = inl p ->
  parsed_category p = JS.Str raw ->
  JS.trim raw <> EmptyString ->
  exists out,
    GeminiService.parseResponse text = Return out /\
    confidence out = parsed_confidence p /\
    ((exists before cat after,
         CATEGORIES = (before ++ cat :: after)%list /\
         Forall (fun c => ~ spec_matches c (JS.trim raw)) before /\
         spec_matches cat (JS.trim raw) /\
         category out = name cat /\
         reasoning out = parsed_reasoning p)
     \/
     (Forall (fun c => ~ spec_matches c (JS.trim raw)) CATEGORIES /\
      category out = "Other Tools" /\
      reasoning out = "Original: " ++ JS.trim raw ++ ". Fallback to Other Tools.")).
Proof.
  intros Hm Hp Hc Ht.
  exists (GeminiService.normalizeCategory p raw).
  split; [now apply parseResponse_valid with json|].
  unfold GeminiService.normalizeCategory.
  pose proof (find_first (GeminiService.matchesCategory (JS.trim raw)) CATEGORIES) as Hf.
  destruct (List.find (GeminiService.matchesCategory (JS.trim raw)) CATEGORIES) as [cat|].
  - destruct Hf as (before & after & Heq & Hb & Hx).
    split; [reflexivity|]. left. exists before, cat, after.
    repeat split; try assumption.
    + now apply no_match_iff.
    + now apply matchesCategory_spec.
  - split; [reflexivity|]. right. repeat split. now apply no_match_iff.
Qed.

Lemma normalization_first_match_or_fallback_witness :
  exists out,
    @GeminiService.parseResponse flatRuntime
      (Sample.answer "Quantum Cryptography" "80" "lattices") = Return out /\
    category out = "Other Tools" /\
    reasoning out = "Original: Quantum Cryptography. Fallback to Other Tools.".
Proof.
  destruct (@normalization_first_match_or_fallback flatRuntime
              (Sample.answer "Quantum Cryptography" "80" "lattices")
              (Sample.answer "Quantum Cryptography" "80" "lattices")
              {| parsed_category := JS.Str "Quantum Cryptography";
                 parsed_confidence := 80;
                 parsed_reasoning := "lattices" |}
              "Quantum Cryptography")
    as (out & Hout & _ & _); try reflexivity.
  - vm_compute. discriminate.
  - exists out. split; [exact Hout|].
    vm_compute in Hout. injection Hout as <-. split; reflexivity.
Defined.

(** C4, as stated, fails: the note is not appended to the reasoning the
    classifier gave, it takes its place. *)
Lemma fallback_note_replaces_reasoning :
  ~ (forall (p : ParsedCategorization) (raw : string),
        List.find (GeminiService.matchesCategory (JS.trim raw)) CATEGORIES = None ->
        exists note,
          reasoning (GeminiService.normalizeCategory p raw) = parsed_reasoning p ++ note).
Proof.
  intros H.
  destruct (H {| parsed_category := JS.Str "Quantum Cryptography";
                 parsed_confidence := 80;
                 parsed_reasoning := "lattices" |} "Quantum Cryptography")
    as [note Hnote]; [reflexivity|].
  vm_compute in Hnote. discriminate.
Qed.

End Normalization.

(* ===================================================================== *)
(** * Extraction of the JSON object and the retryable failures            *)
(* ===================================================================== *)

Section Extraction.

Import GeminiService.

Lemma hasBraces_cons (c : ascii) (rest : string) :
  hasBraces (String c rest) ->
  (c = "{"%char /\ In "}"%char (chars rest)) \/ hasBraces rest.
Proof.
  intros (pre & mid & post & H). destruct pre as [|d pre]; simpl in H.
  - injection H as -> ->. left. split; [reflexivity|].
    unfold chars. rewrite chars_append. apply in_or_app. right. now left.
  - injection H as -> ->. right. now exists pre, mid, post.
Qed.

Lemma hasBraces_skip (c : ascii) (rest : string) :
  hasBraces rest -> hasBraces (String c rest).
Proof. intros (pre & mid & post & ->). now exists (String c pre), mid, post. Qed.

Lemma hasBraces_open (rest : string) :
  In "}"%char (chars rest) -> hasBraces (String "{" rest).
Proof.
  intros Hin. exists EmptyString. simpl.
  induction rest as [|d rest IH]; simpl in Hin; [contradiction|].
  destruct Hin as [->|Hin].
  - now exists EmptyString, rest.
  - destruct (IH Hin) as (mid & post & Heq). injection Heq as ->.
    now exists (String d mid), post.
Qed.

Lemma throughLastClose_some (s m : string) :
  throughLastClose s = Some m ->
  exists mid post, s = mid ++ "}" ++ post /\ m = mid ++ "}"
                   /\ ~ In "}"%char (chars post).
Proof.
  revert m; induction s as [|c s IH]; intros m; simpl; [discriminate|].
  destruct (throughLastClose s) as [m'|] eqn:Hs.
  - intros [= <-]. destruct (IH m' eq_refl) as (mid & post & -> & -> & Hpost).
    now exists (String c mid), post.
  - destruct (Ascii.eqb c "}") eqn:Hc; [|discriminate].
    apply Ascii.eqb_eq in Hc as ->. intros [= <-].
    exists EmptyString, s. repeat split.
    clear IH. induction s as [|d s IHs]; simpl in *; [tauto|].
    destruct (throughLastClose s); [discriminate|].
    destruct (Ascii.eqb d "}") eqn:Hd; [discriminate|].
    apply Ascii.eqb_neq in Hd. intros [H|H]; [congruence | now apply IHs].
Qed.

Lemma throughLastClose_none (s : string) :
  throughLastClose s = None -> ~ In "}"%char (chars s).
Proof.
  induction s as [|c s IH]; simpl; [tauto|].
  destruct (throughLastClose s); [discriminate|].
  destruct (Ascii.eqb c "}") eqn:Hc; [discriminate|].
  apply Ascii.eqb_neq in Hc. intros _ [H|H]; [congruence | now apply IH].
Qed.

Lemma fromFirstOpen_some (s t : string) :
  fromFirstOpen s = Some t ->
  exists pre rest, s = pre ++ t /\ t = String "{" rest /\ ~ In "{"%char (chars pre).
Proof.
  revert t; induction s as [|c s IH]; intros t; simpl; [discriminate|].
  destruct (Ascii.eqb c "{") eqn:Hc.
  - apply Ascii.eqb_eq in Hc as ->. intros [= <-].
    exists EmptyString, s. repeat split. simpl. tauto.
  - apply Ascii.eqb_neq in Hc. intros Ht.
    destruct (IH t Ht) as (pre & rest & -> & -> & Hpre).
    exists (String c pre), rest. repeat split.
    simpl. intros [H|H]; [congruence | contradiction].
Qed.

(** What the regular expression matches: the text between the first
    opening brace and the last closing brace behind it. *)
Lemma jsonMatch_some (text json : string) :
  jsonMatch text = Some json ->
  exists pre mid post,
    text = pre ++ "{" ++ mid ++ "}" ++ post /\
    json = "{" ++ mid ++ "}" /\
    ~ In "{"%char (chars pre) /\ ~ In "}"%char (chars post).
Proof.
  unfold jsonMatch. destruct (fromFirstOpen text) as [t|] eqn:Ht; [|discriminate].
  destruct (fromFirstOpen_some _ _ Ht) as (pre & rest & -> & -> & Hpre).
  destruct (throughLastClose rest) as [m|] eqn:Hm; [|discriminate].
  intros [= <-].
  destruct (throughLastClose_some _ _ Hm) as (mid & post & -> & -> & Hpost).
  now exists pre, mid, post.
Qed.

Lemma jsonMatch_none (text : string) :
  jsonMatch text = None <-> ~ hasBraces text.
Proof.
  split.
  - intros Hnone Hb. induction text as [|c text IH].
    + destruct Hb as (pre & mid & post & H). destruct pre; discriminate.
    + unfold jsonMatch in Hnone, IH. simpl in Hnone.
      destruct (Ascii.eqb c "{") eqn:Hc.
      * apply Ascii.eqb_eq in Hc as ->.
        destruct (throughLastClose text) eqn:Hl; [discriminate|].
        apply throughLastClose_none in Hl.
        apply hasBraces_cons in Hb as [[_ Hin]|Hb]; [contradiction|].
        destruct Hb as (pre & mid & post & ->). apply Hl.
        unfold chars. rewrite !chars_append. simpl.
        apply in_or_app. right. right. apply in_or_app. right. now left.
      * apply Ascii.eqb_neq in Hc.
        apply hasBraces_cons in Hb as [[-> _]|Hb]; [congruence|]. now apply IH.
  - intros Hb. destruct (jsonMatch text) as [json|] eqn:Hj; [|reflexivity].
    exfalso. apply Hb.
    destruct (jsonMatch_some _ _ Hj) as (pre & mid & post & -> & _).
    now exists pre, mid, post.
Qed.

Lemma closeAt_some (depth : nat) (s m : string) :
  closeAt depth s = Some m -> exists mid post, s = mid ++ "}" ++ post.
Proof.
  revert depth m; induction s as [|c s IH]; intros depth m; simpl; [discriminate|].
  destruct (Ascii.eqb c "{").
  - destruct (closeAt (S depth) s) as [m'|] eqn:Hs; [|discriminate]. intros _.
    destruct (IH _ _ Hs) as (mid & post & ->). now exists (String c mid), post.
  - destruct (Ascii.eqb c "}") eqn:Hc.
    + apply Ascii.eqb_eq in Hc as ->. intros _. now exists EmptyString, s.
    + destruct (closeAt depth s) as [m'|] eqn:Hs; [|discriminate]. intros _.
      destruct (IH _ _ Hs) as (mid & post & ->). now exists (String c mid), post.
Qed.

Lemma closeAt_none (s : string) :
  closeAt 0 s = None -> In "}"%char (chars s) -> hasBraces s.
Proof.
  induction s as [|c s IH]; simpl; [tauto|].
  destruct (Ascii.eqb c "{") eqn:Ho.
  - apply Ascii.eqb_eq in Ho as ->. intros _ [H|H]; [discriminate|].
    now apply hasBraces_open.
  - destruct (Ascii.eqb c "}") eqn:Hc; [discriminate|].
    apply Ascii.eqb_neq in Hc.
    destruct (closeAt 0 s); [discriminate|].
    intros _ [H|H]; [congruence|]. apply hasBraces_skip. now apply IH.
Qed.

(** A balanced object substring exists exactly when the regular
    expression matches. *)
Lemma spec_firstBalanced_none (text : string) :
  spec_firstBalanced text = None <-> ~ hasBraces text.
Proof.
  split.
  - intros Hnone Hb. induction text as [|c text IH].
    + destruct Hb as (pre & mid & post & H). destruct pre; discriminate.
    + simpl in Hnone. destruct (Ascii.eqb c "{") eqn:Hc.
      * destruct (closeAt 0 text) eqn:Hl; [discriminate|].
        apply hasBraces_cons in Hb as [[_ Hin]|Hb]; apply IH; try assumption.
        now apply closeAt_none.
      * apply Ascii.eqb_neq in Hc.
        apply hasBraces_cons in Hb as [[-> _]|Hb]; [congruence|]. now apply IH.
  - intros Hb. induction text as [|c text IH]; [reflexivity|]. simpl.
    assert (Hrest : spec_firstBalanced text = None)
      by (apply IH; intros H; apply Hb; now apply hasBraces_skip).
    destruct (Ascii.eqb c "{") eqn:Hc; [|exact Hrest].
    apply Ascii.eqb_eq in Hc as ->.
    destruct (closeAt 0 text) as [m|] eqn:Hl; [|exact Hrest].
    exfalso. apply Hb. destruct (closeAt_some _ _ _ Hl) as (mid & post & ->).
    now exists EmptyString, mid, post.
Qed.

(** C7, as amended: the substring extracted runs from the first opening
    brace to the last closing brace of the text, which is there exactly
    when the text holds a balanced object substring; without it
    [parseResponse] fails with an error flagged retryable, and so it does
    when the [category] of the parsed object is missing, not a string, or
    blank after trimming. *)
Theorem parseResponse_extraction_and_retryable_failures {R : Runtime} (text : string) :
  (forall json, jsonMatch text = Some json ->
     exists pre mid post,
       text = pre ++ "{" ++ mid ++ "}" ++ post /\
       json = "{" ++ mid ++ "}" /\
       ~ In "{"%char (chars pre) /\ ~ In "}"%char (chars post))
  /\ (jsonMatch text = None <-> spec_firstBalanced text = None)
  /\ (spec_firstBalanced text = None ->
      exists e, parseResponse text = Throw e /\ isRetryableError e = true)
  /\ (forall json p,
        jsonMatch text = Some json ->
        JSON_parse json = inl p ->
        (forall s, parsed_category p = JS.Str s -> JS.trim s = EmptyString) ->
        exists e, parseResponse text = Throw e /\ isRetryableError e = true).
Proof.
  assert (Hagree : jsonMatch text = None <-> spec_firstBalanced text = None)
    by (rewrite jsonMatch_none, spec_firstBalanced_none; tauto).
  split; [apply jsonMatch_some|]. split; [exact Hagree|]. split.
  - intros Hnone. apply Hagree in Hnone.
    exists (GeminiAPIError "No JSON found in response" None true NoCause).
    unfold parseResponse. now rewrite Hnone.
  - intros json p Hm Hp Hcat.
    exists (GeminiAPIError "Empty or invalid category in response" (Some 503%Z) true NoCause).
    split; [|reflexivity].
    unfold parseResponse. rewrite Hm, Hp.
    destruct (invalidCategory (parsed_category p)) eqn:Hv; [reflexivity|].
    apply invalidCategory_false in Hv as (s & Hs & Hne).
    exfalso. apply Hne. now apply Hcat.
Qed.

Lemma parseResponse_extraction_and_retryable_failures_witness :
  (exists e, @parseResponse flatRuntime "I cannot classify this }{" = Throw e
             /\ isRetryableError e = true)
  /\ (exists e, @parseResponse flatRuntime (Sample.answer "   " "80" "blank") = Throw e
                /\ isRetryableError e = true).
Proof.
  split.
  - destruct (@parseResponse_extraction_and_retryable_failures flatRuntime
                "I cannot classify this }{") as (_ & _ & Hnone & _).
    apply Hnone. reflexivity.
  - destruct (@parseResponse_extraction_and_retryable_failures flatRuntime
                (Sample.answer "   " "80" "blank")) as (_ & _ & _ & Hblank).
    apply (Hblank (Sample.answer "   " "80" "blank")
             {| parsed_category := JS.Str "   ";
                parsed_confidence := 80;
                parsed_reasoning := "blank" |}); try reflexivity.
    intros s [= <-]. reflexivity.
Defined.

(** C7, as stated, fails: behind an answer that is followed by more
    braces, the substring extracted is not the first balanced object. *)
Lemma extraction_is_not_first_balanced :
  ~ (forall text : string, jsonMatch text = spec_firstBalanced text).
Proof.
  intros H.
  specialize (H (Sample.answer "AI & LLM" "90" "x" ++ " fits {best}")).
  vm_compute in H. discriminate.
Qed.

End Extraction.

(* ===================================================================== *)
(** * The cache key                                                       *)
(* ===================================================================== *)

Section CacheKey.

Import CacheService.

Lemma forallb_ascii (P : ascii -> bool) :
  forallb P (List.map ascii_of_nat (seq 0 256)) = true -> forall c, P c = true.
Proof.
  intros H c. rewrite forallb_forall in H. apply H.
  rewrite <- (ascii_nat_embedding c). apply in_map, in_seq.
  pose proof (nat_ascii_bounded c). lia.
Qed.

Lemma unsafeToUnderscore_keyChars (c : ascii) :
  forallb keyChar (chars (unsafeToUnderscore c)) = true.
Proof. revert c. apply forallb_ascii. vm_compute. reflexivity. Qed.

Lemma slugChar_ascii (c : ascii) :
  isASCII c = true ->
  JS.replaceEach unsafeToUnderscore (slashToHyphen c) = String (slugChar c) EmptyString.
Proof.
  intros Hc.
  assert (H : implb (isASCII c)
      (JS.replaceEach unsafeToUnderscore (slashToHyphen c) =? String (slugChar c) EmptyString)
      = true)
    by (clear; revert c; apply forallb_ascii; vm_compute; reflexivity).
  rewrite Hc in H. simpl in H. now apply String.eqb_eq in H.
Qed.

Lemma replaceEach_append (f : ascii -> string) (a b : string) :
  JS.replaceEach f (a ++ b) = JS.replaceEach f a ++ JS.replaceEach f b.
Proof.
  induction a as [|c a IH]; simpl; [reflexivity|].
  now rewrite IH, append_assoc.
Qed.

Lemma slugify_cons (c : ascii) (rest : string) :
  slugify (String c rest) =
  JS.replaceEach unsafeToUnderscore (slashToHyphen c) ++ slugify rest.
Proof. unfold slugify. simpl. now rewrite replaceEach_append. Qed.

Lemma slugify_keyChars (name : string) :
  forallb keyChar (chars (slugify name)) = true.
Proof.
  unfold slugify.
  generalize (JS.replaceEach slashToHyphen name) as s.
  induction s as [|c s IH]; simpl; [reflexivity|].
  unfold chars in *. rewrite chars_append, forallb_app, IH.
  now rewrite unsafeToUnderscore_keyChars.
Qed.

Lemma slugify_ascii (name : string) :
  forallb isASCII (chars name) = true -> slugify name = mapChars slugChar name.
Proof.
  induction name as [|c name IH]; [reflexivity|].
  simpl. rewrite andb_true_iff. intros [Hc Hrest].
  rewrite slugify_cons, slugChar_ascii by assumption. simpl. now rewrite IH.
Qed.

Lemma slugChar_keeps (c : ascii) :
  isAlphanumeric c = true -> slugChar c = c.
Proof.
  intros Hc.
  assert (H : implb (isAlphanumeric c) (Ascii.eqb (slugChar c) c) = true)
    by (clear; revert c; apply forallb_ascii; vm_compute; reflexivity).
  rewrite Hc in H. now apply Ascii.eqb_eq in H.
Qed.

Lemma slugChar_injective (c d : ascii) :
  isAlphanumeric c || Ascii.eqb c "/" = true ->
  isAlphanumeric d || Ascii.eqb d "/" = true ->
  slugChar c = slugChar d -> c = d.
Proof.
  intros Hc Hd Heq.
  assert (H : forall c,
    forallb (fun d =>
      implb ((isAlphanumeric c || Ascii.eqb c "/") && (isAlphanumeric d || Ascii.eqb d "/")
             && Ascii.eqb (slugChar c) (slugChar d))
            (Ascii.eqb c d)) (List.map ascii_of_nat (seq 0 256)) = true)
    by (apply forallb_ascii; vm_compute; reflexivity).
  pose proof (forallb_ascii _ (H c) d) as Hcd.
  rewrite Hc, Hd, Heq, Ascii.eqb_refl in Hcd. now apply Ascii.eqb_eq in Hcd.
Qed.

(** C8, as amended: the key holds alphanumerics, hyphens and underscores
    only; on an ASCII identity the key is the identity with each slash
    turned into a hyphen and each other character that is neither
    alphanumeric nor a hyphen into an underscore, so letters keep their
    case; the mapping is a function of the identity; it is injective on
    identities made of alphanumerics and slashes, not in general. *)
Theorem slugify_key_properties (name : string) :
  forallb keyChar (chars (slugify name)) = true
  /\ (forallb isASCII (chars name) = true -> slugify name = mapChars slugChar name)
  /\ (forall c, isAlphanumeric c = true -> slugChar c = c)
  /\ (forall other,
        forallb (fun c => isAlphanumeric c || Ascii.eqb c "/") (chars name) = true ->
        forallb (fun c => isAlphanumeric c || Ascii.eqb c "/") (chars other) = true ->
        slugify name = slugify other -> name = other).
Proof.
  split; [apply slugify_keyChars|]. split; [apply slugify_ascii|].
  split; [apply slugChar_keeps|].
  assert (Hascii : forall s,
    forallb (fun c => isAlphanumeric c || Ascii.eqb c "/") (chars s) = true ->
    forallb isASCII (chars s) = true).
  { intros s Hs. rewrite forallb_forall in *. intros c Hc. specialize (Hs c Hc).
    assert (H : implb (isAlphanumeric c || Ascii.eqb c "/") (isASCII c) = true)
      by (clear; revert c; apply forallb_ascii; vm_compute; reflexivity).
    now rewrite Hs in H. }
  intros other Hn Ho. rewrite (slugify_ascii name), (slugify_ascii other) by auto.
  clear Hascii. revert other Ho.
  induction name as [|c name IH]; intros [|d other] Ho; simpl; try discriminate;
    [reflexivity|].
  simpl in Hn, Ho. apply andb_true_iff in Hn as [Hc Hn], Ho as [Hd Ho].
  intros [= Hcd Hrest]. f_equal; [now apply slugChar_injective | now apply IH].
Qed.

Lemma slugify_key_properties_witness :
  slugify "Facebook/React" = "Facebook-React"
  /\ (slugify "Facebook/React" = slugify "Facebook/React" -> "Facebook/React" = "Facebook/React").
Proof.
  destruct (slugify_key_properties "Facebook/React") as (_ & Hmap & _ & Hinj).
  split.
  - rewrite Hmap; reflexivity.
  - apply Hinj; reflexivity.
Defined.

(** C8, as stated, fails: two identities share a key. *)
Lemma slugify_not_injective :
  ~ (forall a b : string, slugify a = slugify b -> a = b).
Proof.
  intros H. specialize (H "vercel/next-js" "vercel-next/js" eq_refl). discriminate.
Qed.

End CacheKey.

(* ===================================================================== *)
(** * The retry wrapper and the classifier                                *)
(* ===================================================================== *)

Section Retry.

Import GeminiService.

Lemma occurrences_app (m : string) (l l' : list Thrown) :
  occurrences m (l ++ l') = occurrences m l + occurrences m l'.
Proof. unfold occurrences. now rewrite List.filter_app, length_app. Qed.

Lemma occurrences_one (m : string) (e : Thrown) :
  occurrences m [e] = if messageOf e =? m then 1 else 0.
Proof. unfold occurrences. cbn. now destruct (messageOf e =? m). Qed.

Lemma occurrences_in (e : Thrown) (l : list Thrown) :
  In e l -> 1 <= occurrences (messageOf e) l.
Proof.
  induction l as [|x l IH]; intros Hin; [destruct Hin|].
  change (x :: l) with ([x] ++ l)%list. rewrite occurrences_app, occurrences_one.
  destruct Hin as [->|Hin].
  - rewrite String.eqb_refl. lia.
  - specialize (IH Hin). lia.
Qed.

(** The variables of the loop of [mainError] once it has gone through
    [seen]: [counts] has counted the messages; no message was met more
    often than [mainErrorCount] says; and the main error is one of [seen]
    whose message was met that often. *)
Lemma countError_spec (seen : list Thrown) :
  let '(counts, main, mainErrorCount) := fold_left PRetry.countError seen (∅, None, 0) in
  (forall m, default 0 (counts !! m) = occurrences m seen)
  /\ (forall m, occurrences m seen <= mainErrorCount)
  /\ match main with
     | None => seen = [] /\ mainErrorCount = 0
     | Some e => In e seen /\ mainErrorCount = occurrences (messageOf e) seen
     end.
Proof.
  induction seen as [|error seen IH] using rev_ind.
  - cbn. split; [intros m; now rewrite lookup_empty|]. split; [intros m; lia | now split].
  - rewrite fold_left_app. cbn [fold_left].
    destruct (fold_left PRetry.countError seen (∅, None, 0)) as [[counts main] mc].
    destruct IH as (Hcounts & Hmax & Hmain).
    unfold PRetry.countError. rewrite Hcounts.
    assert (Hnew : forall m,
              default 0 (<[messageOf error := S (occurrences (messageOf error) seen)]> counts
                         !! m)
              = occurrences m (seen ++ [error])).
    { intros m. rewrite occurrences_app, occurrences_one.
      destruct (String.eqb_spec (messageOf error) m) as [<-|Hne].
      - rewrite lookup_insert_eq. cbn. lia.
      - rewrite lookup_insert_ne by assumption. rewrite Hcounts. lia. }
    destruct (Nat.leb_spec mc (S (occurrences (messageOf error) seen))) as [Hle|Hgt].
    + split; [exact Hnew|]. split.
      * intros m. rewrite occurrences_app, occurrences_one.
        destruct (String.eqb_spec (messageOf error) m) as [<-|Hne]; [lia|].
        specialize (Hmax m). lia.
      * split; [apply in_or_app; right; now left|].
        rewrite occurrences_app, occurrences_one, String.eqb_refl. lia.
    + split; [exact Hnew|]. split.
      * intros m. rewrite occurrences_app, occurrences_one.
        destruct (String.eqb_spec (messageOf error) m) as [<-|Hne]; [lia|].
        specialize (Hmax m). lia.
      * destruct main as [e|]; [|lia].
        destruct Hmain as [Hin Hmc]. split; [apply in_or_app; now left|].
        rewrite occurrences_app, occurrences_one.
        destruct (String.eqb_spec (messageOf error) (messageOf e)) as [Heq|Hne]; [|lia].
        rewrite Heq in Hgt. lia.
Qed.

(** The main error is one of the errors, and no message is more frequent
    among them than its message. *)
Lemma mainError_spec (errors : list Thrown) :
  match PRetry.mainError errors with
  | None => errors = []
  | Some e =>
      In e errors
      /\ forall m, occurrences m errors <= occurrences (messageOf e) errors
  end.
Proof.
  unfold PRetry.mainError. pose proof (countError_spec errors) as H.
  destruct (fold_left PRetry.countError errors (∅, None, 0)) as [[counts main] mc].
  destruct H as (_ & Hmax & Hmain). cbn. destruct main as [e|].
  - destruct Hmain as [Hin Hmc]. split; [exact Hin|]. intros m. rewrite <- Hmc. apply Hmax.
  - apply Hmain.
Qed.

(** It is the last error when no message is more frequent than the last
    error's. *)
Lemma mainError_last (errors : list Thrown) (e : Thrown) :
  (forall m, occurrences m (errors ++ [e]) <= occurrences (messageOf e) (errors ++ [e])) ->
  PRetry.mainError (errors ++ [e]) = Some e.
Proof.
  intros Hmost. unfold PRetry.mainError. rewrite fold_left_app. cbn [fold_left].
  pose proof (countError_spec errors) as H.
  destruct (fold_left PRetry.countError errors (∅, None, 0)) as [[counts main] mc].
  destruct H as (Hcounts & _ & Hmain).
  unfold PRetry.countError. rewrite Hcounts.
  destruct (Nat.leb_spec mc (S (occurrences (messageOf e) errors))) as [Hle|Hgt];
    [reflexivity|].
  exfalso. destruct main as [x|]; [|lia].
  destruct Hmain as [_ Hmc]. specialize (Hmost (messageOf x)).
  rewrite !occurrences_app, !occurrences_one, String.eqb_refl in Hmost.
  destruct (messageOf e =? messageOf x); lia.
Qed.

Lemma mainError_repeat (e : Thrown) (n : nat) :
  PRetry.mainError (repeat e (S n)) = Some e.
Proof.
  pose proof (mainError_spec (repeat e (S n))) as H.
  destruct (PRetry.mainError (repeat e (S n))) as [x|]; [|discriminate].
  destruct H as [Hin _]. apply repeat_spec in Hin. now subst.
Qed.

Lemma attemptErrors_throw {A : Type} (input : nat -> Completion A) (k n : nat) (e : Thrown) :
  input k = Throw e ->
  attemptErrors input k (S n) = e :: attemptErrors input (S k) n.
Proof. intros H. unfold attemptErrors. cbn [seq]. unfold omap. cbn. now rewrite H. Qed.

(** How [pRetry] settles.  It runs the attempts from [k] on, one more than
    [retries] at most, up to the first that resolves or fails with an
    error on which [onFailed] throws; it resolves with the answer of the
    attempt that resolved, rejects with what [onFailed] threw, and rejects
    with the main error of [errors] and the errors of all its attempts
    when the retries are used up. *)
Lemma pRetry_settles {A : Type} (input : nat -> Completion A)
    (onFailed : Thrown -> Completion unit) (retries k : nat) (errors : list Thrown) :
  let outcome := PRetry.pRetry input onFailed retries k errors in
  let n := snd outcome in
  k <= n <= k + retries
  /\ (forall m, k <= m < n -> exists e, input m = Throw e /\ onFailed e = Return tt)
  /\ match input n with
     | Return a => fst outcome = Return a
     | Throw last =>
         match onFailed last with
         | Throw thrown => fst outcome = Throw thrown
         | Return _ =>
             n = k + retries
             /\ fst outcome
                = Throw (default last
                           (PRetry.mainError (errors ++ attemptErrors input k (S retries))))
         end
     end.
Proof.
  revert k errors; induction retries as [|r IH]; intros k errors; cbn zeta.
  - cbn [PRetry.pRetry]. destruct (input k) as [a|e] eqn:Hk.
    + cbn [snd fst]. rewrite Hk. split; [lia|]. split; [intros m Hm; lia | reflexivity].
    + destruct (onFailed e) as [[]|thrown] eqn:Hon; cbn [snd fst]; rewrite Hk, Hon.
      * split; [lia|]. split; [intros m Hm; lia|]. split; [lia|].
        now rewrite (attemptErrors_throw input k 0 e Hk).
      * split; [lia|]. split; [intros m Hm; lia | reflexivity].
  - cbn [PRetry.pRetry]. destruct (input k) as [a|e] eqn:Hk.
    + cbn [snd fst]. rewrite Hk. split; [lia|]. split; [intros m Hm; lia | reflexivity].
    + destruct (onFailed e) as [[]|thrown] eqn:Hon.
      * specialize (IH (S k) (errors ++ [e])%list). cbn zeta in IH.
        destruct IH as (Hn & Hbefore & Hlast).
        split; [lia|]. split.
        -- intros m Hm. destruct (decide (m = k)) as [->|Hne]; [eauto|].
           apply Hbefore. lia.
        -- destruct (input (snd (PRetry.pRetry input onFailed r (S k) (errors ++ [e]))))
             as [a|last]; [exact Hlast|].
           destruct (onFailed last) as [[]|thrown]; [|exact Hlast].
           destruct Hlast as [Hn' Hout]. split; [lia|].
           rewrite Hout, (attemptErrors_throw input k (S r) e Hk).
           now rewrite <- app_assoc.
      * cbn [snd fst]. rewrite Hk, Hon.
        split; [lia|]. split; [intros m Hm; lia | reflexivity].
Qed.


Lemma attemptErrors_all {A : Type} (input : nat -> Completion A) (e : Thrown) (k n : nat) :
  (forall m, input m = Throw e) -> attemptErrors input k n = repeat e n.
Proof.
  intros Hall. revert k; induction n as [|n IH]; intros k; [reflexivity|].
  rewrite (attemptErrors_throw input k n e (Hall k)), IH. reflexivity.
Qed.

(** When every attempt fails with the same error and [onFailed] lets it
    pass, [pRetry] rejects with it once the retries are used up. *)
Lemma pRetry_always_failing {A : Type} (input : nat -> Completion A)
    (onFailed : Thrown -> Completion unit) (e : Thrown) (retries k : nat) :
  (forall n, input n = Throw e) ->
  onFailed e = Return tt ->
  PRetry.pRetry input onFailed retries k [] = (Throw e, k + retries).
Proof.
  intros Hin Hon. pose proof (pRetry_settles input onFailed retries k []) as Hs.
  cbn zeta in Hs. destruct Hs as (_ & _ & Hlast).
  rewrite Hin, Hon in Hlast. destruct Hlast as [Hn Hout].
  destruct (PRetry.pRetry input onFailed retries k []) as [outcome n].
  cbn [fst snd] in *. subst n. f_equal. rewrite Hout, app_nil_l.
  rewrite (attemptErrors_all input e _ _ Hin), mainError_repeat. reflexivity.
Qed.

Lemma onFailedAttempt_rethrows (x y : Thrown) :
  onFailedAttempt x = Throw y -> y = x.
Proof.
  unfold onFailedAttempt.
  destruct (JS.includes (messageOf x) "GeminiAPIError" && negb (isRetryableError x));
    [now intros [= <-] | discriminate].
Qed.

Lemma other_tools_in_taxonomy : In "Other Tools" CATEGORY_NAMES.
Proof.
  assert (H : existsb (String.eqb "Other Tools") CATEGORY_NAMES = true) by reflexivity.
  apply existsb_exists in H as (x & Hin & Hx).
  apply String.eqb_eq in Hx as <-. exact Hin.
Qed.


Lemma normalizeCategory_in_taxonomy (p : ParsedCategorization) (raw : string) :
  In (category (normalizeCategory p raw)) CATEGORY_NAMES.
Proof.
  unfold normalizeCategory.
  destruct (List.find (matchesCategory (JS.trim raw)) CATEGORIES) as [cat|] eqn:Hf;
    cbn [category].
  - apply find_some in Hf as [Hin _]. exact (in_map name _ _ Hin).
  - apply other_tools_in_taxonomy.
Qed.




(** The number of requests of one call stays within the retry budget. *)
Lemma categorize_attempts {R : Runtime} (cfg : EnvConfig) (replies : nat -> EndpointReply) :
  1 <= snd (categorize cfg replies) <= S (Pos.to_nat (RETRY_MAX_ATTEMPTS cfg)).
Proof.
  unfold categorize.
  pose proof (pRetry_settles (fun n => attempt (replies n)) onFailedAttempt
                (Pos.to_nat (RETRY_MAX_ATTEMPTS cfg)) 1 []) as Hs.
  cbn zeta in Hs. destruct Hs as (Hn & _). lia.
Qed.

(** C2 on the code: an endpoint that answers every request with an HTTP
    400, which [isRetryableError] does not flag, is asked once and then
    once more for every configured retry, twice at least, and the error
    wrapped around the last answer is what [categorize] throws; when only
    the first request is answered so, the second one is sent and
    [categorize] resolves. *)
Theorem categorize_retries_non_retryable_error {R : Runtime} (cfg : EnvConfig) :
  isRetryableError (Foreign Sample.invalidRequest) = false
  /\ categorize cfg (fun _ => Failed Sample.invalidRequest)
     = (Throw (GeminiAPIError "Gemini API error: invalid request" (Some 400%Z) false
                 (CausedBy (Foreign Sample.invalidRequest))),
        S (Pos.to_nat (RETRY_MAX_ATTEMPTS cfg)))
  /\ 2 <= S (Pos.to_nat (RETRY_MAX_ATTEMPTS cfg))
  /\ @categorize flatRuntime defaultConfig
       (fun n => if (n =? 1)%nat then Failed Sample.invalidRequest else Sample.frontend)
     = (Return {| resp_categorization :=
                    {| category := "Frontend Frameworks"; confidence := 95;
                       reasoning := "x" |};
                  groundingChunks := 0;
                  tokensUsed := 100 |},
        2).
Proof.
  split; [reflexivity|]. split; [|split; [lia | reflexivity]].
  unfold categorize. now rewrite pRetry_always_failing with
    (e := GeminiAPIError "Gemini API error: invalid request" (Some 400%Z) false
            (CausedBy (Foreign Sample.invalidRequest))).
Qed.

End Retry.

(* ===================================================================== *)
(** * The pipeline: steps, schedules and termination                      *)
(* ===================================================================== *)

Section PipelineSteps.

Import AnalyzerService.

Context {R : Runtime} (cfg : EnvConfig) (w : World) (skipCache : bool).

Lemma step_moves (st : Pipeline) (i : nat) :
  Move cfg w skipCache st i (step cfg w skipCache st i).
Proof.
  unfold step. destruct (tasks st !! i) as [task|] eqn:Ht; [|now apply MoveAbsent].
  destruct (phase task) as [|startTime|startTime result tokens|result|result] eqn:Hp.
  - destruct (canStart cfg st i) eqn:Hcan; [|now apply MoveWaiting with task].
    destruct (if skipCache then None
              else CacheService.getAnalysis (disk st) (full_name (item task)))
      as [[found|categorization]|] eqn:Hl.
    + destruct (bool_dec skipCache true) as [Hs|Hs];
        [rewrite Hs in Hl; discriminate|].
      apply not_true_is_false in Hs. rewrite Hs in Hl.
      now apply MoveHit.
    + destruct (bool_dec skipCache true) as [Hs|Hs];
        [rewrite Hs in Hl; discriminate|].
      apply not_true_is_false in Hs. rewrite Hs in Hl.
      now apply MoveBroken.
    + apply MoveMiss; try assumption.
      destruct (bool_dec skipCache true) as [Hs|Hs]; [now left|].
      apply not_true_is_false in Hs. rewrite Hs in Hl. now right.
  - destruct (GeminiService.categorize cfg (endpoint w i)) as [[response|thrown] attempts] eqn:Hc.
    + now apply MoveClassified.
    + now apply MoveRejected with startTime.
  - destruct (CacheService.saveAnalysis (writable w (tick st)) (disk st) result)
      as [disk'|thrown] eqn:Hs.
    + now apply MoveSaved.
    + now apply MoveUnsaved with startTime result tokens.
  - now apply MovePushed.
  - now apply MoveSettled with task result.
Qed.

Lemma run_app (s1 s2 : list nat) (st : Pipeline) :
  run cfg w skipCache (s1 ++ s2) st = run cfg w skipCache s2 (run cfg w skipCache s1 st).
Proof. unfold run. apply fold_left_app. Qed.

(** A property that every step keeps holds along every schedule. *)
Lemma run_invariant (P : Pipeline -> Prop) :
  (forall st i st', P st -> Move cfg w skipCache st i st' -> P st') ->
  forall schedule st, P st -> P (run cfg w skipCache schedule st).
Proof.
  intros Hstep schedule. induction schedule as [|i schedule IH]; intros st Hst;
    [exact Hst|].
  simpl. apply IH. eapply Hstep; [exact Hst | apply step_moves].
Qed.

(** A step leaves the pipeline as it is, or rewrites the entry of its
    item, which advances; a function leaves the queue only when the queue
    may call it. *)
Lemma Move_shape (st st' : Pipeline) (i : nat) :
  Move cfg w skipCache st i st' ->
  st' = st
  \/ (exists t t', tasks st !! i = Some t /\ tasks st' = <[i := t']> (tasks st)
                   /\ item t' = item t /\ remaining t' < remaining t
                   /\ (isQueued t = true -> canStart cfg st i = true)).
Proof.
  intros [Hn|t r Ht Hp|t Ht Hp Hcan|t f Ht Hp Hcan _ _|t Ht Hp Hcan _
         |t s resp a Ht Hp _|t s e a Ht Hp _
         |t s r k d Ht Hp _|t s r k e Ht Hp _|t r Ht Hp|t c Ht Hp Hcan _ _].
  1, 2, 3: now left.
  all: right; eexists t, _; split; [exact Ht|]; split; [reflexivity|];
       split; [reflexivity|]; unfold remaining, isQueued; cbn [phase]; rewrite Hp;
       split; [lia | (intros _; assumption) || discriminate].
Qed.

Lemma Move_length (st st' : Pipeline) (i : nat) :
  Move cfg w skipCache st i st' -> length (tasks st') = length (tasks st).
Proof.
  intros H. apply Move_shape in H as [->|(t & t' & _ & -> & _)];
    [reflexivity | apply length_insert].
Qed.

Lemma Move_total (st st' : Pipeline) (i : nat) :
  Move cfg w skipCache st i st' -> Stats.total (stats st') = Stats.total (stats st).
Proof. now intros []. Qed.

(** No step moves an item back. *)
Lemma Move_monotone (st st' : Pipeline) (i j : nat) (t : Task) :
  Move cfg w skipCache st i st' ->
  tasks st !! j = Some t ->
  exists t', tasks st' !! j = Some t' /\ item t' = item t /\ remaining t' <= remaining t.
Proof.
  intros H Hj. apply Move_shape in H as [->|(u & u' & Hu & -> & Hi & Hr & _)].
  - now exists t.
  - destruct (decide (i = j)) as [->|Hne].
    + assert (u = t) as -> by congruence.
      exists u'. split; [|split; [assumption | lia]].
      apply list_lookup_insert_eq. now apply lookup_lt_Some with t.
    + exists t. split; [|split; [reflexivity | lia]].
      now rewrite list_lookup_insert_ne.
Qed.

Lemma remaining_bound (t : Task) : remaining t <= 4.
Proof. unfold remaining. destruct (phase t); lia. Qed.

Lemma remaining_zero (t : Task) :
  remaining t = 0 -> exists r, phase t = Pushed r.
Proof. unfold remaining. destruct (phase t) as [| | | |r]; try discriminate. now exists r. Qed.

Lemma remaining_queued (t : Task) : isQueued t = true <-> remaining t = 4.
Proof. unfold remaining, isQueued. destruct (phase t); split; (discriminate || reflexivity). Qed.

Lemma remaining_running (t : Task) : remaining t <= 1 -> isRunning t = false.
Proof. unfold remaining, isRunning. destruct (phase t); (reflexivity || lia). Qed.

(** A step of a function the queue may call, or has called, advances it. *)
Lemma Move_advances (st st' : Pipeline) (i : nat) (t : Task) :
  Move cfg w skipCache st i st' ->
  tasks st !! i = Some t ->
  (isQueued t = true -> canStart cfg st i = true) ->
  exists t', tasks st' !! i = Some t' /\ remaining t' <= pred (remaining t)
             /\ isQueued t' = false.
Proof.
  intros Hm Hi Hcan.
  assert (Hnew : forall u u',
            tasks st !! i = Some u -> remaining u' < remaining u ->
            exists t', <[i := u']> (tasks st) !! i = Some t'
                       /\ remaining t' <= pred (remaining t) /\ isQueued t' = false).
  { intros u u' Hu Hr. assert (u = t) as -> by congruence.
    exists u'. split; [apply list_lookup_insert_eq; now apply lookup_lt_Some with t|].
    split; [lia|]. destruct (isQueued u') eqn:Hq; [|reflexivity].
    apply remaining_queued in Hq. pose proof (remaining_bound t). lia. }
  destruct Hm as [Hn|u r Hu Hp|u Hu Hp Hno|u f Hu Hp _ _ _|u Hu Hp _ _
                 |u s resp a Hu Hp _|u s e a Hu Hp _
                 |u s r k d Hu Hp _|u s r k e Hu Hp _|u r Hu Hp|u c Hu Hp _ _ _].
  - congruence.
  - assert (u = t) as -> by congruence. exists t.
    unfold remaining, isQueued. rewrite Hp. repeat split; [assumption | lia].
  - assert (u = t) as -> by congruence.
    rewrite Hcan in Hno; [discriminate|]. unfold isQueued. now rewrite Hp.
  - apply (Hnew u); [assumption|]. unfold remaining. cbn. rewrite Hp. lia.
  - apply (Hnew u); [assumption|]. unfold remaining. cbn. rewrite Hp. lia.
  - apply (Hnew u); [assumption|]. unfold remaining. cbn. rewrite Hp. lia.
  - apply (Hnew u); [assumption|]. unfold remaining. cbn. rewrite Hp. lia.
  - apply (Hnew u); [assumption|]. unfold remaining. cbn. rewrite Hp. lia.
  - apply (Hnew u); [assumption|]. unfold remaining. cbn. rewrite Hp. lia.
  - apply (Hnew u); [assumption|]. unfold remaining. cbn. rewrite Hp. lia.
  - apply (Hnew u); [assumption|]. unfold remaining. cbn. rewrite Hp. lia.
Qed.

Lemma run_monotone (schedule : list nat) (st : Pipeline) (j : nat) (t : Task) :
  tasks st !! j = Some t ->
  exists t', tasks (run cfg w skipCache schedule st) !! j = Some t'
             /\ item t' = item t /\ remaining t' <= remaining t.
Proof.
  revert st t; induction schedule as [|i schedule IH]; intros st t Hj; simpl.
  - now exists t.
  - destruct (Move_monotone _ _ i j t (step_moves st i) Hj) as (t1 & H1 & Hi1 & Hr1).
    destruct (IH _ _ H1) as (t2 & H2 & Hi2 & Hr2).
    exists t2. split; [assumption|]. split; [congruence | lia].
Qed.

Lemma run_repeat_advances (n i : nat) (st : Pipeline) (t : Task) :
  tasks st !! i = Some t ->
  (isQueued t = true -> canStart cfg st i = true) ->
  exists t', tasks (run cfg w skipCache (repeat i n) st) !! i = Some t'
             /\ remaining t' <= remaining t - n.
Proof.
  revert st t; induction n as [|n IH]; intros st t Hi Hcan; simpl.
  - exists t. split; [assumption | lia].
  - destruct (Move_advances _ _ i t (step_moves st i) Hi Hcan) as (t1 & H1 & Hr1 & Hq1).
    destruct (IH _ _ H1) as (t2 & H2 & Hr2); [congruence|].
    exists t2. split; [assumption | lia].
Qed.

(** The order of the queue is kept. *)
Lemma Fifo_step (st st' : Pipeline) (i : nat) :
  Fifo st -> Move cfg w skipCache st i st' -> Fifo st'.
Proof.
  intros Hf Hm.
  apply Move_shape in Hm as [->|(t & t' & Ht & Hts & _ & Hr & Hcan)]; [exact Hf|].
  assert (Hq' : isQueued t' = false).
  { destruct (isQueued t') eqn:Hq; [|reflexivity].
    apply remaining_queued in Hq. pose proof (remaining_bound t). lia. }
  intros j k tj tk Hjk Hj Hk Hqj. rewrite Hts in Hj, Hk.
  apply list_lookup_insert_Some in Hj as [(_ & -> & _)|[Hij Hj]]; [congruence|].
  apply list_lookup_insert_Some in Hk as [(Hik & -> & _)|[Hik Hk]];
    [|now apply (Hf j k tj tk)].
  subst k. exfalso. destruct (isQueued t) eqn:Hqt.
  - specialize (Hcan eq_refl). unfold canStart in Hcan.
    apply andb_true_iff in Hcan as [_ Hall]. rewrite forallb_forall in Hall.
    assert (Hin : In tj (firstn i (tasks st))).
    { apply list_elem_of_In. apply list_elem_of_lookup. exists j.
      rewrite lookup_take_lt by assumption. exact Hj. }
    specialize (Hall tj Hin). rewrite Hqj in Hall. discriminate.
  - rewrite (Hf j i tj t Hjk Hj Ht Hqj) in Hqt. discriminate.
Qed.

Lemma run_fifo (schedule : list nat) (st : Pipeline) :
  Fifo st -> Fifo (run cfg w skipCache schedule st).
Proof. apply run_invariant. intros s i s'. apply Fifo_step. Qed.

(** The queue may call the first function still queued when no function
    before it is running. *)
Lemma canStart_first (st : Pipeline) (i : nat) (t : Task) :
  Fifo st ->
  tasks st !! i = Some t ->
  isQueued t = true ->
  (forall j tj, j < i -> tasks st !! j = Some tj -> remaining tj = 0) ->
  canStart cfg st i = true.
Proof.
  intros Hf Hi Hq Hbefore. unfold canStart. apply andb_true_iff. split.
  - assert (Hnone : List.filter isRunning (tasks st) = []).
    { destruct (List.filter isRunning (tasks st)) as [|u l] eqn:Hl; [reflexivity|].
      exfalso.
      assert (Hin : In u (List.filter isRunning (tasks st))) by (rewrite Hl; now left).
      apply filter_In in Hin as [Hin Hrun].
      apply list_elem_of_In, list_elem_of_lookup in Hin as [j Hj].
      destruct (Nat.lt_trichotomy j i) as [Hlt|[->|Hgt]].
      - rewrite remaining_running in Hrun; [discriminate|].
        rewrite (Hbefore j u Hlt Hj). lia.
      - assert (u = t) as -> by congruence.
        unfold isQueued, isRunning in *. destruct (phase t); discriminate.
      - pose proof (Hf i j t u Hgt Hi Hj Hq) as Hqu.
        unfold isQueued, isRunning in *. destruct (phase u); discriminate. }
    unfold running. rewrite Hnone. apply Nat.ltb_lt. simpl. lia.
  - apply forallb_forall. intros u Hin.
    apply list_elem_of_In, list_elem_of_lookup in Hin as [j Hj].
    apply lookup_take_Some in Hj as [Hj Hlt].
    destruct (isQueued u) eqn:Hqu; [|reflexivity].
    apply remaining_queued in Hqu. rewrite (Hbefore j u Hlt Hj) in Hqu. discriminate.
Qed.

(** Draining settles every item: the functions before the one drained are
    settled, so the queue calls it if it did not yet. *)
Lemma run_drain_settles (n k : nat) (st : Pipeline) :
  Fifo st ->
  (forall j t, j < k -> tasks st !! j = Some t -> remaining t = 0) ->
  forall j t,
    j < k + n -> tasks st !! j = Some t ->
    exists t',
      tasks (run cfg w skipCache (flat_map (fun i => repeat i 4) (seq k n)) st) !! j
      = Some t'
      /\ item t' = item t /\ remaining t' = 0.
Proof.
  revert k st; induction n as [|n IH]; intros k st Hf Hbefore j t Hlt Hj.
  - exists t. split; [exact Hj|]. split; [reflexivity|].
    apply (Hbefore j); [lia | assumption].
  - cbn [seq flat_map]. rewrite run_app.
    set (st1 := run cfg w skipCache (repeat k 4) st).
    destruct (run_monotone (repeat k 4) st j t Hj) as (t1 & H1 & Hi1 & Hr1).
    fold st1 in H1.
    assert (Hbefore1 : forall j t, j < S k -> tasks st1 !! j = Some t -> remaining t = 0).
    { intros j' u' Hlt' Hj'.
      destruct (decide (j' = k)) as [->|Hne].
      - assert (Hk : is_Some (tasks st !! k)).
        { apply lookup_lt_is_Some.
          assert (Hlen : length (tasks st1) = length (tasks st)).
          { unfold st1. apply (run_invariant (fun s => length (tasks s) = length (tasks st)));
              [|reflexivity].
            intros s i s' Hs Hm. now rewrite (Move_length _ _ _ Hm). }
          rewrite <- Hlen. now apply lookup_lt_Some with u'. }
        destruct Hk as [u Hu].
        destruct (run_repeat_advances 4 k st u Hu) as (u1 & Hu1 & Hr).
        + intros Hq. now apply canStart_first with u.
        + fold st1 in Hu1. assert (u1 = u') as -> by congruence.
          pose proof (remaining_bound u). lia.
      - assert (Hlt'' : j' < k) by lia.
        assert (Hsome : is_Some (tasks st !! j')).
        { apply lookup_lt_is_Some.
          assert (Hlen : length (tasks st1) = length (tasks st)).
          { unfold st1. apply (run_invariant (fun s => length (tasks s) = length (tasks st)));
              [|reflexivity].
            intros s i s' Hs Hm. now rewrite (Move_length _ _ _ Hm). }
          rewrite <- Hlen. now apply lookup_lt_Some with u'. }
        destruct Hsome as [u Hu].
        destruct (run_monotone (repeat k 4) st j' u Hu) as (u1 & Hu1 & _ & Hr).
        fold st1 in Hu1. assert (u1 = u') as -> by congruence.
        rewrite (Hbefore j' u Hlt'' Hu) in Hr. lia. }
    destruct (IH (S k) st1 (run_fifo _ _ Hf) Hbefore1 j t1) as (t2 & H2 & Hi2 & Hr2);
      [lia | assumption |].
    exists t2. split; [assumption|]. split; [congruence | assumption].
Qed.

End PipelineSteps.

(* ===================================================================== *)
(** * Lists of queued functions                                           *)
(* ===================================================================== *)

Section TaskLists.

Context {A B : Type}.

Lemma omap_insert_same (f : A -> option B) (l : list A) (i : nat) (t t' : A) :
  l !! i = Some t -> f t' = f t -> omap f (<[i := t']> l) = omap f l.
Proof.
  revert i; induction l as [|a l IH]; intros [|i] Hi Hf; simpl in *; try discriminate.
  - injection Hi as ->. now rewrite Hf.
  - specialize (IH i Hi Hf). unfold omap in IH. now rewrite IH.
Qed.

Lemma omap_insert_new (f : A -> option B) (l : list A) (i : nat) (t t' : A) (b : B) :
  l !! i = Some t -> f t = None -> f t' = Some b ->
  omap f (<[i := t']> l) ≡ₚ b :: omap f l.
Proof.
  revert i; induction l as [|a l IH]; intros [|i] Hi Hn Hs; simpl in *; try discriminate.
  - injection Hi as ->. now rewrite Hn, Hs.
  - specialize (IH i Hi Hn Hs). unfold omap in IH.
    destruct (f a) as [c|].
    + rewrite IH. apply perm_swap.
    + exact IH.
Qed.

Lemma sum_insert (f : A -> nat) (l : list A) (i : nat) (t t' : A) :
  l !! i = Some t ->
  list_sum (List.map f (<[i := t']> l)) + f t = list_sum (List.map f l) + f t'.
Proof.
  revert i; induction l as [|a l IH]; intros [|i] Hi; simpl in *; try discriminate.
  - injection Hi as ->. lia.
  - specialize (IH i Hi). lia.
Qed.

Lemma omap_cons_some (f : A -> option B) (a : A) (l : list A) (b : B) :
  f a = Some b -> omap f (a :: l) = b :: omap f l.
Proof. intros H. unfold omap. simpl. now rewrite H. Qed.

End TaskLists.

Lemma failures_cons (r : AnalysisResult) (l : list AnalysisResult) :
  failures (r :: l) = (if isFailure r then 1 else 0) + failures l.
Proof. unfold failures. simpl. now destruct (isFailure r). Qed.

Lemma failures_perm (l l' : list AnalysisResult) :
  l ≡ₚ l' -> failures l = failures l'.
Proof.
  induction 1 as [|x l l' _ IH|x y l|l l' l'' _ IH1 _ IH2].
  - reflexivity.
  - rewrite !failures_cons. lia.
  - rewrite !failures_cons. lia.
  - congruence.
Qed.

#[local] Instance failures_proper : Proper ((≡ₚ) ==> (=)) failures.
Proof. intros l l' H. now apply failures_perm. Qed.

(* ===================================================================== *)
(** * What a call of analyzeAll keeps true                                *)
(* ===================================================================== *)

Section PipelineInvariants.

Import AnalyzerService.

Context {R : Runtime} (cfg : EnvConfig) (w : World) (skipCache : bool).

(** The effect of a step on the locals of [analyzeAll]: nothing; an
    advance that reports nothing; a report to [onProgress], made once as
    the function returns; or the push of the returned record. *)
Lemma Move_effect (st st' : Pipeline) (i : nat) :
  Move cfg w skipCache st i st' ->
  st' = st
  \/ (exists t t',
        tasks st !! i = Some t /\ tasks st' = <[i := t']> (tasks st)
        /\ returnedRecord t = None /\ returnedRecord t' = None
        /\ completed st' = completed st /\ emitted st' = emitted st
        /\ results st' = results st)
  \/ (exists t t' r ev,
        tasks st !! i = Some t /\ tasks st' = <[i := t']> (tasks st)
        /\ returnedRecord t = None /\ phase t' = Returned r
        /\ item t' = item t
        /\ completed st < completed st'
        /\ emitted st' = (emitted st ++ [ev])%list
        /\ Progress.current ev = completed st'
        /\ Progress.total ev = Stats.total (stats st)
        /\ Progress.repo ev = full_name (item t)
        /\ results st' = results st)
  \/ (exists t t' r,
        tasks st !! i = Some t /\ tasks st' = <[i := t']> (tasks st)
        /\ phase t = Returned r /\ phase t' = Pushed r
        /\ item t' = item t
        /\ completed st' = completed st /\ emitted st' = emitted st
        /\ results st' = (results st ++ [r])%list).
Proof.
  intros [Hn|t r Ht Hp|t Ht Hp Hwait|t f Ht Hp _ _ _|t Ht Hp _ _|t s resp a Ht Hp _|t s e a Ht Hp _
         |t s r k d Ht Hp _|t s r k e Ht Hp _|t r Ht Hp|t c Ht Hp _ _ _].
  - now left.
  - now left.
  - now left.
  - right; right; left. eexists t, _, _, _. split; [exact Ht|].
    split; [reflexivity|]. unfold returnedRecord. rewrite Hp. cbn.
    repeat split; lia.
  - right; left. eexists t, _. split; [exact Ht|].
    split; [reflexivity|]. unfold returnedRecord. rewrite Hp. cbn. tauto.
  - right; left. eexists t, _. split; [exact Ht|].
    split; [reflexivity|]. unfold returnedRecord. rewrite Hp. cbn. tauto.
  - right; right; left. eexists t, _, _, _. split; [exact Ht|].
    split; [reflexivity|]. unfold returnedRecord. rewrite Hp. cbn.
    repeat split; lia.
  - right; right; left. eexists t, _, _, _. split; [exact Ht|].
    split; [reflexivity|]. unfold returnedRecord. rewrite Hp. cbn.
    repeat split; lia.
  - right; right; left. eexists t, _, _, _. split; [exact Ht|].
    split; [reflexivity|]. unfold returnedRecord. rewrite Hp. cbn.
    repeat split; lia.
  - right; right; right. eexists t, _, r. split; [exact Ht|].
    split; [reflexivity|]. cbn. tauto.
  - right; right; left. eexists t, _, _, _. split; [exact Ht|].
    split; [reflexivity|]. unfold returnedRecord. rewrite Hp. cbn.
    repeat split; lia.
Qed.

Lemma sorted_snoc (l : list nat) (x : nat) :
  StronglySorted lt l -> Forall (fun y => y < x) l -> StronglySorted lt (l ++ [x]).
Proof.
  induction 1 as [|y l Hs IH Hy]; intros Hall; cbn.
  - repeat constructor.
  - apply Forall_cons_1 in Hall as [Hyx Hall]. constructor; [now apply IH|].
    apply Forall_app. split; [exact Hy|]. now constructor.
Qed.

Lemma Reports_step (n : nat) (st st' : Pipeline) (i : nat) :
  Reports n st -> Move cfg w skipCache st i st' -> Reports n st'.
Proof.
  intros (Hc & [Hsorted Hcur] & Htot & Hrep & Hres & Hn) Hm.
  pose proof (Move_total _ _ _ _ _ _ Hm) as Ht'.
  apply Move_effect in Hm
    as [->|[(t & t' & Ht & Hts & Hr & Hr' & Hc' & He' & Hres')
          |[(t & t' & r & ev & Ht & Hts & Hr & Hp' & Hi' & Hc' & He' & Hev1 & Hev2 & Hev3 & Hres')
           |(t & t' & r & Ht & Hts & Hp & Hp' & Hi' & Hc' & He' & Hres')]]].
  - repeat split; assumption.
  - unfold Reports. rewrite Hc', He', Hres', Hts, Ht'.
    assert (Hrt : reported t' = reported t).
    { unfold reported, returnedRecord in *.
      destruct (phase t), (phase t'); congruence. }
    assert (Hpt : pushedRecord t' = pushedRecord t).
    { unfold pushedRecord, returnedRecord in *.
      destruct (phase t), (phase t'); congruence. }
    rewrite (omap_insert_same reported _ _ _ _ Ht Hrt).
    rewrite (omap_insert_same pushedRecord _ _ _ _ Ht Hpt).
    repeat split; assumption.
  - unfold Reports. rewrite He', Hres', Hts, Ht'.
    assert (Hrt : reported t = None).
    { unfold reported, returnedRecord in *. destruct (phase t); congruence. }
    assert (Hrt' : reported t' = Some (full_name (item t))).
    { unfold reported. now rewrite Hp', Hi'. }
    assert (Hpt : pushedRecord t' = pushedRecord t).
    { unfold pushedRecord, returnedRecord in *. rewrite Hp'.
      destruct (phase t); congruence. }
    rewrite (omap_insert_same pushedRecord _ _ _ _ Ht Hpt).
    rewrite (omap_insert_new reported _ _ _ _ _ Ht Hrt Hrt').
    rewrite length_app, !map_app. simpl. rewrite Hev1, Hev3.
    split; [lia|]. split; [split|].
    + apply sorted_snoc; [exact Hsorted|].
      apply Forall_map. eapply Forall_impl; [exact Hcur|]. cbn. intros ev' Hev'. lia.
    + apply Forall_app. split.
      * eapply Forall_impl; [exact Hcur|]. cbn. intros ev' Hev'. lia.
      * constructor; [lia | constructor].
    + repeat split; try assumption.
      * apply Forall_app. split; [assumption|]. constructor; [congruence | constructor].
      * rewrite <- Hrep. symmetry. apply Permutation_cons_append.
  - unfold Reports. rewrite Hc', He', Hres', Hts, Ht'.
    assert (Hrt : reported t' = reported t).
    { unfold reported. now rewrite Hp, Hp', Hi'. }
    assert (Hpt : pushedRecord t = None) by (unfold pushedRecord; now rewrite Hp).
    assert (Hpt' : pushedRecord t' = Some r) by (unfold pushedRecord; now rewrite Hp').
    rewrite (omap_insert_same reported _ _ _ _ Ht Hrt).
    rewrite (omap_insert_new pushedRecord _ _ _ _ _ Ht Hpt Hpt').
    repeat split; try assumption.
    rewrite <- Hres. symmetry. apply Permutation_cons_append.
Qed.

Lemma Reports_start (repos : list GitHubRepo) (st0 : Pipeline) :
  Reports (length repos) (start repos st0).
Proof.
  unfold Reports, start. cbn.
  repeat split; try constructor.
  - induction repos; simpl; auto.
  - induction repos; simpl; auto.
Qed.

End PipelineInvariants.

(* ===================================================================== *)
(** * Where files and records come from                                   *)
(* ===================================================================== *)

Section Provenance.

Import AnalyzerService.

Context {R : Runtime} (cfg : EnvConfig) (w : World) (skipCache : bool).

Lemma getAnalysis_marks (disk : gmap string FileContent) (repoName : string)
    (found : AnalysisResult) :
  CacheService.getAnalysis disk repoName = Some (Complete found) ->
  exists stored,
    disk !! CacheService.getAnalysisPath repoName = Some (Stored stored)
    /\ found = CacheService.markCached stored.
Proof.
  unfold CacheService.getAnalysis.
  destruct (disk !! CacheService.getAnalysisPath repoName) as [[stored|c|]|];
    try discriminate.
  intros [= <-]. now exists stored.
Qed.

Lemma getAnalysis_malformed (disk : gmap string FileContent) (repoName : string)
    (c : JS.Nullish) :
  CacheService.getAnalysis disk repoName = Some (WithoutCategorization c) ->
  disk !! CacheService.getAnalysisPath repoName = Some (Malformed c).
Proof.
  unfold CacheService.getAnalysis.
  destruct (disk !! CacheService.getAnalysisPath repoName) as [[stored|c'|]|];
    try discriminate.
  now intros [= <-].
Qed.

Lemma getAnalysis_none (disk : gmap string FileContent) (repoName : string) :
  CacheService.getAnalysis disk repoName = None ->
  disk !! CacheService.getAnalysisPath repoName = None
  \/ disk !! CacheService.getAnalysisPath repoName = Some Unreadable.
Proof.
  unfold CacheService.getAnalysis.
  destruct (disk !! CacheService.getAnalysisPath repoName) as [[stored|c'|]|];
    try discriminate; auto.
Qed.

Lemma cachedRecord_stored (disk : gmap string FileContent) (repoName : string)
    (found : AnalysisResult) :
  cachedRecord disk repoName = Some found
  <-> exists stored,
        disk !! CacheService.getAnalysisPath repoName = Some (Stored stored)
        /\ found = CacheService.markCached stored.
Proof.
  unfold cachedRecord, CacheService.getAnalysis.
  destruct (disk !! CacheService.getAnalysisPath repoName) as [[stored|c'|]|]; split;
    try discriminate; try (now intros (stored' & [=] & _)).
  - intros [= <-]. now exists stored.
  - now intros (stored' & [= <-] & ->).
Qed.

Lemma saveAnalysis_inserts (canWrite : string -> bool) (disk disk' : gmap string FileContent)
    (result : AnalysisResult) :
  CacheService.saveAnalysis canWrite disk result = Return disk' ->
  disk' = <[CacheService.getAnalysisPath (full_name (repo result)) := Stored result]> disk.
Proof.
  unfold CacheService.saveAnalysis.
  destruct (canWrite _); [now intros [= <-] | discriminate].
Qed.

(** A file is never removed, and never replaced by something that is no
    record: what the cache misses during a call it missed at the start. *)
Lemma miss_at_start (disk0 disk : gmap string FileContent) (repoName : string) :
  (forall path, disk !! path = disk0 !! path \/ exists r, disk !! path = Some (Stored r)) ->
  CacheService.getAnalysis disk repoName = None ->
  CacheService.getAnalysis disk0 repoName = None.
Proof.
  intros Hdisk Hnone.
  destruct (Hdisk (CacheService.getAnalysisPath repoName)) as [Heq|[r Hr]].
  - unfold CacheService.getAnalysis in *. now rewrite <- Heq.
  - apply getAnalysis_none in Hnone as [Hnone|Hnone]; congruence.
Qed.

Lemma malformed_at_start (disk0 disk : gmap string FileContent) (repoName : string)
    (c : JS.Nullish) :
  (forall path, disk !! path = disk0 !! path \/ exists r, disk !! path = Some (Stored r)) ->
  CacheService.getAnalysis disk repoName = Some (WithoutCategorization c) ->
  disk0 !! CacheService.getAnalysisPath repoName = Some (Malformed c).
Proof.
  intros Hdisk Hg. apply getAnalysis_malformed in Hg.
  destruct (Hdisk (CacheService.getAnalysisPath repoName)) as [Heq|[r Hr]]; congruence.
Qed.

Lemma brokenEntry_record (disk0 : gmap string FileContent) (r : GitHubRepo) :
  is_Some (cachedRecord disk0 (full_name r)) -> brokenEntry skipCache disk0 r = false.
Proof.
  intros [found Hfound]. apply cachedRecord_stored in Hfound as (stored & Hst & _).
  unfold brokenEntry. rewrite Hst. apply andb_false_r.
Qed.

Lemma brokenEntry_skip (disk0 : gmap string FileContent) (r : GitHubRepo) :
  brokenEntry true disk0 r = false.
Proof. reflexivity. Qed.

Lemma brokenEntry_malformed (disk0 : gmap string FileContent) (r : GitHubRepo)
    (c : JS.Nullish) :
  disk0 !! CacheService.getAnalysisPath (full_name r) = Some (Malformed c) ->
  brokenEntry false disk0 r = true.
Proof. intros H. unfold brokenEntry. now rewrite H. Qed.

Lemma Traced_step (disk0 : gmap string FileContent) (st st' : Pipeline) (i : nat) :
  Traced skipCache disk0 st -> Move cfg w skipCache st i st' -> Traced skipCache disk0 st'.
Proof.
  intros [Hdisk Hrun] Hm.
  assert (Hkeep : forall t' : Task,
            (isRunning t' = true -> brokenEntry skipCache disk0 (item t') = false) ->
            forall j u, <[i := t']> (tasks st) !! j = Some u -> isRunning u = true ->
                        brokenEntry skipCache disk0 (item u) = false).
  { intros t' Ht' j u Hj Hu.
    apply list_lookup_insert_Some in Hj as [(_ & <- & _)|[_ Hj]];
      [now apply Ht' | now apply (Hrun j)]. }
  destruct Hm as [Hn|t r Hi Hp|t Hi Hp Hwait|t f Hi Hp _ _ Hg|t Hi Hp _ Hg|t s resp a Hi Hp Hc
                 |t s e a Hi Hp Hc|t s r k d Hi Hp Hs|t s r k e Hi Hp Hs|t r Hi Hp
                 |t c Hi Hp _ Hskip Hg].
  1, 2, 3: now split.
  - split; [exact Hdisk|]. apply Hkeep. discriminate.
  - split; [exact Hdisk|]. apply Hkeep. intros _. cbn [item].
    destruct Hg as [->|Hg]; [reflexivity|].
    unfold brokenEntry. destruct skipCache; [reflexivity|]. cbn [negb andb].
    destruct (Hdisk (CacheService.getAnalysisPath (full_name (item t)))) as [Heq|[r Hr]].
    + rewrite <- Heq. apply getAnalysis_none in Hg as [-> | ->]; reflexivity.
    + apply getAnalysis_none in Hg as [Hg|Hg]; congruence.
  - split; [exact Hdisk|]. apply Hkeep. intros _. cbn [item].
    apply (Hrun i t Hi). unfold isRunning. now rewrite Hp.
  - split; [exact Hdisk|]. apply Hkeep. discriminate.
  - split; [|apply Hkeep; discriminate].
    apply saveAnalysis_inserts in Hs as ->. intros path. cbn [disk saved].
    destruct (decide (CacheService.getAnalysisPath (full_name (repo r)) = path)) as [<-|Hne].
    + right. exists r. apply lookup_insert_eq.
    + rewrite lookup_insert_ne by assumption. apply Hdisk.
  - split; [exact Hdisk|]. apply Hkeep. discriminate.
  - split; [exact Hdisk|]. apply Hkeep. discriminate.
  - split; [exact Hdisk|]. apply Hkeep. discriminate.
Qed.


Lemma queued_lookup (repos : list GitHubRepo) (j : nat) (t : Task) :
  List.map (fun r => {| item := r; phase := Queued |}) repos !! j = Some t ->
  phase t = Queued /\ repos !! j = Some (item t).
Proof.
  intros Hj.
  change (((fun r => {| item := r; phase := Queued |}) <$> repos) !! j = Some t) in Hj.
  rewrite list_lookup_fmap in Hj. destruct (repos !! j) as [r|]; [|discriminate].
  injection Hj as <-. now split.
Qed.

Lemma Traced_start (repos : list GitHubRepo) (st0 : Pipeline) :
  Traced skipCache (disk st0) (start repos st0).
Proof.
  split; [now left|]. intros j t Hj Hrun. cbn [tasks start] in Hj.
  apply queued_lookup in Hj as [Hq _]. unfold isRunning in Hrun. rewrite Hq in Hrun.
  discriminate.
Qed.

(** A function that was running had an item the cache does not stand
    before; so its record is no failure record of a broken cache hit. *)
Lemma brokenHit_unfold (disk0 : gmap string FileContent) (t : Task) :
  brokenHit skipCache disk0 t
  = match phase t with
    | Returned r | Pushed r => negb (cached r) && brokenEntry skipCache disk0 (item t)
    | _ => false
    end.
Proof. unfold brokenHit, returnedRecord. now destruct (phase t). Qed.

Lemma forall2_snoc {A B : Type} (P : A -> B -> Prop) (l : list A) (l' : list B)
    (a : A) (b : B) :
  Forall2 P l l' -> P a b -> Forall2 P (l ++ [a]) (l' ++ [b]).
Proof. intros H Hab. apply Forall2_app; [exact H | now constructor]. Qed.

Lemma Tally_step (disk0 : gmap string FileContent) (st st' : Pipeline) (i : nat) :
  Traced skipCache disk0 st -> Tally skipCache disk0 st ->
  Move cfg w skipCache st i st' -> Tally skipCache disk0 st'.
Proof.
  intros [Hdisk Hrun] [Hdone Hcur] Hm. unfold Tally, brokenHits in *.
  set (b := fun t => if brokenHit skipCache disk0 t then 1 else 0) in *.
  assert (Hb : forall t, b t = if brokenHit skipCache disk0 t then 1 else 0)
    by reflexivity.
  assert (Hmore : forall n' ev,
            list_sum (List.map b (tasks st)) <= n' ->
            S (length (emitted st)) <= Progress.current ev
            <= S (length (emitted st)) + n' ->
            Forall2 (fun k ev => k <= Progress.current ev <= k + n')
              (seq 1 (length (emitted st ++ [ev]))) (emitted st ++ [ev])).
  { intros n' ev Hn' Hev. rewrite length_app, Nat.add_comm. cbn [length Nat.add].
    rewrite seq_S. apply forall2_snoc; [|exact Hev].
    eapply Forall2_impl; [exact Hcur|]. cbn. intros k ev' Hk. lia. }
  destruct Hm as [Hn|t r Hi Hp|t Hi Hp Hwait|t f Hi Hp _ _ Hg|t Hi Hp _ Hg|t s resp a Hi Hp Hc
                 |t s e a Hi Hp Hc|t s r k d Hi Hp Hs|t s r k e Hi Hp Hs|t r Hi Hp
                 |t c Hi Hp _ Hskip Hg].
  1, 2, 3: now split.
  all: match goal with
       | |- context [tasks ?st'] =>
           match eval cbn [tasks cacheHit cacheMiss classified saved caught pushed
                           cacheBroken counted] in (tasks st') with
           | <[_ := ?t']> _ => pose proof (sum_insert b _ _ _ t' Hi) as Hsum
           end
       end.
  all: rewrite !Hb, !brokenHit_unfold in Hsum; cbn [phase item] in Hsum;
       rewrite Hp in Hsum.
  all: cbn [tasks completed emitted cacheHit cacheMiss classified saved caught pushed
            cacheBroken counted].
  - apply getAnalysis_marks in Hg as (stored & _ & ->). cbn [cached CacheService.markCached negb andb] in Hsum.
    split; [rewrite length_app; cbn [length]; lia|].
    apply Hmore; [lia|]. cbn [Progress.current]. lia.
  - split; [lia|]. eapply Forall2_impl; [exact Hcur|]. cbn. intros k' ev' Hk. lia.
  - split; [lia|]. eapply Forall2_impl; [exact Hcur|]. cbn. intros k' ev' Hk. lia.
  - cbn [cached failedResult negb andb] in Hsum.
    rewrite (Hrun i t Hi) in Hsum by (unfold isRunning; now rewrite Hp).
    split; [rewrite length_app; cbn [length]; lia|].
    apply Hmore; [lia|]. cbn [Progress.current]. lia.
  - rewrite (Hrun i t Hi) in Hsum by (unfold isRunning; now rewrite Hp).
    rewrite andb_false_r in Hsum.
    split; [rewrite length_app; cbn [length]; lia|].
    apply Hmore; [lia|]. cbn [Progress.current]. lia.
  - cbn [cached failedResult negb andb] in Hsum.
    rewrite (Hrun i t Hi) in Hsum by (unfold isRunning; now rewrite Hp).
    split; [rewrite length_app; cbn [length]; lia|].
    apply Hmore; [lia|]. cbn [Progress.current]. lia.
  - split; [lia|]. eapply Forall2_impl; [exact Hcur|]. cbn. intros k' ev' Hk. lia.
  - cbn [cached failedResult negb andb] in Hsum.
    assert (Hbroken : brokenEntry skipCache disk0 (item t) = true).
    { subst skipCache. apply brokenEntry_malformed with c.
      now apply (malformed_at_start disk0 (disk st)). }
    rewrite Hbroken in Hsum.
    split; [rewrite length_app; cbn [length]; lia|].
    apply Hmore; [lia|]. cbn [Progress.current]. lia.
Qed.

Lemma brokenHits_queued (disk0 : gmap string FileContent) (repos : list GitHubRepo) :
  brokenHits skipCache disk0 (List.map (fun r => {| item := r; phase := Queued |}) repos) = 0.
Proof. unfold brokenHits. induction repos; cbn; auto. Qed.

Lemma Tally_start (repos : list GitHubRepo) (st0 : Pipeline) :
  Tally skipCache (disk st0) (start repos st0).
Proof.
  unfold Tally. cbn [completed emitted tasks start]. rewrite brokenHits_queued.
  split; [reflexivity | constructor].
Qed.

(** No record is a failure record of a broken cache hit when the cache
    stands before no item. *)
Lemma brokenHits_none (disk0 : gmap string FileContent) (ts : list Task) :
  Forall (fun t => brokenEntry skipCache disk0 (item t) = false) ts ->
  brokenHits skipCache disk0 ts = 0.
Proof.
  unfold brokenHits. induction 1 as [|t ts Ht _ IH]; [reflexivity|].
  change ((if brokenHit skipCache disk0 t then 1 else 0)
          + list_sum (List.map (fun t => if brokenHit skipCache disk0 t then 1 else 0) ts)
          = 0).
  rewrite IH, brokenHit_unfold, Ht.
  destruct (phase t); try reflexivity; now rewrite andb_false_r.
Qed.

End Provenance.

Section ProvenanceOfACall.

Import AnalyzerService.

Context {R : Runtime} (cfg : EnvConfig) (w : World).

Lemma analyzeAll_traced (schedule : list nat) (repos : list GitHubRepo) (skipCache : bool)
    (st0 : Pipeline) :
  Traced skipCache (disk st0) (analyzeAll cfg w schedule repos skipCache st0).
Proof.
  unfold analyzeAll. apply run_invariant.
  - intros st i st'. apply Traced_step.
  - apply Traced_start.
Qed.

Lemma analyzeAll_tally (schedule : list nat) (repos : list GitHubRepo) (skipCache : bool)
    (st0 : Pipeline) :
  Tally skipCache (disk st0) (analyzeAll cfg w schedule repos skipCache st0).
Proof.
  unfold analyzeAll.
  apply (run_invariant cfg w skipCache
           (fun st => Traced skipCache (disk st0) st /\ Tally skipCache (disk st0) st)).
  - intros st i st' [Ht Hy] Hm. split; [now apply (Traced_step cfg w skipCache _ st _ i)|].
    now apply (Tally_step cfg w skipCache _ st _ i).
  - split; [apply Traced_start | apply Tally_start].
Qed.

End ProvenanceOfACall.

(* ===================================================================== *)
(** * The state analyzeAll ends in                                        *)
(* ===================================================================== *)

Section FinalState.

Import AnalyzerService.

Context {R : Runtime} (cfg : EnvConfig) (w : World).

(** Every item is settled when [analyzeAll] returns: its function has
    returned a record and the caller has pushed it. *)
Lemma analyzeAll_settles (schedule : list nat) (repos : list GitHubRepo)
    (skipCache : bool) (st0 : Pipeline) (i : nat) (r : GitHubRepo) :
  repos !! i = Some r ->
  exists record,
    tasks (analyzeAll cfg w schedule repos skipCache st0) !! i
    = Some {| item := r; phase := Pushed record |}.
Proof.
  intros Hi. unfold analyzeAll. rewrite run_app.
  assert (H0 : tasks (start repos st0) !! i = Some {| item := r; phase := Queued |}).
  { unfold start. cbn [tasks].
    change (((fun r => {| item := r; phase := Queued |}) <$> repos) !! i
            = Some {| item := r; phase := Queued |}).
    now rewrite list_lookup_fmap, Hi. }
  destruct (run_monotone cfg w skipCache schedule _ i _ H0) as (t1 & H1 & Hi1 & _).
  assert (Hfifo : Fifo (run cfg w skipCache schedule (start repos st0))).
  { apply run_fifo. intros j k tj tk _ _ Hk _.
    unfold start in Hk. cbn [tasks] in Hk.
    change (((fun r => {| item := r; phase := Queued |}) <$> repos) !! k = Some tk) in Hk.
    rewrite list_lookup_fmap in Hk. destruct (repos !! k); [|discriminate].
    now injection Hk as <-. }
  destruct (run_drain_settles cfg w skipCache (length repos) 0 _ Hfifo) with (j := i) (t := t1)
    as (t2 & H2 & Hi2 & Hr2).
  - intros j t Hlt. lia.
  - apply lookup_lt_Some in Hi. lia.
  - exact H1.
  - apply remaining_zero in Hr2 as [record Hp].
    exists record. unfold drain. rewrite H2. f_equal.
    destruct t2 as [it ph]. cbn in *. congruence.
Qed.

Lemma analyzeAll_length (schedule : list nat) (repos : list GitHubRepo)
    (skipCache : bool) (st0 : Pipeline) :
  length (tasks (analyzeAll cfg w schedule repos skipCache st0)) = length repos.
Proof.
  unfold analyzeAll.
  apply (run_invariant cfg w skipCache (fun st => length (tasks st) = length repos)).
  - intros st i st' Hl Hm. now rewrite (Move_length _ _ _ _ _ _ Hm).
  - unfold start. cbn [tasks]. apply length_map.
Qed.

Lemma analyzeAll_all_settled (schedule : list nat) (repos : list GitHubRepo)
    (skipCache : bool) (st0 : Pipeline) :
  Forall2 (fun t r => item t = r /\ exists record, phase t = Pushed record)
    (tasks (analyzeAll cfg w schedule repos skipCache st0)) repos.
Proof.
  apply Forall2_same_length_lookup_2; [apply analyzeAll_length|].
  intros i t r Ht Hr.
  destruct (analyzeAll_settles schedule repos skipCache st0 i r Hr) as [record H].
  rewrite H in Ht. injection Ht as <-. cbn. eauto.
Qed.

Lemma settled_reported (ts : list Task) (repos : list GitHubRepo) :
  Forall2 (fun t r => item t = r /\ exists record, phase t = Pushed record) ts repos ->
  omap reported ts = List.map full_name repos
  /\ length (omap pushedRecord ts) = length repos
  /\ omap returnedRecord ts = omap pushedRecord ts
  /\ list_sum (List.map saving ts) = 0.
Proof.
  induction 1 as [|t r ts repos [Hi [record Hp]] _ (IH1 & IH2 & IH3 & IH4)];
    [repeat split|].
  assert (H1 : reported t = Some (full_name r))
    by (unfold reported; now rewrite Hp, Hi).
  assert (H2 : pushedRecord t = Some record) by (unfold pushedRecord; now rewrite Hp).
  assert (H3 : returnedRecord t = Some record) by (unfold returnedRecord; now rewrite Hp).
  assert (H4 : saving t = 0) by (unfold saving; now rewrite Hp).
  rewrite (omap_cons_some _ _ _ _ H1), (omap_cons_some _ _ _ _ H2),
    (omap_cons_some _ _ _ _ H3).
  cbn [List.map list_sum length]. rewrite H4, IH1, IH2, IH3.
  repeat split. exact IH4.
Qed.

Lemma analyzeAll_reports (schedule : list nat) (repos : list GitHubRepo)
    (skipCache : bool) (st0 : Pipeline) :
  Reports (length repos) (analyzeAll cfg w schedule repos skipCache st0).
Proof.
  unfold analyzeAll. apply run_invariant.
  - intros st i st'. apply Reports_step.
  - apply Reports_start.
Qed.

Lemma exact_numbers (l : list AnalyzerProgress) (k : nat) :
  Forall2 (fun k ev => k <= Progress.current ev <= k + 0) (seq k (length l)) l ->
  List.map Progress.current l = seq k (length l).
Proof.
  revert k; induction l as [|ev l IH]; intros k H; [reflexivity|].
  cbn [length seq List.map] in *. apply Forall2_cons_1 in H as [Hev H].
  f_equal; [lia | now apply IH].
Qed.

(** The invocations of the progress callback: one for every item of the
    batch and not more, each with the size of the batch as [total]; their
    [current] fields increase; the [k]-th is [k] at least, and exceeds [k]
    by the number of failure records of broken cache hits at most.  When
    there is no such record the fields are 1, 2, ..., N in the order the
    invocations are made. *)
Lemma progress_once_per_item (schedule : list nat) (repos : list GitHubRepo)
    (skipCache : bool) (st0 : Pipeline) :
  let final := analyzeAll cfg w schedule repos skipCache st0 in
  length (emitted final) = length repos
  /\ List.map Progress.repo (emitted final) ≡ₚ List.map full_name repos
  /\ StronglySorted lt (List.map Progress.current (emitted final))
  /\ Forall2 (fun k ev => k <= Progress.current ev
                          <= k + brokenHits skipCache (disk st0) (tasks final))
       (seq 1 (length repos)) (emitted final)
  /\ Forall (fun ev => Progress.total ev = length repos) (emitted final)
  /\ (brokenHits skipCache (disk st0) (tasks final) = 0 ->
      List.map Progress.current (emitted final) = seq 1 (length repos)).
Proof.
  intros final.
  destruct (analyzeAll_reports schedule repos skipCache st0)
    as (_ & [Hsorted _] & Htot & Hrep & _ & _).
  destruct (settled_reported _ _ (analyzeAll_all_settled schedule repos skipCache st0))
    as (Hnames & _).
  destruct (analyzeAll_tally cfg w schedule repos skipCache st0) as [_ Hcur].
  fold final in Hsorted, Htot, Hrep, Hnames, Hcur.
  rewrite Hnames in Hrep.
  assert (Hlen : length (emitted final) = length repos).
  { apply Permutation_length in Hrep. now rewrite !length_map in Hrep. }
  rewrite Hlen in Hcur.
  repeat split; try assumption.
  intros Hnone. rewrite Hnone, <- Hlen in Hcur. rewrite <- Hlen.
  now apply exact_numbers.
Qed.

End FinalState.

(* ===================================================================== *)
(** * The counters                                                        *)
(* ===================================================================== *)

Section Counters.

Import AnalyzerService.

Context {R : Runtime} (cfg : EnvConfig) (w : World) (skipCache : bool).

Lemma saving_lookup (ts : list Task) (i j : nat) (t' u : Task) :
  <[i := t']> ts !! j = Some u ->
  (i = j /\ u = t') \/ (i <> j /\ ts !! j = Some u).
Proof.
  intros H. apply list_lookup_insert_Some in H as [(-> & -> & _)|[Hne Hl]]; auto.
Qed.

Lemma saving_unfold (t : Task) :
  saving t = match phase t with Saving _ _ _ => 1 | _ => 0 end.
Proof. reflexivity. Qed.

Lemma Counts_step (s0 : AnalyzerStats) (st st' : Pipeline) (i : nat) :
  Counts s0 st -> Move cfg w skipCache st i st' -> Counts s0 st'.
Proof.
  intros (Ha & Hc & Hf & Ht & Hw & Ho & Hfail & Hsav) Hm.
  unfold Counts, outcomes in *.
  destruct Hm as [Hn|t r Hi Hp|t Hi Hp Hwait|t f Hi Hp _ _ Hg|t Hi Hp _ _|t s resp a Hi Hp _
                 |t s e a Hi Hp _|t s r k d Hi Hp _|t s r k e Hi Hp _|t r Hi Hp
                 |t c Hi Hp _ _ _].
  1, 2, 3: repeat split; assumption.
  all: match goal with
       | |- context [tasks ?st'] =>
           match eval cbn [tasks cacheHit cacheMiss classified saved caught pushed
                           cacheBroken counted]
                 in (tasks st') with
           | <[_ := ?t']> _ =>
               pose proof (sum_insert saving _ _ _ t' Hi) as Hs
           end
       end.
  all: rewrite (saving_unfold t), Hp in Hs.
  all: match type of Hs with
       | context [saving ?t'] => rewrite (saving_unfold t') in Hs; cbn [phase] in Hs
       end.
  all: cbn [stats completed tasks cacheHit cacheMiss classified saved caught pushed
            cacheBroken counted
            Stats.analyzed Stats.cached Stats.failed Stats.totalTokens
            Stats.totalWebSearches].
  - (* the cache has the item *)
    apply getAnalysis_marks in Hg as (stored & _ & ->).
    rewrite (omap_insert_new returnedRecord _ _ _ _ (CacheService.markCached stored) Hi)
      by (unfold returnedRecord; cbn [phase]; (reflexivity || now rewrite Hp)).
    rewrite failures_cons. cbn.
    repeat split; try lia.
    intros j u s r k Hj Hu. apply saving_lookup in Hj as [[_ ->]|[_ Hj]];
      [discriminate | eauto].
  - (* the cache does not have it *)
    rewrite (omap_insert_same returnedRecord _ _ _ _ Hi)
      by (unfold returnedRecord; cbn [phase]; now rewrite Hp).
    repeat split; try lia.
    intros j u s r k Hj Hu. apply saving_lookup in Hj as [[_ ->]|[_ Hj]];
      [discriminate | eauto].
  - (* categorize resolved *)
    rewrite (omap_insert_same returnedRecord _ _ _ _ Hi)
      by (unfold returnedRecord; cbn [phase]; now rewrite Hp).
    repeat split; try lia.
    intros j u s' r k Hj Hu. apply saving_lookup in Hj as [[_ ->]|[_ Hj]];
      [|eauto].
    cbn in Hu. injection Hu as _ <- _. reflexivity.
  - (* categorize threw *)
    rewrite (omap_insert_new returnedRecord _ _ _ _
               (failedResult (item t) (getErrorMessage e) (clock w (tick st))) Hi)
      by (unfold returnedRecord; cbn [phase]; (reflexivity || now rewrite Hp)).
    rewrite failures_cons. cbn.
    repeat split; try lia.
    intros j u s' r k Hj Hu. apply saving_lookup in Hj as [[_ ->]|[_ Hj]];
      [discriminate | eauto].
  - (* saveAnalysis resolved *)
    rewrite (omap_insert_new returnedRecord _ _ _ _ r Hi)
      by (unfold returnedRecord; cbn [phase]; (reflexivity || now rewrite Hp)).
    rewrite failures_cons, (Hsav i t s r k Hi Hp).
    repeat split; try lia.
    intros j u s' r' k' Hj Hu. apply saving_lookup in Hj as [[_ ->]|[_ Hj]];
      [discriminate | eauto].
  - (* saveAnalysis threw *)
    rewrite (omap_insert_new returnedRecord _ _ _ _
               (failedResult (item t) (getErrorMessage e) (clock w (tick st))) Hi)
      by (unfold returnedRecord; cbn [phase]; (reflexivity || now rewrite Hp)).
    rewrite failures_cons. cbn.
    repeat split; try lia.
    intros j u s' r' k' Hj Hu. apply saving_lookup in Hj as [[_ ->]|[_ Hj]];
      [discriminate | eauto].
  - (* the caller pushes *)
    rewrite (omap_insert_same returnedRecord _ _ _ _ Hi)
      by (unfold returnedRecord; cbn [phase]; now rewrite Hp).
    repeat split; try lia.
    intros j u s r' k Hj Hu. apply saving_lookup in Hj as [[_ ->]|[_ Hj]];
      [discriminate | eauto].
  - (* the cache has a document without categorization *)
    rewrite (omap_insert_new returnedRecord _ _ _ _
               (failedResult (item t) (getErrorMessage (Foreign (noCategorization c)))
                  (clock w (tick st))) Hi)
      by (unfold returnedRecord; cbn [phase]; (reflexivity || now rewrite Hp)).
    rewrite failures_cons. unfold isFailure. cbn [failedResult cached failed negb andb].
    repeat split; try lia.
    intros j u s' r' k' Hj Hu. apply saving_lookup in Hj as [[_ ->]|[_ Hj]];
      [discriminate | eauto].
Qed.

Lemma Counts_start (repos : list GitHubRepo) (st0 : Pipeline) :
  Counts (stats st0) (start repos st0).
Proof.
  unfold Counts, outcomes, start.
  cbn [stats completed tasks Stats.analyzed Stats.cached Stats.failed
       Stats.totalTokens Stats.totalWebSearches].
  assert (H1 : list_sum (List.map saving
                 (List.map (fun r => {| item := r; phase := Queued |}) repos)) = 0)
    by (induction repos; simpl; auto).
  assert (H2 : omap returnedRecord
                 (List.map (fun r => {| item := r; phase := Queued |}) repos) = [])
    by (induction repos; simpl; auto).
  rewrite H1, H2. cbn. repeat split; try lia.
  intros j t s r k Hj Hp.
  change (((fun r => {| item := r; phase := Queued |}) <$> repos) !! j = Some t) in Hj.
  rewrite list_lookup_fmap in Hj. destruct (repos !! j); [|discriminate].
  injection Hj as <-. discriminate.
Qed.

Lemma analyzeAll_counts (schedule : list nat) (repos : list GitHubRepo) (st0 : Pipeline) :
  Counts (stats st0) (analyzeAll cfg w schedule repos skipCache st0).
Proof.
  unfold analyzeAll. apply run_invariant.
  - intros st i st'. apply Counts_step.
  - apply Counts_start.
Qed.

Lemma CountedOnce_step (s0 : AnalyzerStats) (st st' : Pipeline) (i : nat) :
  (forall n path, writable w n path = true) ->
  CountedOnce s0 st -> Move cfg w skipCache st i st' -> CountedOnce s0 st'.
Proof.
  intros Hw Ho Hm. unfold CountedOnce, outcomes in *.
  destruct Hm as [Hn|t r Hi Hp|t Hi Hp Hwait|t f Hi Hp _ _ Hg|t Hi Hp _ _|t s resp a Hi Hp _
                 |t s e a Hi Hp _|t s r k d Hi Hp _|t s r k e Hi Hp Hsave|t r Hi Hp
                 |t c Hi Hp _ _ _].
  1, 2, 3: assumption.
  all: match goal with
       | |- context [tasks ?st'] =>
           match eval cbn [tasks cacheHit cacheMiss classified saved caught pushed
                           cacheBroken counted]
                 in (tasks st') with
           | <[_ := ?t']> _ => pose proof (sum_insert saving _ _ _ t' Hi) as Hs
           end
       end.
  all: rewrite (saving_unfold t), Hp in Hs.
  all: match type of Hs with
       | context [saving ?t'] => rewrite (saving_unfold t') in Hs; cbn [phase] in Hs
       end.
  all: cbn [stats completed tasks cacheHit cacheMiss classified saved caught pushed
            cacheBroken counted
            Stats.analyzed Stats.cached Stats.failed].
  all: try lia.
  unfold CacheService.saveAnalysis in Hsave. rewrite Hw in Hsave. discriminate.
Qed.

End Counters.

Section CounterTheorems.

Import AnalyzerService.

Context {R : Runtime} (cfg : EnvConfig).

Lemma settled_items (ts : list Task) (repos : list GitHubRepo) (P : GitHubRepo -> Prop) :
  Forall2 (fun t r => item t = r /\ exists record, phase t = Pushed record) ts repos ->
  (forall r, In r repos -> P r) ->
  Forall (fun t => P (item t)) ts.
Proof.
  induction 1 as [|t r ts repos [Hi _] _ IH]; intros Hall; constructor.
  - rewrite Hi. apply Hall. now left.
  - apply IH. intros r' Hin. apply Hall. now right.
Qed.

Lemma analyzeAll_outcomes (w : World) (schedule : list nat) (repos : list GitHubRepo)
    (skipCache : bool) (st0 : Pipeline) :
  let final := analyzeAll cfg w schedule repos skipCache st0 in
  Stats.total (stats final) = length repos
  /\ completed final = length repos + brokenHits skipCache (disk st0) (tasks final)
  /\ outcomes (stats st0) + length repos <= outcomes (stats final)
  /\ ((forall n path, writable w n path = true) ->
      outcomes (stats final)
      = outcomes (stats st0) + length repos
        + brokenHits skipCache (disk st0) (tasks final)).
Proof.
  intros final.
  destruct (analyzeAll_reports cfg w schedule repos skipCache st0)
    as (_ & _ & _ & Hrep & _ & Htot).
  destruct (settled_reported _ _ (analyzeAll_all_settled cfg w schedule repos skipCache st0))
    as (Hnames & _ & _ & Hsav).
  destruct (analyzeAll_counts cfg w skipCache schedule repos st0)
    as (_ & _ & _ & _ & _ & Ho & _).
  destruct (analyzeAll_tally cfg w schedule repos skipCache st0) as [Hc _].
  fold final in Hc, Hrep, Htot, Hnames, Hsav, Ho.
  assert (Hdone : completed final
                  = length repos + brokenHits skipCache (disk st0) (tasks final)).
  { rewrite Hc. rewrite Hnames in Hrep. apply Permutation_length in Hrep.
    rewrite !length_map in Hrep. now rewrite Hrep. }
  rewrite Hsav, Hdone in Ho.
  repeat split; try assumption; try lia.
  intros Hw.
  assert (He : CountedOnce (stats st0) final).
  { unfold final, analyzeAll. apply run_invariant.
    - intros st i st'. now apply CountedOnce_step.
    - unfold CountedOnce, outcomes, start.
      cbn [stats completed tasks Stats.analyzed Stats.cached Stats.failed].
      assert (H1 : list_sum (List.map saving
                     (List.map (fun r => {| item := r; phase := Queued |}) repos)) = 0)
        by (clear; induction repos; simpl; auto).
      rewrite H1. lia. }
  unfold CountedOnce in He. rewrite Hsav, Hdone in He. lia.
Qed.

(** The identity of the specification holds after a call on fresh counters
    when no cache write fails and the cache, if it is looked up, holds for
    no item of the batch a document without a categorization. *)
Lemma stats_identity_when_writes_succeed (w : World) (schedule : list nat)
    (repos : list GitHubRepo) (skipCache : bool) (disk : gmap string FileContent) :
  (forall n path, writable w n path = true) ->
  (forall r, In r repos -> brokenEntry skipCache disk r = false) ->
  let s := getStats (analyzeAll cfg w schedule repos skipCache (create disk)) in
  Stats.total s = Stats.analyzed s + Stats.cached s + Stats.failed s.
Proof.
  intros Hw Hnone s.
  destruct (analyzeAll_outcomes w schedule repos skipCache (create disk))
    as (Ht & _ & _ & He).
  specialize (He Hw). unfold outcomes in He. cbn in He.
  rewrite (brokenHits_none skipCache disk) in He.
  - unfold s, getStats. lia.
  - apply (settled_items _ repos (fun r => brokenEntry skipCache disk r = false));
      [|exact Hnone].
    apply analyzeAll_all_settled.
Qed.


End CounterTheorems.



(** C3 on the code: one item, not in the cache, classified at the first
    request, and a cache directory that cannot be written.  The item is
    counted as analyzed and, the write having thrown, as failed too:
    [total] is 1 and the outcome counters add up to 2. *)
Theorem stats_identity_broken_by_failed_write :
  let final := @AnalyzerService.analyzeAll flatRuntime defaultConfig
                 (Sample.world Sample.frontend false) [] [Sample.item "a/b"] false
                 (AnalyzerService.create ∅) in
  AnalyzerService.getStats final
  = {| Stats.total := 1; Stats.analyzed := 1; Stats.cached := 0; Stats.failed := 1;
       Stats.totalTokens := 100; Stats.totalWebSearches := 0 |}
  /\ Stats.total (AnalyzerService.stats final) <> outcomes (AnalyzerService.stats final)
  /\ List.map failed (AnalyzerService.results final) = [Some true].
Proof. vm_compute. repeat split; discriminate. Qed.


(* ===================================================================== *)
(** * The records returned and the files written                          *)
(* ===================================================================== *)

Section RecordInvariants.

Import AnalyzerService.

Context {R : Runtime} (cfg : EnvConfig) (w : World).


Ltac at_task Hj :=
  cbn [tasks cacheHit cacheMiss classified saved caught pushed cacheBroken counted] in Hj;
  apply saving_lookup in Hj as [[? ->]|[? Hj]].


Lemma start_lookup (repos : list GitHubRepo) (st0 : Pipeline) (j : nat) (t : Task) :
  tasks (start repos st0) !! j = Some t ->
  phase t = Queued /\ repos !! j = Some (item t).
Proof.
  unfold start. cbn [tasks]. intros Hj.
  change (((fun r => {| item := r; phase := Queued |}) <$> repos) !! j = Some t) in Hj.
  rewrite list_lookup_fmap in Hj. destruct (repos !! j); [|discriminate].
  injection Hj as <-. split; reflexivity.
Qed.



(** Every record of [results] is the record some queued function
    returned. *)
Lemma results_returned (n : nat) (st : Pipeline) (r : AnalysisResult) :
  Reports n st -> In r (results st) ->
  exists j t, tasks st !! j = Some t /\ phase t = Pushed r.
Proof.
  intros (_ & _ & _ & _ & Hres & _) Hin.
  apply list_elem_of_In in Hin. rewrite Hres in Hin.
  apply list_elem_of_omap in Hin as (t & Ht & Hp).
  apply list_elem_of_lookup in Ht as [j Hj].
  exists j, t. split; [assumption|].
  unfold pushedRecord in Hp. destruct (phase t); congruence.
Qed.

Lemma pushed_in_results (n : nat) (st : Pipeline) (j : nat) (t : Task) (r : AnalysisResult) :
  Reports n st -> tasks st !! j = Some t -> phase t = Pushed r -> In r (results st).
Proof.
  intros (_ & _ & _ & _ & Hres & _) Hj Hp.
  apply list_elem_of_In. rewrite Hres. apply list_elem_of_omap.
  exists t. split; [now apply list_elem_of_lookup_2 with j|].
  unfold pushedRecord. now rewrite Hp.
Qed.

End RecordInvariants.

Section WriteInvariants.

Import AnalyzerService.

Context {R : Runtime} (cfg : EnvConfig) (w : World).

Ltac at_task Hj :=
  cbn [tasks cacheHit cacheMiss classified saved caught pushed cacheBroken counted] in Hj;
  apply saving_lookup in Hj as [[? ->]|[? Hj]].

Lemma Writes_step (skipCache : bool) (disk0 : gmap string FileContent)
    (st st' : Pipeline) (i : nat) :
  Traced skipCache disk0 st ->
  Writes cfg w skipCache disk0 st -> Move cfg w skipCache st i st' ->
  Writes cfg w skipCache disk0 st'.
Proof.
  intros [Hgrows Hrun] (Hdisk & Hsav & Hret) Hm.
  assert (Hkeep : forall path,
            disk st' !! path = disk st !! path ->
            disk st' !! path = disk0 !! path
            \/ exists j t response n,
                 tasks st' !! j = Some t
                 /\ CacheService.getAnalysisPath (full_name (item t)) = path
                 /\ GeminiService.categorize cfg (endpoint w j) = (Return response, n)).
  { intros path Hsame. rewrite Hsame.
    destruct (Hdisk path) as [Heq|(j & t & resp & n & Hj & Hpath & Hcat)]; [now left|].
    right. destruct (Move_monotone _ _ _ _ _ i j t Hm Hj) as (t' & Hj' & Hi' & _).
    exists j, t', resp, n. repeat split; [assumption | congruence | assumption]. }
  destruct Hm as [Hn|t r Hi Hp|t Hi Hp Hwait|t f Hi Hp _ _ Hg|t Hi Hp _ _|t s resp a Hi Hp Hc
                 |t s e a Hi Hp Hc|t s r k d Hi Hp Hs|t s r k e Hi Hp _|t r Hi Hp
                 |t c Hi Hp _ Hskip Hg].
  1, 2, 3: exact (conj Hdisk (conj Hsav Hret)).
  all: try (assert (Hpast : brokenEntry skipCache disk0 (item t) = false)
              by (apply (Hrun i t Hi); unfold isRunning; now rewrite Hp)).
  all: unfold Writes; split; [|split].
  all: try (intros path; now apply Hkeep).
  all: try (intros j u s0 r0 k0 Hj Hu; at_task Hj; [discriminate | eauto]).
  all: try (intros j u r0 Hj Hu; at_task Hj; [|eauto]).
  - (* the cache has the item *)
    cbn in Hu. injection Hu as <-.
    apply getAnalysis_marks in Hg as (stored & _ & ->). now left.
  - discriminate.
  - (* categorize resolved *)
    intros j u s0 r0 k0 Hj Hu. at_task Hj; [|eauto]. subst j.
    cbn in Hu. injection Hu as _ <- _. cbn. repeat split. eauto.
  - discriminate.
  - (* categorize threw *)
    subst j. cbn in Hu. injection Hu as <-. right; left. split; [exact Hpast|]. eauto.
  - (* saveAnalysis resolved: the files *)
    intros path. cbn [disk saved].
    apply saveAnalysis_inserts in Hs as ->.
    destruct (Hsav i t s r k Hi Hp) as (Hrepo & _ & _ & resp & n & Hcat & _).
    destruct (decide (CacheService.getAnalysisPath (full_name (repo r)) = path)) as [<-|Hne].
    + right. exists i, {| item := item t; phase := Returned r |}, resp, n.
      split; [|split; [cbn; congruence | assumption]].
      cbn [tasks saved]. apply list_lookup_insert_eq. now apply lookup_lt_Some with t.
    + rewrite lookup_insert_ne by assumption.
      destruct (Hdisk path) as [Heq|(j & t0 & resp0 & n0 & Hj & Hpath & Hcat0)];
        [now left|].
      right. cbn [tasks saved].
      destruct (decide (i = j)) as [->|Hij].
      * assert (t0 = t) as -> by congruence.
        exists j, {| item := item t; phase := Returned r |}, resp0, n0.
        split; [|split; assumption].
        apply list_lookup_insert_eq. now apply lookup_lt_Some with t.
      * exists j, t0, resp0, n0. split; [|split; assumption].
        now rewrite list_lookup_insert_ne.
  - (* saveAnalysis resolved: the record returned *)
    subst j. cbn in Hu. injection Hu as <-.
    destruct (Hsav i t s r k Hi Hp) as (Hrepo & Hc & Hf & resp & n & Hcat & Hr).
    right; right; left. split; [exact Hpast|].
    exists resp, n. split; [assumption|]. left. now repeat split.
  - (* saveAnalysis threw *)
    subst j. cbn in Hu. injection Hu as <-.
    destruct (Hsav i t s r k Hi Hp) as (_ & _ & _ & resp & n & Hcat & _).
    right; right; left. split; [exact Hpast|].
    exists resp, n. split; [assumption|]. right. eauto.
  - (* the caller pushes *)
    subst j. cbn in Hu. injection Hu as <-.
    apply (Hret i t r Hi). unfold returnedRecord. now rewrite Hp.
  - (* the cache has a document without categorization *)
    subst j. unfold returnedRecord in Hu. cbn [phase] in Hu. injection Hu as <-.
    right; right; right. cbn [item]. split; [|eauto].
    subst skipCache. apply brokenEntry_malformed with c.
    now apply (malformed_at_start disk0 (disk st)).
Qed.

Lemma Writes_start (skipCache : bool) (repos : list GitHubRepo) (st0 : Pipeline) :
  Writes cfg w skipCache (disk st0) (start repos st0).
Proof.
  split; [|split].
  - intros path. now left.
  - intros j t s r k Hj Hp. apply start_lookup in Hj as [Hq _]. congruence.
  - intros j t r Hj Hr. apply start_lookup in Hj as [Hq _].
    unfold returnedRecord in Hr. rewrite Hq in Hr. discriminate.
Qed.

Lemma analyzeAll_writes (schedule : list nat) (repos : list GitHubRepo)
    (skipCache : bool) (st0 : Pipeline) :
  Writes cfg w skipCache (disk st0) (analyzeAll cfg w schedule repos skipCache st0).
Proof.
  unfold analyzeAll.
  eapply proj2.
  apply (run_invariant cfg w skipCache
           (fun st => Traced skipCache (disk st0) st
                      /\ Writes cfg w skipCache (disk st0) st)).
  - intros st i st' [Ht Hw] Hm. split; [now apply (Traced_step cfg w skipCache _ st _ i)|].
    now apply (Writes_step _ _ st _ i).
  - split; [apply Traced_start | apply Writes_start].
Qed.



Lemma getAnalysis_none_not_stored (disk : gmap string FileContent) (repoName : string)
    (stored : AnalysisResult) :
  CacheService.getAnalysis disk repoName = None ->
  disk !! CacheService.getAnalysisPath repoName <> Some (Stored stored).
Proof.
  unfold CacheService.getAnalysis. intros H Hd. rewrite Hd in H. discriminate.
Qed.

Lemma Hits_step (disk0 : gmap string FileContent) (requests0 : list (string * nat))
    (st st' : Pipeline) (i : nat) :
  Traced false disk0 st ->
  Hits disk0 requests0 st -> Move cfg w false st i st' -> Hits disk0 requests0 st'.
Proof.
  intros [Hgrows _] (Hdisk & Hcls & Hsav & Hret & Hreq) Hm.
  destruct Hm as [Hn|t r Hi Hp|t Hi Hp Hwait|t f Hi Hp _ _ Hg|t Hi Hp _ [Hskip|Hg]|t s resp a Hi Hp Hc
                 |t s e a Hi Hp Hc|t s r k d Hi Hp Hs|t s r k e Hi Hp _|t r Hi Hp
                 |t c Hi Hp _ _ Hg].
  1, 2, 3: exact (conj Hdisk (conj Hcls (conj Hsav (conj Hret Hreq)))).
  all: try discriminate Hskip.
  all: unfold Hits; split; [|split; [|split; [|split]]].
  all: try (intros path r0 Hd; now apply Hdisk).
  all: try (intros name n Hin; now apply Hreq).
  all: try (intros j u s0 Hj Hu; at_task Hj; [discriminate | eauto]).
  all: try (intros j u s0 r0 k0 Hj Hu; at_task Hj; [discriminate | eauto]).
  all: try (intros j u r0 stored Hj Hu Hst; at_task Hj; [|eauto]).
  - (* the cache has the item *)
    subst j. unfold returnedRecord in Hu; cbn [phase item] in Hu, Hst. injection Hu as <-.
    apply Hdisk in Hst. unfold CacheService.getAnalysis in Hg. rewrite Hst in Hg.
    now injection Hg as <-.
  - (* the cache does not have it *)
    intros j u s0 Hj Hu. at_task Hj; [|eauto]. cbn.
    now apply (miss_at_start disk0 (disk st)).
  - discriminate.
  - (* categorize resolved *)
    intros j u s0 r0 k0 Hj Hu. at_task Hj; [|eauto].
    cbn in Hu. injection Hu as _ <- _. cbn. split; [reflexivity|]. eauto.
  - discriminate.
  - intros name n Hin. cbn [requests classified] in Hin.
    apply in_app_or in Hin as [Hin|[[= <- <-]|[]]]; [now apply Hreq|]. right. eauto.
  - (* categorize threw *)
    subst j. cbn [item] in Hst. exfalso.
    eapply getAnalysis_none_not_stored; [|exact Hst]. eauto.
  - intros name n Hin. cbn [requests caught] in Hin.
    apply in_app_or in Hin as [Hin|[[= <- <-]|[]]]; [now apply Hreq|]. right. eauto.
  - (* saveAnalysis resolved *)
    intros path r0 Hd. cbn [disk saved].
    apply saveAnalysis_inserts in Hs as ->.
    destruct (Hsav i t s r k Hi Hp) as [Hrepo Hnone].
    rewrite lookup_insert_ne; [now apply Hdisk|].
    intros <-. rewrite Hrepo in Hd.
    now apply getAnalysis_none_not_stored with (stored := r0) in Hnone.
  - subst j. cbn [item] in Hst. exfalso.
    destruct (Hsav i t s r k Hi Hp) as [_ Hnone].
    eapply getAnalysis_none_not_stored; [|exact Hst]. eauto.
  - (* saveAnalysis threw *)
    subst j. cbn [item] in Hst. exfalso.
    destruct (Hsav i t s r k Hi Hp) as [_ Hnone].
    eapply getAnalysis_none_not_stored; [|exact Hst]. eauto.
  - (* the caller pushes *)
    subst j. unfold returnedRecord in Hu; cbn [phase item] in Hu, Hst. injection Hu as <-.
    apply (Hret i t r stored Hi); [|assumption].
    unfold returnedRecord. now rewrite Hp.
  - (* the cache has a document without categorization *)
    subst j. cbn [item] in Hst. exfalso.
    apply Hdisk in Hst. apply getAnalysis_malformed in Hg. congruence.
Qed.

Lemma Hits_start (repos : list GitHubRepo) (st0 : Pipeline) :
  Hits (disk st0) (requests st0) (start repos st0).
Proof.
  split; [|split; [|split; [|split]]].
  - intros path r Hd. exact Hd.
  - intros j t s Hj Hp. apply start_lookup in Hj as [Hq _]. congruence.
  - intros j t s r k Hj Hp. apply start_lookup in Hj as [Hq _]. congruence.
  - intros j t r stored Hj Hr. apply start_lookup in Hj as [Hq _].
    unfold returnedRecord in Hr. rewrite Hq in Hr. discriminate.
  - intros name n Hin. now left.
Qed.

Lemma analyzeAll_hits (schedule : list nat) (repos : list GitHubRepo) (st0 : Pipeline) :
  Hits (disk st0) (requests st0) (analyzeAll cfg w schedule repos false st0).
Proof.
  unfold analyzeAll.
  eapply proj2.
  apply (run_invariant cfg w false
           (fun st => Traced false (disk st0) st /\ Hits (disk st0) (requests st0) st)).
  - intros st i st' [Ht Hh] Hm. split; [now apply (Traced_step cfg w false _ st _ i)|].
    now apply (Hits_step _ _ st _ i).
  - split; [apply Traced_start | apply Hits_start].
Qed.

End WriteInvariants.

(* ===================================================================== *)
(** * Records, failures and cache hits of a call                          *)
(* ===================================================================== *)

Section RecordTheorems.

Import AnalyzerService.

Context {R : Runtime} (cfg : EnvConfig) (w : World).

Lemma final_task_item (schedule : list nat) (repos : list GitHubRepo) (skipCache : bool)
    (st0 : Pipeline) (j : nat) (t : Task) :
  tasks (analyzeAll cfg w schedule repos skipCache st0) !! j = Some t ->
  repos !! j = Some (item t) /\ exists record, phase t = Pushed record.
Proof.
  intros Hj.
  pose proof (analyzeAll_all_settled cfg w schedule repos skipCache st0) as Hall.
  destruct (Forall2_lookup_l _ _ _ _ _ Hall Hj) as (r & Hr & <- & Hp).
  now split.
Qed.


(** C6: [getAnalysis] returns what the file holds with the cache-origin
    flag set, whatever the file says of it; and a call that does not skip
    the cache returns that record for an item the cache has, sends no
    request for an item of that name, and leaves its file as it is. *)
Theorem cache_hit_short_circuits (schedule : list nat) (repos : list GitHubRepo)
    (st0 : Pipeline) (i : nat) (r : GitHubRepo) (stored : AnalysisResult) :
  repos !! i = Some r ->
  disk st0 !! CacheService.getAnalysisPath (full_name r) = Some (Stored stored) ->
  let final := analyzeAll cfg w schedule repos false st0 in
  let found := CacheService.markCached stored in
  CacheService.getAnalysis (disk st0) (full_name r) = Some (Complete found)
  /\ cached found = true
  /\ categorization found = categorization stored
  /\ repo found = repo stored
  /\ webSearchCalls found = webSearchCalls stored
  /\ timestamp found = timestamp stored
  /\ tasks final !! i = Some {| item := r; phase := Pushed found |}
  /\ In found (results final)
  /\ (forall n, In (full_name r, n) (requests final) -> In (full_name r, n) (requests st0))
  /\ disk final !! CacheService.getAnalysisPath (full_name r) = Some (Stored stored).
Proof.
  intros Hi Hst final found.
  pose proof (analyzeAll_reports cfg w schedule repos false st0) as Hrep.
  destruct (analyzeAll_hits cfg w schedule repos st0) as (Hdisk & _ & _ & Hret & Hreq).
  destruct (analyzeAll_settles cfg w schedule repos false st0 i r Hi) as [record Ht].
  fold final in Hrep, Hdisk, Hret, Hreq, Ht.
  assert (record = found) as -> by (now apply (Hret i _ record stored Ht eq_refl)).
  assert (Hget : CacheService.getAnalysis (disk st0) (full_name r) = Some (Complete found))
    by (unfold CacheService.getAnalysis; now rewrite Hst).
  repeat split; try assumption.
  - now apply (pushed_in_results _ _ i _ found Hrep Ht).
  - intros n Hin. destruct (Hreq _ _ Hin) as [H0|Hnone]; [assumption|]. congruence.
  - now apply Hdisk.
Qed.

(** What [getAnalysis] returns is flagged as cached, whatever was stored. *)
Lemma getAnalysis_forces_cached (disk : gmap string FileContent) (repoName : string)
    (found : AnalysisResult) :
  CacheService.getAnalysis disk repoName = Some (Complete found) -> cached found = true.
Proof. intros H. now apply getAnalysis_marks in H as (stored & _ & ->). Qed.

End RecordTheorems.



Lemma cache_hit_short_circuits_witness :
  let stored :=
    {| repo := Sample.item "a/b";
       categorization :=
         {| category := "CLI & Terminal"; confidence := 85; reasoning := "stored" |};
       webSearchCalls := 0;
       cached := false;
       timestamp := 0;
       failed := None;
       error := None |} in
  let st0 := AnalyzerService.create {[ "cache/analysis/a-b.json" := Stored stored ]} in
  let final := @AnalyzerService.analyzeAll flatRuntime defaultConfig
                 (Sample.world Sample.frontend true) [] [Sample.item "a/b"] false st0 in
  In (CacheService.markCached stored) (AnalyzerService.results final)
  /\ forall n, ~ In ("a/b", n) (AnalyzerService.requests final).
Proof.
  intros stored st0 final.
  destruct (@cache_hit_short_circuits flatRuntime defaultConfig
              (Sample.world Sample.frontend true) [] [Sample.item "a/b"] st0
              0 (Sample.item "a/b") stored)
    as (_ & _ & _ & _ & _ & _ & _ & Hin & Hreq & _).
  - reflexivity.
  - vm_compute. reflexivity.
  - split; [exact Hin|]. intros n Hn. exact (Hreq n Hn).
Defined.

(* ===================================================================== *)
(** * More about a call of analyzeAll                                     *)
(* ===================================================================== *)

Section IndexedSums.

Context {A : Type}.

Lemma sum_imap_insert (g : nat -> A -> nat) (l : list A) (i : nat) (t t' : A) :
  l !! i = Some t ->
  list_sum (imap g (<[i := t']> l)) + g i t = list_sum (imap g l) + g i t'.
Proof.
  revert g i; induction l as [|a l IH]; intros g [|i] Hi; simpl in *; try discriminate.
  - injection Hi as ->. lia.
  - specialize (IH (g ∘ S) i Hi). unfold compose in IH at 2 4. lia.
Qed.

Lemma sum_imap_all (g : nat -> A -> nat) (h : nat -> nat) (l : list A) (k : nat) :
  (forall j t, l !! j = Some t -> g (k + j) t = h (k + j)) ->
  list_sum (imap (fun j => g (k + j)) l) = list_sum (List.map h (seq k (length l))).
Proof.
  revert k; induction l as [|a l IH]; intros k Hall; [reflexivity|].
  rewrite imap_cons. cbn [length seq List.map].
  change (g (k + 0) a + list_sum (imap ((fun j => g (k + j)) ∘ S) l)
          = h k + list_sum (List.map h (seq (S k) (length l)))).
  rewrite (Hall 0 a eq_refl), Nat.add_0_r, <- (IH (S k)).
  - do 2 f_equal. apply imap_ext. intros j t _. simpl. f_equal. lia.
  - intros j t Hj. replace (S k + j) with (k + S j) by lia. now apply Hall.
Qed.

End IndexedSums.

Lemma running_busy (st : AnalyzerService.Pipeline) :
  AnalyzerService.running st = list_sum (List.map busy (AnalyzerService.tasks st)).
Proof.
  unfold AnalyzerService.running. induction (AnalyzerService.tasks st) as [|t l IH];
    [reflexivity|].
  simpl. unfold busy at 1. destruct (AnalyzerService.isRunning t); simpl; lia.
Qed.

Lemma busy_phase (t : AnalyzerService.Task) :
  busy t = match AnalyzerService.phase t with
           | AnalyzerService.Classifying _ | AnalyzerService.Saving _ _ _ => 1
           | _ => 0
           end.
Proof. unfold busy, AnalyzerService.isRunning. now destruct (AnalyzerService.phase t). Qed.

Lemma map_filter_perm {A B : Type} (f : A -> B) (p : A -> bool) (l l' : list A) :
  l ≡ₚ l' -> List.map f (List.filter p l) ≡ₚ List.map f (List.filter p l').
Proof.
  induction 1 as [|x l l' _ IH|x y l|l l' l'' _ IH1 _ IH2]; simpl.
  - reflexivity.
  - destruct (p x); simpl; [now constructor | assumption].
  - destruct (p x), (p y); simpl; try reflexivity. apply perm_swap.
  - now transitivity (List.map f (List.filter p l')).
Qed.

Section MorePipelineInvariants.

Import AnalyzerService.

Context {R : Runtime} (cfg : EnvConfig) (w : World).

Ltac at_task Hj :=
  cbn [tasks cacheHit cacheMiss classified saved caught pushed cacheBroken counted] in Hj;
  apply saving_lookup in Hj as [[? ->]|[? Hj]].

Ltac moves Hm :=
  destruct Hm as [Hn|t r Hi Hp|t Hi Hp Hwait|t f Hi Hp Hcan Hskip Hg|t Hi Hp Hcan Hg
                 |t s resp a Hi Hp Hc|t s e a Hi Hp Hc
                 |t s r k d Hi Hp Hs|t s r k e Hi Hp Hs|t r Hi Hp
                 |t c Hi Hp Hcan Hskip Hg].

Lemma askedFor_phase (skipCache : bool) (disk0 : gmap string FileContent) (t t' : Task) :
  item t' = item t -> asked skipCache disk0 t' = asked skipCache disk0 t ->
  askedFor skipCache disk0 t' = askedFor skipCache disk0 t.
Proof. unfold askedFor. now intros -> ->. Qed.

Lemma Asked_step (skipCache : bool) (disk0 : gmap string FileContent)
    (requests0 : list (string * nat)) (st st' : Pipeline) (i : nat) :
  Traced skipCache disk0 st ->
  Asked skipCache disk0 requests0 st -> Move cfg w skipCache st i st' ->
  Asked skipCache disk0 requests0 st'.
Proof.
  intros [Hgrows Hrun] (Hreq & Hsav) Hm. moves Hm.
  1, 2, 3: exact (conj Hreq Hsav).
  all: try (assert (Hpast : brokenEntry skipCache disk0 (item t) = false)
              by (apply (Hrun i t Hi); unfold isRunning; now rewrite Hp)).
  all: unfold Asked;
       cbn [requests tasks cacheHit cacheMiss classified saved caught pushed
            cacheBroken counted].
  all: split; [|intros j u s0 r0 k0 Hj Hu; at_task Hj; [|eauto]; try discriminate].
  - (* the cache has a record *)
    apply getAnalysis_marks in Hg as (stored & _ & ->).
    rewrite (omap_insert_same (askedFor skipCache disk0) _ _ _ _ Hi); [exact Hreq|].
    unfold askedFor, asked. cbn. now rewrite Hp.
  - (* the cache has nothing *)
    rewrite (omap_insert_same (askedFor skipCache disk0) _ _ _ _ Hi); [exact Hreq|].
    unfold askedFor, asked. cbn. now rewrite Hp.
  - (* categorize resolved *)
    rewrite (omap_insert_new (askedFor skipCache disk0) _ _ _ _ (full_name (item t)) Hi);
      [|unfold askedFor, asked; now rewrite Hp | reflexivity].
    rewrite map_app, Hreq. cbn [List.map fst]. rewrite <- app_assoc.
    apply Permutation_app_head. symmetry. apply Permutation_cons_append.
  - cbn in Hu. now injection Hu as _ <- _.
  - (* categorize threw *)
    rewrite (omap_insert_new (askedFor skipCache disk0) _ _ _ _ (full_name (item t)) Hi);
      [|unfold askedFor, asked; now rewrite Hp
       |unfold askedFor, asked; cbn; now rewrite Hpast].
    rewrite map_app, Hreq. cbn [List.map fst]. rewrite <- app_assoc.
    apply Permutation_app_head. symmetry. apply Permutation_cons_append.
  - (* saveAnalysis resolved *)
    rewrite (omap_insert_same (askedFor skipCache disk0) _ _ _ _ Hi); [exact Hreq|].
    unfold askedFor, asked. cbn. now rewrite Hp, (Hsav i t s r k Hi Hp), Hpast.
  - (* saveAnalysis threw *)
    rewrite (omap_insert_same (askedFor skipCache disk0) _ _ _ _ Hi); [exact Hreq|].
    unfold askedFor, asked. cbn. now rewrite Hp, Hpast.
  - (* the caller pushes *)
    rewrite (omap_insert_same (askedFor skipCache disk0) _ _ _ _ Hi); [exact Hreq|].
    unfold askedFor, asked. cbn. now rewrite Hp.
  - (* the cache has a document without categorization *)
    rewrite (omap_insert_same (askedFor skipCache disk0) _ _ _ _ Hi); [exact Hreq|].
    unfold askedFor, asked. cbn. rewrite Hp.
    subst skipCache.
    now rewrite (brokenEntry_malformed disk0 (item t) c
                   (malformed_at_start disk0 (disk st) _ c Hgrows Hg)).
Qed.

Lemma charged_insert (skipCache : bool) (disk0 : gmap string FileContent)
    (f : Completion GeminiResponse * nat -> nat) (ts : list Task)
    (i : nat) (t t' : Task) :
  ts !! i = Some t ->
  charged cfg w skipCache disk0 f (<[i := t']> ts)
  + (if asked skipCache disk0 t
     then f (GeminiService.categorize cfg (endpoint w i)) else 0)
  = charged cfg w skipCache disk0 f ts
    + (if asked skipCache disk0 t'
       then f (GeminiService.categorize cfg (endpoint w i)) else 0).
Proof.
  intros Hi. unfold charged.
  exact (sum_imap_insert
           (fun j u => if asked skipCache disk0 u
                       then f (GeminiService.categorize cfg (endpoint w j)) else 0)
           ts i t t' Hi).
Qed.

Lemma Charged_step (skipCache : bool) (disk0 : gmap string FileContent)
    (s0 : AnalyzerStats) (st st' : Pipeline) (i : nat) :
  Traced skipCache disk0 st ->
  Charged cfg w skipCache disk0 s0 st -> Move cfg w skipCache st i st' ->
  Charged cfg w skipCache disk0 s0 st'.
Proof.
  intros [Hgrows Hrun] (Ha & Hk & Hs' & Hsav) Hm. moves Hm.
  1, 2, 3: exact (conj Ha (conj Hk (conj Hs' Hsav))).
  all: try (assert (Hpast : brokenEntry skipCache disk0 (item t) = false)
              by (apply (Hrun i t Hi); unfold isRunning; now rewrite Hp)).
  all: try (assert (Hbroken : brokenEntry skipCache disk0 (item t) = true)
              by (subst skipCache; apply brokenEntry_malformed with c;
                  now apply (malformed_at_start disk0 (disk st)))).
  all: unfold Charged;
       cbn [stats tasks cacheHit cacheMiss classified saved caught pushed
            cacheBroken counted
            Stats.analyzed Stats.totalTokens Stats.totalWebSearches].
  all: try remember (getErrorMessage (Foreign (noCategorization c))) as message
             eqn:Hmessage in *.
  all: match goal with
       | |- context [<[_ := ?t']> _] =>
           pose proof (charged_insert skipCache disk0 resolved _ _ _ t' Hi) as H1;
           pose proof (charged_insert skipCache disk0 tokensOf _ _ _ t' Hi) as H2;
           pose proof (charged_insert skipCache disk0 searchesOf _ _ _ t' Hi) as H3
       end.
  all: unfold asked in H1, H2, H3; rewrite Hp in H1, H2, H3;
       cbn [phase item] in H1, H2, H3.
  all: try (apply getAnalysis_marks in Hg as (stored & _ & ->)).
  all: try rewrite (Hsav i t s r k Hi Hp) in H1, H2, H3.
  all: try rewrite Hpast in H1, H2, H3.
  all: try rewrite Hbroken in H1, H2, H3.
  all: try rewrite Hc in H1, H2, H3.
  all: cbn in H1, H2, H3.
  all: repeat split; try lia.
  all: intros j u s0' r0 k0 Hj Hu; at_task Hj; [|eauto]; try discriminate.
  cbn in Hu. now injection Hu as _ <- _.
Qed.

Lemma Bounded_step (skipCache : bool) (st st' : Pipeline) (i : nat) :
  Bounded cfg st -> Move cfg w skipCache st i st' -> Bounded cfg st'.
Proof.
  unfold Bounded. rewrite !running_busy. intros Hb Hm. moves Hm.
  1, 2, 3: exact Hb.
  all: cbn [tasks cacheHit cacheMiss classified saved caught pushed cacheBroken counted].
  all: match goal with
       | |- context [<[_ := ?t']> _] => pose proof (sum_insert busy _ _ _ t' Hi) as Hsum
       end.
  all: rewrite (busy_phase t), Hp in Hsum.
  all: match type of Hsum with
       | context [busy ?t'] => rewrite (busy_phase t') in Hsum; cbn [phase] in Hsum
       end.
  all: try lia.
  (* the queue calls a function *)
  unfold canStart in Hcan. apply andb_true_iff in Hcan as [Hlt _].
  apply Nat.ltb_lt in Hlt. rewrite running_busy in Hlt. lia.
Qed.

Lemma AllHits_step (disk0 : gmap string FileContent) (requests0 : list (string * nat))
    (s0 : AnalyzerStats) (st st' : Pipeline) (i : nat) :
  AllHits disk0 requests0 s0 st -> Move cfg w false st i st' ->
  AllHits disk0 requests0 s0 st'.
Proof.
  intros (Hd & Hr & Ht & Ha & Hc' & Hf & Hk & Hs') Hm. moves Hm.
  1, 2, 3: exact (conj Hd (conj Hr (conj Ht (conj Ha (conj Hc' (conj Hf (conj Hk Hs'))))))).
  - (* the cache has the item *)
    unfold AllHits.
    cbn [stats disk requests completed tasks cacheHit
         Stats.analyzed Stats.cached Stats.failed Stats.totalTokens Stats.totalWebSearches].
    split; [assumption|]. split; [assumption|].
    split; [|repeat split; (assumption || lia)].
    intros j u Hj. apply saving_lookup in Hj as [[_ ->]|[_ Hj]]; [|now apply (Ht j)].
    cbn [item phase]. split; [now apply (Ht i)|].
    rewrite <- Hd. unfold cachedRecord. now rewrite Hg.
  - (* the cache does not have it *)
    exfalso. destruct Hg as [Hg|Hg]; [discriminate|].
    destruct (Ht i t Hi) as [[found Hfound] _]. rewrite Hd in Hg.
    unfold cachedRecord in Hfound. rewrite Hg in Hfound. discriminate.
  - exfalso. destruct (Ht i t Hi) as [_ Hph]. now rewrite Hp in Hph.
  - exfalso. destruct (Ht i t Hi) as [_ Hph]. now rewrite Hp in Hph.
  - exfalso. destruct (Ht i t Hi) as [_ Hph]. now rewrite Hp in Hph.
  - exfalso. destruct (Ht i t Hi) as [_ Hph]. now rewrite Hp in Hph.
  - (* the caller pushes *)
    unfold AllHits.
    cbn [stats disk requests completed tasks pushed].
    split; [assumption|]. split; [assumption|].
    split; [|repeat split; assumption].
    intros j u Hj. apply saving_lookup in Hj as [[_ ->]|[_ Hj]]; [|now apply (Ht j)].
    cbn [item phase]. destruct (Ht i t Hi) as [Hsome Hph]. rewrite Hp in Hph. now split.
  - (* the cache has a document without categorization *)
    exfalso. destruct (Ht i t Hi) as [[found Hfound] _]. rewrite Hd in Hg.
    unfold cachedRecord in Hfound. rewrite Hg in Hfound. discriminate.
Qed.


Lemma Skipped_step (s0 : AnalyzerStats) (st st' : Pipeline) (i : nat) :
  Skipped s0 st -> Move cfg w true st i st' -> Skipped s0 st'.
Proof.
  intros (Hc' & Hsav & Hret) Hm. moves Hm.
  1, 2, 3: exact (conj Hc' (conj Hsav Hret)).
  all: try discriminate Hskip.
  all: unfold Skipped; split; [exact Hc'|]; split.
  all: try (intros j u s0' r0 k0 Hj Hu; at_task Hj; [discriminate | eauto]).
  all: try (intros j u r0 Hj Hu; at_task Hj; [|eauto]).
  - discriminate.
  - intros j u s0' r0 k0 Hj Hu. at_task Hj; [|eauto].
    cbn in Hu. injection Hu as _ <- _. now split.
  - discriminate.
  - cbn in Hu. injection Hu as <-. now split.
  - cbn in Hu. injection Hu as <-. now apply (Hsav i t s r k).
  - cbn in Hu. injection Hu as <-. now split.
  - cbn in Hu. injection Hu as <-. apply (Hret i t r Hi).
    unfold returnedRecord. now rewrite Hp.
Qed.

End MorePipelineInvariants.

Section MorePipelineTheorems.

Import AnalyzerService.

Context {R : Runtime} (cfg : EnvConfig) (w : World).

Lemma sum_imap_zero {A : Type} (g : nat -> A -> nat) (l : list A) :
  (forall j t, l !! j = Some t -> g j t = 0) -> list_sum (imap g l) = 0.
Proof.
  revert g; induction l as [|a l IH]; intros g Hall; [reflexivity|].
  rewrite imap_cons.
  change (g 0 a + list_sum (imap (g ∘ S) l) = 0).
  rewrite (Hall 0 a eq_refl), IH; [reflexivity|].
  intros j t Hj. now apply (Hall (S j)).
Qed.

Lemma omap_cons_none {A B : Type} (f : A -> option B) (a : A) (l : list A) :
  f a = None -> omap f (a :: l) = omap f l.
Proof. intros H. unfold omap. simpl. now rewrite H. Qed.

Lemma omap_queued {B : Type} (f : Task -> option B) (repos : list GitHubRepo) :
  (forall r, f {| item := r; phase := Queued |} = None) ->
  omap f (List.map (fun r => {| item := r; phase := Queued |}) repos) = [].
Proof.
  intros Hf. induction repos as [|r repos IH]; [reflexivity|].
  cbn [List.map]. now rewrite omap_cons_none.
Qed.

Lemma Asked_start (skipCache : bool) (repos : list GitHubRepo) (st0 : Pipeline) :
  Asked skipCache (disk st0) (requests st0) (start repos st0).
Proof.
  split.
  - unfold start. cbn [requests tasks].
    rewrite omap_queued by reflexivity. now rewrite app_nil_r.
  - intros j t s r k Hj Hp. apply start_lookup in Hj as [Hq _]. congruence.
Qed.

Lemma Charged_start (skipCache : bool) (repos : list GitHubRepo) (st0 : Pipeline) :
  Charged cfg w skipCache (disk st0) (stats st0) (start repos st0).
Proof.
  assert (Hzero : forall f,
            charged cfg w skipCache (disk st0) f (tasks (start repos st0)) = 0).
  { intros f. unfold charged. apply sum_imap_zero. intros j t Hj.
    apply start_lookup in Hj as [Hq _]. unfold asked. now rewrite Hq. }
  unfold Charged. rewrite !Hzero.
  split; [cbn; lia|]. split; [cbn; lia|]. split; [cbn; lia|].
  intros j t s r k Hj Hp. apply start_lookup in Hj as [Hq _]. congruence.
Qed.

Lemma Bounded_start (repos : list GitHubRepo) (st0 : Pipeline) :
  Bounded cfg (start repos st0).
Proof.
  unfold Bounded. rewrite running_busy. unfold start. cbn [tasks].
  assert (H0 : list_sum (List.map busy
                 (List.map (fun r => {| item := r; phase := Queued |}) repos)) = 0)
    by (induction repos; simpl; auto).
  rewrite H0. lia.
Qed.

Lemma Fifo_start (repos : list GitHubRepo) (st0 : Pipeline) : Fifo (start repos st0).
Proof.
  intros j k tj tk _ _ Hk _. apply start_lookup in Hk as [Hq _].
  unfold isQueued. now rewrite Hq.
Qed.

(** X1: the queue's discipline.  At every moment of a call of
    [analyzeAll], whatever the order in which the queued functions take
    their steps, no more than [CATEGORIZER_CONCURRENCY] of them are
    running (past the queue and not yet returned), and they leave the
    queue in the order of the batch: behind a function still queued,
    every function is still queued. *)
Theorem queue_discipline (schedule : list nat) (repos : list GitHubRepo)
    (skipCache : bool) (st0 : Pipeline) :
  let st := run cfg w skipCache schedule (start repos st0) in
  running st <= Pos.to_nat (CATEGORIZER_CONCURRENCY cfg)
  /\ Fifo st.
Proof.
  intros st. split.
  - apply (run_invariant cfg w skipCache (Bounded cfg)).
    + intros s i s'. apply Bounded_step.
    + apply Bounded_start.
  - apply run_fifo, Fifo_start.
Qed.

(** What holds of the queued functions when [analyzeAll] returns: each
    has handed over a record, and a record not flagged as cached is about
    the item of its function. *)
Lemma final_tasks (schedule : list nat) (repos : list GitHubRepo) (skipCache : bool)
    (st0 : Pipeline) :
  Forall (fun t => exists r, phase t = Pushed r /\ (cached r = false -> repo r = item t))
    (tasks (analyzeAll cfg w schedule repos skipCache st0)).
Proof.
  apply Forall_lookup. intros j t Hj.
  destruct (final_task_item cfg w schedule repos skipCache st0 j t Hj) as [_ [r Hp]].
  exists r. split; [exact Hp|]. intros Hc.
  destruct (analyzeAll_writes cfg w schedule repos skipCache st0) as (_ & _ & Hexp).
  destruct (Hexp j t r Hj)
    as [Hcached|[(_ & e & n & time & _ & ->)|[(_ & resp & n & _ & Hr)|(_ & c & time & ->)]]].
  - unfold returnedRecord. now rewrite Hp.
  - congruence.
  - reflexivity.
  - destruct Hr as [(_ & Hrepo & _)|(e & time & ->)]; [assumption | reflexivity].
  - reflexivity.
Qed.

Lemma settled_asked (skipCache : bool) (disk0 : gmap string FileContent) (ts : list Task) :
  Forall (fun t => exists r, phase t = Pushed r /\ (cached r = false -> repo r = item t)) ts ->
  omap (askedFor skipCache disk0) ts
  = List.map (fun r => full_name (repo r))
      (List.filter (fun r => negb (cached r) && negb (brokenEntry skipCache disk0 (repo r)))
         (omap pushedRecord ts)).
Proof.
  induction 1 as [|t ts (r & Hp & Hr) _ IH]; [reflexivity|].
  rewrite (omap_cons_some pushedRecord t ts r) by (unfold pushedRecord; now rewrite Hp).
  cbn [List.filter]. destruct (cached r) eqn:Hc; cbn [negb andb List.map].
  - rewrite omap_cons_none; [exact IH|]. unfold askedFor, asked. now rewrite Hp, Hc.
  - rewrite (Hr eq_refl).
    destruct (brokenEntry skipCache disk0 (item t)) eqn:Hb; cbn [negb List.map].
    + rewrite omap_cons_none; [exact IH|]. unfold askedFor, asked. now rewrite Hp, Hc, Hb.
    + rewrite (omap_cons_some (askedFor skipCache disk0) t ts (full_name (item t)));
        [|unfold askedFor, asked; now rewrite Hp, Hc, Hb].
      now rewrite IH, (Hr eq_refl).
Qed.

Lemma analyzeAll_asked (schedule : list nat) (repos : list GitHubRepo) (skipCache : bool)
    (st0 : Pipeline) :
  Asked skipCache (disk st0) (requests st0) (analyzeAll cfg w schedule repos skipCache st0).
Proof.
  unfold analyzeAll. eapply proj2.
  apply (run_invariant cfg w skipCache
           (fun st => Traced skipCache (disk st0) st
                      /\ Asked skipCache (disk st0) (requests st0) st)).
  - intros st i st' [Ht Ha] Hm. split; [now apply (Traced_step cfg w skipCache _ st _ i)|].
    now apply (Asked_step cfg w skipCache _ _ st _ i).
  - split; [apply Traced_start | apply Asked_start].
Qed.

Lemma analyzeAll_charged (schedule : list nat) (repos : list GitHubRepo) (skipCache : bool)
    (st0 : Pipeline) :
  Charged cfg w skipCache (disk st0) (stats st0)
    (analyzeAll cfg w schedule repos skipCache st0).
Proof.
  unfold analyzeAll. eapply proj2.
  apply (run_invariant cfg w skipCache
           (fun st => Traced skipCache (disk st0) st
                      /\ Charged cfg w skipCache (disk st0) (stats st0) st)).
  - intros st i st' [Ht Ha] Hm. split; [now apply (Traced_step cfg w skipCache _ st _ i)|].
    now apply (Charged_step cfg w skipCache _ _ st _ i).
  - split; [apply Traced_start | apply Charged_start].
Qed.

Lemma filter_same {A : Type} (p q : A -> bool) (l : list A) :
  (forall x, In x l -> p x = q x) -> List.filter p l = List.filter q l.
Proof.
  induction l as [|x l IH]; intros H; [reflexivity|]. cbn.
  rewrite (H x (or_introl eq_refl)), IH; [reflexivity|].
  intros y Hy. apply H. now right.
Qed.

(** X2: one classification for each record that went past the cache.
    The calls of [gemini.categorize] a call of [analyzeAll] makes are, up
    to their order, the records it returns that are not flagged as cached
    and are not failure records of an item before which the cache stood
    with a document without a categorization; each call is made for the
    repository of its record, and sends one request at least and one more
    than [RETRY_MAX_ATTEMPTS] at most.  When the cache stands before no
    item of the batch, the calls are the records not flagged as cached. *)
Theorem one_classification_per_uncached_record (schedule : list nat)
    (repos : list GitHubRepo) (skipCache : bool) (st0 : Pipeline) :
  let final := analyzeAll cfg w schedule repos skipCache st0 in
  List.map fst (requests final)
  ≡ₚ (List.map fst (requests st0)
      ++ List.map (fun r => full_name (repo r))
           (List.filter
              (fun r => negb (cached r) && negb (brokenEntry skipCache (disk st0) (repo r)))
              (results final)))%list
  /\ (forall name n,
        In (name, n) (requests final) ->
        In (name, n) (requests st0)
        \/ 1 <= n <= S (Pos.to_nat (RETRY_MAX_ATTEMPTS cfg)))
  /\ ((forall r, In r repos -> brokenEntry skipCache (disk st0) r = false) ->
      List.map fst (requests final)
      ≡ₚ (List.map fst (requests st0)
          ++ List.map (fun r => full_name (repo r))
               (List.filter (fun r => negb (cached r)) (results final)))%list).
Proof.
  intros final.
  assert (Hcalls : List.map fst (requests final)
            ≡ₚ (List.map fst (requests st0)
                ++ List.map (fun r => full_name (repo r))
                     (List.filter
                        (fun r => negb (cached r)
                                  && negb (brokenEntry skipCache (disk st0) (repo r)))
                        (results final)))%list).
  { destruct (analyzeAll_asked schedule repos skipCache st0) as [Hreq _].
    fold final in Hreq. rewrite Hreq. apply Permutation_app_head.
    rewrite (settled_asked _ _ _ (final_tasks schedule repos skipCache st0)).
    apply map_filter_perm. symmetry.
    apply (analyzeAll_reports cfg w schedule repos skipCache st0). }
  split; [exact Hcalls|]. split.
  - unfold final, analyzeAll.
    apply (run_invariant cfg w skipCache
             (fun st => forall name n,
                In (name, n) (requests st) ->
                In (name, n) (requests st0)
                \/ 1 <= n <= S (Pos.to_nat (RETRY_MAX_ATTEMPTS cfg)))).
    + intros st i st' Hst Hm name n Hin.
      destruct Hm as [Hn|t r Hi Hp|t Hi Hp Hwait|t f Hi Hp Hcan Hskip Hg|t Hi Hp Hcan Hg
                     |t s resp a Hi Hp Hc|t s e a Hi Hp Hc
                     |t s r k d Hi Hp Hs|t s r k e Hi Hp Hs|t r Hi Hp
                     |t c Hi Hp Hcan Hskip Hg];
        cbn [requests cacheHit cacheMiss classified saved caught pushed
             cacheBroken counted] in Hin;
        try (now apply Hst).
      * apply in_app_or in Hin as [Hin|[[= <- <-]|[]]]; [now apply Hst|]. right.
        pose proof (categorize_attempts cfg (endpoint w i)) as Hb.
        rewrite Hc in Hb. exact Hb.
      * apply in_app_or in Hin as [Hin|[[= <- <-]|[]]]; [now apply Hst|]. right.
        pose proof (categorize_attempts cfg (endpoint w i)) as Hb.
        rewrite Hc in Hb. exact Hb.
    + intros name n Hin. now left.
  - intros Hnone. rewrite Hcalls. apply Permutation_app_head.
    rewrite (filter_same
               (fun r => negb (cached r) && negb (brokenEntry skipCache (disk st0) (repo r)))
               (fun r => negb (cached r))); [reflexivity|].
    intros r Hin. destruct (cached r) eqn:Hc; [reflexivity|]. cbn [negb andb].
    destruct (results_returned _ _ _ (analyzeAll_reports cfg w schedule repos skipCache st0) Hin)
      as (j & t & Hj & Hp).
    pose proof (final_tasks schedule repos skipCache st0) as Hfinal.
    rewrite Forall_lookup in Hfinal. destruct (Hfinal j t Hj) as (r' & Hp' & Hrepo).
    assert (r' = r) as -> by congruence.
    rewrite (Hrepo Hc).
    destruct (final_task_item cfg w schedule repos skipCache st0 j t Hj) as [Hitem _].
    rewrite Hnone; [reflexivity|].
    apply list_elem_of_In. now apply list_elem_of_lookup_2 with j.
Qed.

(** X3: the counters of the classifier are exact.  After a call of
    [analyzeAll], [analyzed] has grown by the number of calls of
    [gemini.categorize] that resolved, and [totalTokens] and
    [totalWebSearches] by the token and lookup counts these calls
    reported, whether the cache write that followed succeeded or not.  The
    calls counted are those for the items whose record, the one in
    [results], went past the cache ([asked]): the calls that
    [one_classification_per_uncached_record] finds in the log. *)
Theorem classifier_counters_exact (schedule : list nat) (repos : list GitHubRepo)
    (skipCache : bool) (st0 : Pipeline) :
  let final := analyzeAll cfg w schedule repos skipCache st0 in
  Stats.analyzed (stats final)
  = Stats.analyzed (stats st0)
    + charged cfg w skipCache (disk st0) resolved (tasks final)
  /\ Stats.totalTokens (stats final)
     = Stats.totalTokens (stats st0)
       + charged cfg w skipCache (disk st0) tokensOf (tasks final)
  /\ Stats.totalWebSearches (stats final)
     = Stats.totalWebSearches (stats st0)
       + charged cfg w skipCache (disk st0) searchesOf (tasks final)
  /\ Forall2 (fun t r => item t = r
                         /\ exists record, phase t = Pushed record
                                           /\ In record (results final))
       (tasks final) repos
  /\ List.map fst (requests final)
     ≡ₚ (List.map fst (requests st0)
         ++ omap (askedFor skipCache (disk st0)) (tasks final))%list.
Proof.
  intros final.
  destruct (analyzeAll_charged schedule repos skipCache st0) as (Ha & Hk & Hs & _).
  destruct (analyzeAll_asked schedule repos skipCache st0) as [Hreq _].
  pose proof (analyzeAll_reports cfg w schedule repos skipCache st0) as Hrep.
  pose proof (analyzeAll_all_settled cfg w schedule repos skipCache st0) as Hset.
  fold final in Hrep, Hset.
  repeat split; try assumption.
  apply Forall2_same_length_lookup_2; [now apply Forall2_length in Hset|].
  intros j t r Hj Hr.
  destruct (Forall2_lookup_l _ _ _ _ _ Hset Hj) as (r' & Hr' & Hitem & record & Hp).
  split; [congruence|]. exists record. split; [exact Hp|].
  now apply (pushed_in_results _ _ j t record Hrep Hj).
Qed.

Lemma analyzeAll_all_hits (schedule : list nat) (repos : list GitHubRepo) (st0 : Pipeline) :
  (forall r, In r repos -> is_Some (cachedRecord (disk st0) (full_name r))) ->
  AllHits (disk st0) (requests st0) (stats st0) (analyzeAll cfg w schedule repos false st0).
Proof.
  intros Hall. unfold analyzeAll. apply run_invariant.
  - intros st i st'. apply AllHits_step.
  - unfold AllHits. split; [reflexivity|]. split; [reflexivity|].
    split; [|cbn; repeat split; lia].
    intros j t Hj. apply start_lookup in Hj as [Hq Hj]. rewrite Hq. split; [|exact I].
    apply Hall. apply list_elem_of_In. now apply list_elem_of_lookup_2 with j.
Qed.

Lemma settled_hits (disk0 : gmap string FileContent) (ts : list Task)
    (repos : list GitHubRepo) :
  Forall2 (fun t r => item t = r /\ exists record, phase t = Pushed record) ts repos ->
  Forall (fun t => match phase t with
                   | Pushed r => cachedRecord disk0 (full_name (item t)) = Some r
                   | _ => True
                   end) ts ->
  omap pushedRecord ts
  = omap (fun r => cachedRecord disk0 (full_name r)) repos.
Proof.
  induction 1 as [|t r ts repos [Hi [record Hp]] _ IH]; [reflexivity|].
  intros Hall. apply Forall_cons in Hall as [Ht Hall]. rewrite Hp, Hi in Ht.
  rewrite (omap_cons_some pushedRecord t ts record) by (unfold pushedRecord; now rewrite Hp).
  rewrite (omap_cons_some _ r repos record Ht). now rewrite IH.
Qed.

Lemma cachedRecord_cached (disk : gmap string FileContent) (repoName : string)
    (found : AnalysisResult) :
  cachedRecord disk repoName = Some found -> cached found = true.
Proof. intros H. now apply cachedRecord_stored in H as (stored & _ & ->). Qed.

(** The functions of a batch the cache stands before no item of ran
    [completed++] once each. *)
Lemma completed_exactly (schedule : list nat) (repos : list GitHubRepo) (skipCache : bool)
    (st0 : Pipeline) :
  (forall r, In r repos -> brokenEntry skipCache (disk st0) r = false) ->
  completed (analyzeAll cfg w schedule repos skipCache st0) = length repos.
Proof.
  intros Hnone.
  destruct (analyzeAll_outcomes cfg w schedule repos skipCache st0) as (_ & Hdone & _).
  rewrite Hdone, (brokenHits_none skipCache (disk st0)); [lia|].
  apply (settled_items _ repos (fun r => brokenEntry skipCache (disk st0) r = false));
    [|exact Hnone].
  apply analyzeAll_all_settled.
Qed.

(** X4: a batch the cache has costs nothing.  When the cache directory
    holds a readable record under the key of every item of the batch, a
    call of [analyzeAll] that does not skip the cache calls the classifier
    for no item and writes no file; the records it returns are those
    [getAnalysis] reads, each flagged as cached; and of the counters only
    [cached] moves, by the size of the batch ([total] is set to it). *)
Theorem cached_batch_costs_nothing (schedule : list nat) (repos : list GitHubRepo)
    (st0 : Pipeline) :
  (forall r, In r repos -> is_Some (cachedRecord (disk st0) (full_name r))) ->
  let final := analyzeAll cfg w schedule repos false st0 in
  requests final = requests st0
  /\ disk final = disk st0
  /\ results final
     ≡ₚ omap (fun r => cachedRecord (disk st0) (full_name r)) repos
  /\ length (results final) = length repos
  /\ Forall (fun r => cached r = true) (results final)
  /\ stats final
     = {| Stats.total := length repos;
          Stats.analyzed := Stats.analyzed (stats st0);
          Stats.cached := Stats.cached (stats st0) + length repos;
          Stats.failed := Stats.failed (stats st0);
          Stats.totalTokens := Stats.totalTokens (stats st0);
          Stats.totalWebSearches := Stats.totalWebSearches (stats st0) |}.
Proof.
  intros Hall final.
  destruct (analyzeAll_all_hits schedule repos st0 Hall)
    as (Hd & Hr & Ht & Ha & Hc & Hf & Hk & Hs).
  destruct (analyzeAll_outcomes cfg w schedule repos false st0) as (Htot & _).
  assert (Hdone : completed final = length repos).
  { apply completed_exactly. intros r Hin. apply brokenEntry_record. now apply Hall. }
  pose proof (analyzeAll_reports cfg w schedule repos false st0) as Hrep.
  pose proof (analyzeAll_all_settled cfg w schedule repos false st0) as Hset.
  fold final in Hd, Hr, Ht, Ha, Hc, Hf, Hk, Hs, Htot, Hdone, Hrep, Hset.
  assert (Hres : results final
                 ≡ₚ omap (fun r => cachedRecord (disk st0) (full_name r)) repos).
  { destruct Hrep as (_ & _ & _ & _ & Hres & _). rewrite Hres.
    rewrite (settled_hits (disk st0) _ _ Hset); [reflexivity|].
    apply Forall_lookup. intros j t Hj. destruct (Ht j t Hj) as [_ Hph].
    destruct (phase t); try exact I. exact Hph. }
  split; [exact Hr|]. split; [exact Hd|]. split; [exact Hres|].
  split; [|split].
  - destruct Hrep as (_ & _ & _ & _ & Hperm & _).
    rewrite (Permutation_length Hperm).
    now destruct (settled_reported _ _ Hset) as (_ & Hlen & _).
  - apply Forall_forall. intros r Hin.
    rewrite Hres in Hin.
    apply list_elem_of_omap in Hin as (item0 & _ & Hget).
    now apply cachedRecord_cached in Hget.
  - rewrite Hdone in Hc. destruct (stats final) as [tot an ca fa tk ws].
    cbn in Htot, Ha, Hc, Hf, Hk, Hs. now subst.
Qed.



End MorePipelineTheorems.

Section RunsAndTheCache.

Import AnalyzerService.

Context {R : Runtime} (cfg : EnvConfig).


Lemma analyzeAll_skipped (w : World) (schedule : list nat) (repos : list GitHubRepo)
    (st0 : Pipeline) :
  Skipped (stats st0) (analyzeAll cfg w schedule repos true st0).
Proof.
  unfold analyzeAll. apply run_invariant.
  - intros st i st'. apply Skipped_step.
  - split; [reflexivity|]. split.
    + intros j t s r k Hj Hp. apply start_lookup in Hj as [Hq _]. congruence.
    + intros j t r Hj Hr. apply start_lookup in Hj as [Hq _].
      unfold returnedRecord in Hr. rewrite Hq in Hr. discriminate.
Qed.

Lemma settled_fresh (ts : list Task) (repos : list GitHubRepo) :
  Forall2 (fun t r => item t = r /\ exists record, phase t = Pushed record) ts repos ->
  Forall (fun t => forall r, returnedRecord t = Some r -> cached r = false /\ repo r = item t)
    ts ->
  forall disk0,
  List.map repo (omap pushedRecord ts) = repos
  /\ Forall (fun r => cached r = false) (omap pushedRecord ts)
  /\ omap (askedFor true disk0) ts = List.map full_name repos
  /\ Forall (fun t => asked true disk0 t = true) ts.
Proof.
  induction 1 as [|t r ts repos [Hi [record Hp]] _ IH].
  - intros _ disk0. repeat split; constructor.
  - intros Hall disk0. apply Forall_cons in Hall as [Ht Hall].
    destruct (IH Hall disk0) as (IH1 & IH2 & IH3 & IH4).
    destruct (Ht record) as [Hc Hr]; [unfold returnedRecord; now rewrite Hp|].
    assert (Hask : asked true disk0 t = true) by (unfold asked; now rewrite Hp, Hc).
    rewrite (omap_cons_some pushedRecord t ts record) by (unfold pushedRecord; now rewrite Hp).
    rewrite (omap_cons_some (askedFor true disk0) t ts (full_name r))
      by (unfold askedFor; now rewrite Hask, Hi).
    cbn [List.map]. rewrite IH1, IH3, Hr, Hi.
    repeat split; try constructor; assumption.
Qed.

(** X6: a call that skips the cache classifies every item.  With
    [skipCache] set, no record returned is flagged as cached and each is
    about an item of the batch, every item having one; [gemini.categorize]
    is called once for every item; the counter [cached] stays as it was;
    and [analyzed], [totalTokens] and [totalWebSearches] grow by the number
    of calls that resolved and by the token and lookup counts they
    reported. *)
Theorem skip_cache_classifies_every_item (w : World) (schedule : list nat)
    (repos : list GitHubRepo) (st0 : Pipeline) :
  let final := analyzeAll cfg w schedule repos true st0 in
  let outcome j := GeminiService.categorize cfg (endpoint w j) in
  let total f := list_sum (List.map (fun j => f (outcome j)) (seq 0 (length repos))) in
  Forall (fun r => cached r = false) (results final)
  /\ List.map repo (results final) ≡ₚ repos
  /\ List.map fst (requests final)
     ≡ₚ (List.map fst (requests st0) ++ List.map full_name repos)%list
  /\ Stats.cached (stats final) = Stats.cached (stats st0)
  /\ Stats.analyzed (stats final) = Stats.analyzed (stats st0) + total resolved
  /\ Stats.totalTokens (stats final) = Stats.totalTokens (stats st0) + total tokensOf
  /\ Stats.totalWebSearches (stats final)
     = Stats.totalWebSearches (stats st0) + total searchesOf.
Proof.
  intros final outcome total.
  destruct (analyzeAll_skipped w schedule repos st0) as (Hc & _ & Hret).
  destruct (analyzeAll_asked cfg w schedule repos true st0) as [Hreq _].
  destruct (analyzeAll_charged cfg w schedule repos true st0) as (Ha & Hk & Hs & _).
  pose proof (analyzeAll_reports cfg w schedule repos true st0) as Hrep.
  pose proof (analyzeAll_all_settled cfg w schedule repos true st0) as Hset.
  pose proof (analyzeAll_length cfg w schedule repos true st0) as Hlen.
  fold final in Hc, Hret, Hreq, Ha, Hk, Hs, Hrep, Hset, Hlen.
  destruct Hrep as (_ & _ & _ & _ & Hperm & _).
  destruct (settled_fresh _ _ Hset) with (disk0 := disk st0)
    as (Hrepos & Hfresh & Hnames & Hasked).
  { apply Forall_lookup. intros j t Hj r Hr. now apply (Hret j t r). }
  assert (Hsum : forall f, charged cfg w true (disk st0) f (tasks final) = total f).
  { intros f. unfold charged, total. rewrite <- Hlen.
    apply (sum_imap_all
             (fun j t => if asked true (disk st0) t
                         then f (GeminiService.categorize cfg (endpoint w j)) else 0)
             (fun j => f (outcome j)) (tasks final) 0).
    intros j t Hj. rewrite Forall_lookup in Hasked. now rewrite (Hasked j t Hj). }
  rewrite !Hsum in *.
  repeat split; try assumption.
  - now rewrite Hperm.
  - now rewrite Hperm, Hrepos.
  - now rewrite Hreq, Hnames.
Qed.

End RunsAndTheCache.

Lemma cached_batch_costs_nothing_witness :
  let st0 := AnalyzerService.create
               {[ CacheService.getAnalysisPath "a/b" := Stored Sample.storedRecord ]} in
  let final := @AnalyzerService.analyzeAll flatRuntime defaultConfig
                 (Sample.world Sample.frontend true) [] [Sample.item "a/b"] false st0 in
  AnalyzerService.requests final = []
  /\ Stats.cached (AnalyzerService.stats final) = 1.
Proof.
  intros st0 final.
  destruct (@cached_batch_costs_nothing flatRuntime defaultConfig
              (Sample.world Sample.frontend true) [] [Sample.item "a/b"] st0)
    as (Hreq & _ & _ & _ & _ & Hstats).
  - intros r [<-|[]]. vm_compute. eauto.
  - fold final in Hreq, Hstats. split; [exact Hreq|]. now rewrite Hstats.
Defined.


Section BalanceAndProgress.

Import AnalyzerService.

Context {R : Runtime} (cfg : EnvConfig) (w : World).

Ltac at_task Hj :=
  cbn [tasks cacheHit cacheMiss classified saved caught pushed cacheBroken counted] in Hj;
  apply saving_lookup in Hj as [[? ->]|[? Hj]].

Ltac moves Hm :=
  destruct Hm as [Hn|t r Hi Hp|t Hi Hp Hwait|t f Hi Hp Hcan Hskip Hg|t Hi Hp Hcan Hg
                 |t s resp a Hi Hp Hc|t s e a Hi Hp Hc
                 |t s r k d Hi Hp Hs|t s r k e Hi Hp Hs|t r Hi Hp
                 |t c Hi Hp Hcan Hskip Hg].

Lemma lost_phase (skipCache : bool) (disk0 : gmap string FileContent) (j : nat) (t : Task) :
  lost cfg w skipCache disk0 j t
  = match phase t with
    | Returned r | Pushed r =>
        if isFailure r
           && (negb (cached r) && negb (brokenEntry skipCache disk0 (item t)))
        then resolved (GeminiService.categorize cfg (endpoint w j)) else 0
    | _ => 0
    end.
Proof. unfold lost, returnedRecord, asked. now destruct (phase t). Qed.

Lemma Balance_step (skipCache : bool) (disk0 : gmap string FileContent)
    (s0 : AnalyzerStats) (st st' : Pipeline) (i : nat) :
  Traced skipCache disk0 st ->
  Balance cfg w skipCache disk0 s0 st -> Move cfg w skipCache st i st' ->
  Balance cfg w skipCache disk0 s0 st'.
Proof.
  intros [Hgrows Hrun] (Ho & Hsav) Hm. unfold Balance, outcomes, lostWrites in *. moves Hm.
  1, 2, 3: exact (conj Ho Hsav).
  all: try (assert (Hpast : brokenEntry skipCache disk0 (item t) = false)
              by (apply (Hrun i t Hi); unfold isRunning; now rewrite Hp)).
  all: try (assert (Hbroken : brokenEntry skipCache disk0 (item t) = true)
              by (subst skipCache; apply brokenEntry_malformed with c;
                  now apply (malformed_at_start disk0 (disk st)))).
  all: cbn [stats completed tasks cacheHit cacheMiss classified saved caught pushed
            cacheBroken counted
            Stats.analyzed Stats.cached Stats.failed].
  all: try remember (getErrorMessage (Foreign (noCategorization c))) as message
             eqn:Hmessage in *.
  all: match goal with
       | |- context [<[_ := ?t']> _] =>
           pose proof (sum_insert saving _ _ _ t' Hi) as H1;
           pose proof (sum_imap_insert (lost cfg w skipCache disk0) _ _ _ t' Hi) as H2
       end.
  all: rewrite (saving_unfold t), Hp in H1;
       rewrite (lost_phase skipCache disk0 i t), Hp in H2.
  all: match type of H1 with
       | context [saving ?t'] => rewrite (saving_unfold t') in H1; cbn [phase] in H1
       end.
  all: match type of H2 with
       | context [lost _ _ _ _ ?j ?t'] =>
           rewrite (lost_phase skipCache disk0 j t') in H2; cbn [phase item] in H2
       end.
  all: try (apply getAnalysis_marks in Hg as (stored & _ & ->)).
  all: try (destruct (Hsav i t s r k Hi Hp) as [Hnf Hres]; rewrite ?Hnf, ?Hres in H2).
  all: try rewrite Hpast in H2.
  all: try rewrite Hbroken in H2.
  all: try rewrite Hc in H2.
  all: cbn in H2.
  all: split; [lia|].
  all: intros j u s0' r0 k0 Hj Hu; at_task Hj; [|eauto]; try discriminate.
  cbn in Hu. injection Hu as _ <- _. subst j. rewrite Hc. now split.
Qed.

Lemma Described_step (skipCache : bool) (st st' : Pipeline) (i : nat) :
  Described st -> Move cfg w skipCache st i st' -> Described st'.
Proof.
  intros (Hev & Hsav) Hm. moves Hm.
  1, 2, 3: exact (conj Hev Hsav).
  all: unfold Described;
       cbn [emitted tasks cacheHit cacheMiss classified saved caught pushed
            cacheBroken counted].
  all: split; [|intros j u s0 r0 k0 Hj Hu; at_task Hj; [|eauto]; try discriminate].
  - (* the cache has the item *)
    apply getAnalysis_marks in Hg as (stored & _ & ->).
    rewrite (omap_insert_new describe _ _ _ _
               (full_name (item t), true,
                Some (category (categorization stored)),
                Some (confidence (categorization stored)), false) Hi);
      [|unfold describe, returnedRecord; now rewrite Hp | reflexivity].
    rewrite map_app, Hev. symmetry. apply Permutation_cons_append.
  - (* the cache does not have it *)
    rewrite (omap_insert_same describe _ _ _ _ Hi); [exact Hev|].
    unfold describe, returnedRecord. cbn. now rewrite Hp.
  - (* categorize resolved *)
    rewrite (omap_insert_same describe _ _ _ _ Hi); [exact Hev|].
    unfold describe, returnedRecord. cbn. now rewrite Hp.
  - cbn in Hu. injection Hu as _ <- _. now split.
  - (* categorize threw *)
    rewrite (omap_insert_new describe _ _ _ _
               (full_name (item t), false, None, None, false) Hi);
      [|unfold describe, returnedRecord; now rewrite Hp | reflexivity].
    rewrite map_app, Hev. symmetry. apply Permutation_cons_append.
  - (* saveAnalysis resolved *)
    destruct (Hsav i t s r k Hi Hp) as [Hnc Hnf].
    rewrite (omap_insert_new describe _ _ _ _
               (full_name (item t), false,
                Some (category (categorization r)),
                Some (confidence (categorization r)), true) Hi);
      [|unfold describe, returnedRecord; now rewrite Hp
       |unfold describe, returnedRecord; cbn; now rewrite Hnc, Hnf].
    rewrite map_app, Hev. symmetry. apply Permutation_cons_append.
  - (* saveAnalysis threw *)
    rewrite (omap_insert_new describe _ _ _ _
               (full_name (item t), false, None, None, false) Hi);
      [|unfold describe, returnedRecord; now rewrite Hp | reflexivity].
    rewrite map_app, Hev. symmetry. apply Permutation_cons_append.
  - (* the caller pushes *)
    rewrite (omap_insert_same describe _ _ _ _ Hi); [exact Hev|].
    unfold describe, returnedRecord. cbn. now rewrite Hp.
  - (* the cache has a document without categorization *)
    rewrite (omap_insert_new describe _ _ _ _
               (full_name (item t), false, None, None, false) Hi);
      [|unfold describe, returnedRecord; now rewrite Hp | reflexivity].
    rewrite map_app, Hev. symmetry. apply Permutation_cons_append.
Qed.

Lemma Kept_step (skipCache : bool) (st st' : Pipeline) (i : nat) :
  Kept st -> Move cfg w skipCache st i st' -> Kept st'.
Proof.
  intros (Hsav & Hret) Hm. moves Hm.
  1, 2, 3: exact (conj Hsav Hret).
  all: unfold Kept; split.
  - (* the cache has the item *)
    intros j u s0 r0 k0 Hj Hu. at_task Hj; [discriminate | eauto].
  - intros j u r0 Hj Hu Hnf. at_task Hj; [|cbn [disk cacheHit]; eauto].
    cbn [disk cacheHit item]. apply getAnalysis_marks in Hg as (stored & Hst & _). eauto.
  - (* the cache does not have it *)
    intros j u s0 r0 k0 Hj Hu. at_task Hj; [discriminate | eauto].
  - intros j u r0 Hj Hu Hnf. at_task Hj; [discriminate | cbn [disk cacheMiss]; eauto].
  - (* categorize resolved *)
    intros j u s0 r0 k0 Hj Hu. at_task Hj; [|eauto].
    cbn in Hu. now injection Hu as _ <- _.
  - intros j u r0 Hj Hu Hnf. at_task Hj; [discriminate | cbn [disk classified]; eauto].
  - (* categorize threw *)
    intros j u s0 r0 k0 Hj Hu. at_task Hj; [discriminate | eauto].
  - intros j u r0 Hj Hu Hnf. at_task Hj; [|cbn [disk caught]; eauto].
    cbn in Hu. injection Hu as <-. discriminate.
  - (* saveAnalysis resolved *)
    intros j u s0 r0 k0 Hj Hu. at_task Hj; [discriminate | eauto].
  - intros j u r0 Hj Hu Hnf. cbn [disk saved].
    apply saveAnalysis_inserts in Hs as ->.
    rewrite (Hsav i t s r k Hi Hp).
    destruct (decide (CacheService.getAnalysisPath (full_name (item t))
                      = CacheService.getAnalysisPath (full_name (item u)))) as [Heq|Hne].
    + rewrite Heq, lookup_insert_eq. eauto.
    + rewrite lookup_insert_ne by assumption.
      at_task Hj; [now cbn in Hne | eauto].
  - (* saveAnalysis threw *)
    intros j u s0 r0 k0 Hj Hu. at_task Hj; [discriminate | eauto].
  - intros j u r0 Hj Hu Hnf. at_task Hj; [|cbn [disk caught]; eauto].
    cbn in Hu. injection Hu as <-. discriminate.
  - (* the caller pushes *)
    intros j u s0 r0 k0 Hj Hu. at_task Hj; [discriminate | eauto].
  - intros j u r0 Hj Hu Hnf. at_task Hj; [|cbn [disk pushed]; eauto].
    cbn [disk pushed item]. cbn in Hu. injection Hu as <-.
    apply (Hret i t r Hi); [unfold returnedRecord; now rewrite Hp | assumption].
  - (* the cache has a document without categorization *)
    intros j u s0 r0 k0 Hj Hu. at_task Hj; [discriminate | eauto].
  - intros j u r0 Hj Hu Hnf. at_task Hj; [|cbn [disk caught cacheBroken counted]; eauto].
    unfold returnedRecord in Hu. cbn [phase] in Hu. injection Hu as <-. discriminate.
Qed.

Lemma start_nothing_returned {B : Type} (f : Task -> option B) (repos : list GitHubRepo)
    (st0 : Pipeline) :
  (forall t, returnedRecord t = None -> f t = None) ->
  omap f (tasks (start repos st0)) = [].
Proof. intros Hf. unfold start. cbn [tasks]. apply omap_queued. intros r. now apply Hf. Qed.

(** X20: by how much the identity of the counters is off.  After a call
    of [analyzeAll] the three outcome counters have grown by the size of
    the batch, by one more for every lost write (an item whose
    classification resolved, so that it was counted as analyzed, and whose
    record is a failure record all the same, the cache write having
    thrown, so that it was counted as failed too), and by one more for
    every broken cache hit (an item for which the cache held a document
    without a categorization, counted as cached and, the branch of the
    cache hit having thrown, as failed too).  On a fresh service the
    identity [total = analyzed + cached + failed] holds exactly when there
    is neither; no write is lost when every cache write succeeds, and
    there is no broken cache hit when the cache is skipped or holds such a
    document for no item. *)
Theorem identity_off_by_the_lost_writes (schedule : list nat) (repos : list GitHubRepo)
    (skipCache : bool) (st0 : Pipeline) :
  let final := analyzeAll cfg w schedule repos skipCache st0 in
  let lostWrites := lostWrites cfg w skipCache (disk st0) (tasks final) in
  let brokenHits := brokenHits skipCache (disk st0) (tasks final) in
  outcomes (stats final)
  = outcomes (stats st0) + length repos + lostWrites + brokenHits
  /\ (outcomes (stats st0) = 0 ->
      (Stats.total (stats final) = outcomes (stats final)
       <-> lostWrites = 0 /\ brokenHits = 0))
  /\ ((forall n path, writable w n path = true) -> lostWrites = 0)
  /\ ((forall r, In r repos -> brokenEntry skipCache (disk st0) r = false) ->
      brokenHits = 0).
Proof.
  intros final lostW broken.
  assert (Hb : Balance cfg w skipCache (disk st0) (stats st0) final).
  { unfold final, analyzeAll. eapply proj2.
    apply (run_invariant cfg w skipCache
             (fun st => Traced skipCache (disk st0) st
                        /\ Balance cfg w skipCache (disk st0) (stats st0) st)).
    - intros st i st' [Ht Hb] Hm.
      split; [now apply (Traced_step cfg w skipCache _ st _ i)|].
      now apply (Balance_step skipCache _ _ st _ i).
    - split; [apply Traced_start|]. split.
      + unfold outcomes, lostWrites, start.
        cbn [stats completed tasks Stats.analyzed Stats.cached Stats.failed].
        assert (H1 : list_sum (List.map saving
                       (List.map (fun r => {| item := r; phase := Queued |}) repos)) = 0)
          by (clear; induction repos; simpl; auto).
        rewrite H1, sum_imap_zero; [lia|].
        intros j t Hj.
        change (((fun r => {| item := r; phase := Queued |}) <$> repos) !! j = Some t) in Hj.
        rewrite list_lookup_fmap in Hj. destruct (repos !! j); [|discriminate].
        now injection Hj as <-.
      + intros j t s r k Hj Hp. apply start_lookup in Hj as [Hq _]. congruence. }
  destruct Hb as [Ho _].
  destruct (analyzeAll_outcomes cfg w schedule repos skipCache st0)
    as (Htot & Hdone & _ & Hexact).
  destruct (settled_reported _ _ (analyzeAll_all_settled cfg w schedule repos skipCache st0))
    as (_ & _ & _ & Hsav).
  fold final in Ho, Htot, Hdone, Hexact, Hsav.
  fold lostW in Ho. fold broken in Hdone, Hexact.
  rewrite Hdone, Hsav in Ho.
  split; [lia|]. split; [|split].
  - intros Hfresh. rewrite Htot. lia.
  - intros Hw. specialize (Hexact Hw). lia.
  - intros Hnone. unfold broken. apply brokenHits_none.
    apply (settled_items _ repos (fun r => brokenEntry skipCache (disk st0) r = false));
      [|exact Hnone].
    apply analyzeAll_all_settled.
Qed.

(** X21: the progress reports describe the records.  The invocations of
    [onProgress] of a call are, up to their order, one for the record of
    every item, under the item's name: with the cache flag of the record;
    with the category and the confidence of the record unless it is a
    failure record, which is reported without them; and with a token
    count exactly for a record that is neither cached nor a failure. *)
Theorem progress_describes_the_records (schedule : list nat) (repos : list GitHubRepo)
    (skipCache : bool) (st0 : Pipeline) :
  let final := analyzeAll cfg w schedule repos skipCache st0 in
  List.map eventInfo (emitted final) ≡ₚ omap describe (tasks final)
  /\ Forall2 (fun t r => item t = r
                         /\ exists record, phase t = Pushed record
                                           /\ In record (results final))
       (tasks final) repos.
Proof.
  intros final. split.
  - unfold final, analyzeAll.
    apply (run_invariant cfg w skipCache Described).
    + intros st i st'. apply Described_step.
    + split.
      * rewrite start_nothing_returned; [reflexivity|].
        intros t Ht. unfold describe. now rewrite Ht.
      * intros j t s r k Hj Hp. apply start_lookup in Hj as [Hq _]. congruence.
  - pose proof (analyzeAll_reports cfg w schedule repos skipCache st0) as Hrep.
    pose proof (analyzeAll_all_settled cfg w schedule repos skipCache st0) as Hset.
    fold final in Hrep, Hset.
    apply Forall2_same_length_lookup_2; [now apply Forall2_length in Hset|].
    intros j t r Hj Hr.
    destruct (Forall2_lookup_l _ _ _ _ _ Hset Hj) as (r' & Hr' & Hitem & record & Hp).
    split; [congruence|]. exists record. split; [exact Hp|].
    now apply (pushed_in_results _ _ j t record Hrep Hj).
Qed.

Lemma analyzeAll_kept (schedule : list nat) (repos : list GitHubRepo) (skipCache : bool)
    (st0 : Pipeline) :
  Kept (analyzeAll cfg w schedule repos skipCache st0).
Proof.
  unfold analyzeAll. apply run_invariant.
  - intros st i st'. apply Kept_step.
  - split.
    + intros j t s r k Hj Hp. apply start_lookup in Hj as [Hq _]. congruence.
    + intros j t r Hj Hr. apply start_lookup in Hj as [Hq _].
      unfold returnedRecord in Hr. rewrite Hq in Hr. discriminate.
Qed.

Lemma Appended_step (disk0 : gmap string FileContent) (requests0 : list (string * nat))
    (st st' : Pipeline) (i : nat) :
  Hits disk0 requests0 st -> Appended disk0 requests0 st ->
  Move cfg w false st i st' -> Appended disk0 requests0 st'.
Proof.
  intros (_ & Hcls & _) (extra & Hreq & Hall) Hm. unfold Appended. moves Hm.
  all: cbn [requests cacheHit cacheMiss classified saved caught pushed cacheBroken counted].
  all: try (exists extra; split; assumption).
  - exists (extra ++ [(full_name (item t), a)])%list.
    split; [now rewrite Hreq, app_assoc|].
    apply Forall_app. split; [exact Hall|]. constructor; [|constructor].
    exact (Hcls i t s Hi Hp).
  - exists (extra ++ [(full_name (item t), a)])%list.
    split; [now rewrite Hreq, app_assoc|].
    apply Forall_app. split; [exact Hall|]. constructor; [|constructor].
    exact (Hcls i t s Hi Hp).
Qed.

Lemma analyzeAll_appended (schedule : list nat) (repos : list GitHubRepo) (st0 : Pipeline) :
  Appended (disk st0) (requests st0) (analyzeAll cfg w schedule repos false st0).
Proof.
  unfold analyzeAll. eapply proj2. eapply proj2.
  apply (run_invariant cfg w false
           (fun st => Traced false (disk st0) st
                      /\ Hits (disk st0) (requests st0) st
                      /\ Appended (disk st0) (requests st0) st)).
  - intros st i st' (Ht & Hh & Ha) Hm.
    split; [now apply (Traced_step cfg w false _ st _ i)|].
    split; [now apply (Hits_step cfg w _ _ st _ i)|].
    now apply (Appended_step _ _ st _ i).
  - split; [apply Traced_start|]. split; [apply Hits_start|].
    exists []. split; [now rewrite app_nil_r | constructor].
Qed.

End BalanceAndProgress.

Section Rerun.

Import AnalyzerService.

Context {R : Runtime} (cfg : EnvConfig).

(** X22: what succeeded is not classified again.  When a call of
    [analyzeAll] has returned for an item a record that is not a failure
    record, the cache directory holds a record under the item's key
    afterwards, whatever happened to the other items; and a second call
    on the same batch that does not skip the cache returns for that item
    what the cache holds, flagged as cached, and logs no call of the
    classifier under that item's name: its log is the log of the first
    call followed by calls under other names. *)
Theorem successes_are_not_classified_again (w1 w2 : World) (schedule1 schedule2 : list nat)
    (repos : list GitHubRepo) (skipCache : bool) (st0 : Pipeline)
    (i : nat) (r : GitHubRepo) (record : AnalysisResult) :
  let first := analyzeAll cfg w1 schedule1 repos skipCache st0 in
  let second := analyzeAll cfg w2 schedule2 repos false first in
  tasks first !! i = Some {| item := r; phase := Pushed record |} ->
  isFailure record = false ->
  exists stored,
    disk first !! CacheService.getAnalysisPath (full_name r) = Some (Stored stored)
    /\ tasks second !! i
       = Some {| item := r; phase := Pushed (CacheService.markCached stored) |}
    /\ In (CacheService.markCached stored) (results second)
    /\ exists calls,
         requests second = (requests first ++ calls)%list
         /\ Forall (fun call => fst call <> full_name r) calls.
Proof.
  intros first second Hi Hnf.
  destruct (analyzeAll_kept cfg w1 schedule1 repos skipCache st0) as [_ Hkept].
  destruct (Hkept i _ record Hi eq_refl Hnf) as [stored Hst]. cbn [item] in Hst.
  fold first in Hst. exists stored. split; [exact Hst|].
  assert (Hr : repos !! i = Some r).
  { now destruct (final_task_item cfg w1 schedule1 repos skipCache st0 i _ Hi) as [Hr _]. }
  pose proof (analyzeAll_reports cfg w2 schedule2 repos false first) as Hrep.
  destruct (analyzeAll_hits cfg w2 schedule2 repos first) as (_ & _ & _ & Hret & _).
  destruct (analyzeAll_appended cfg w2 schedule2 repos first) as (calls & Hreq & Hcalls).
  destruct (analyzeAll_settles cfg w2 schedule2 repos false first i r Hr) as [again Ht].
  fold second in Hrep, Hret, Hreq, Ht.
  assert (again = CacheService.markCached stored) as ->
    by (now apply (Hret i _ again stored Ht eq_refl)).
  split; [exact Ht|]. split.
  - now apply (pushed_in_results _ _ i _ _ Hrep Ht).
  - exists calls. split; [exact Hreq|].
    eapply Forall_impl; [exact Hcalls|]. cbn. intros call Hnone Heq.
    rewrite Heq in Hnone. unfold CacheService.getAnalysis in Hnone.
    rewrite Hst in Hnone. discriminate.
Qed.

End Rerun.

Lemma successes_are_not_classified_again_witness :
  let first := @AnalyzerService.analyzeAll flatRuntime defaultConfig
                 (Sample.world Sample.frontend true) [] [Sample.item "a/b"] false
                 (AnalyzerService.create ∅) in
  let second := @AnalyzerService.analyzeAll flatRuntime defaultConfig
                  (Sample.world (Failed Sample.invalidRequest) true) []
                  [Sample.item "a/b"] false first in
  exists stored,
    AnalyzerService.tasks second !! 0
    = Some {| AnalyzerService.item := Sample.item "a/b";
              AnalyzerService.phase :=
                AnalyzerService.Pushed (CacheService.markCached stored) |}
    /\ category (categorization stored) = "Frontend Frameworks".
Proof.
  intros first second.
  destruct (@successes_are_not_classified_again flatRuntime defaultConfig
              (Sample.world Sample.frontend true)
              (Sample.world (Failed Sample.invalidRequest) true)
              [] [] [Sample.item "a/b"] false (AnalyzerService.create ∅) 0
              (Sample.item "a/b")
              {| repo := Sample.item "a/b";
                 categorization :=
                   {| category := "Frontend Frameworks"; confidence := 95;
                      reasoning := "x" |};
                 webSearchCalls := 0; cached := false; timestamp := 1;
                 failed := None; error := None |})
    as (stored & Hst & Hagain & _).
  - vm_compute. reflexivity.
  - reflexivity.
  - exists stored. split; [exact Hagain|].
    vm_compute in Hst. injection Hst as <-. reflexivity.
Defined.

(* ===================================================================== *)
(** * Failed items: what a call records and what a later call does        *)
(* ===================================================================== *)

Section LoneItems.

Import AnalyzerService.

Context {R : Runtime} (cfg : EnvConfig) (w : World).

Ltac at_task Hj :=
  cbn [tasks cacheHit cacheMiss classified saved caught pushed cacheBroken counted] in Hj;
  apply saving_lookup in Hj as [[? ->]|[? Hj]].

Ltac moves Hm :=
  destruct Hm as [Hn|t r Hi Hp|t Hi Hp Hwait|t f Hi Hp Hcan Hskip Hg|t Hi Hp Hcan Hg
                 |t s resp a Hi Hp Hc|t s e a Hi Hp Hc
                 |t s r k d Hi Hp Hs|t s r k e Hi Hp Hs|t r Hi Hp
                 |t c Hi Hp Hcan Hskip Hg].







End LoneItems.

Section FailedItems.

Import AnalyzerService.

Context {R : Runtime} (cfg : EnvConfig).


End FailedItems.



(** C9, on a batch of one item whose cache file holds a document without
    a categorization: the branch of the cache hit counts the item, building
    the argument of [onProgress] throws, and the [catch] block counts the
    item again.  The one invocation of [onProgress] carries [current] 2 for
    a batch of 1; no request is sent, and the counters end with [total] 1,
    [cached] 1 and [failed] 1. *)
Theorem progress_number_exceeds_batch :
  let st0 := AnalyzerService.create
               {[ CacheService.getAnalysisPath "a/b" := Malformed JS.IsUndefined ]} in
  let final := @AnalyzerService.analyzeAll flatRuntime defaultConfig
                 (Sample.world Sample.frontend true) [] [Sample.item "a/b"] false st0 in
  List.map (fun ev => (Progress.current ev, Progress.total ev, Progress.repo ev,
                       Progress.cached ev))
    (AnalyzerService.emitted final)
  = [(2, 1, "a/b", false)]
  /\ AnalyzerService.completed final = 2
  /\ AnalyzerService.requests final = []
  /\ List.map (fun r => (full_name (repo r), failed r, cached r, error r))
       (AnalyzerService.results final)
     = [("a/b", Some true, false,
         Some "Cannot read properties of undefined (reading 'category')")]
  /\ AnalyzerService.getStats final
     = {| Stats.total := 1; Stats.analyzed := 0; Stats.cached := 1; Stats.failed := 1;
          Stats.totalTokens := 0; Stats.totalWebSearches := 0 |}.
Proof. vm_compute. repeat split. Qed.

(* ===================================================================== *)
(** * More about the classifier                                           *)
(* ===================================================================== *)

Section RetryLoop.

Import GeminiService.

Lemma attemptErrors_snoc {A : Type} (input : nat -> Completion A) (k n : nat) (e : Thrown) :
  input (k + n) = Throw e ->
  attemptErrors input k (S n) = (attemptErrors input k n ++ [e])%list.
Proof.
  intros H. unfold attemptErrors. rewrite seq_S, omap_app. f_equal.
  unfold omap. cbn. now rewrite H.
Qed.

(** X7: the retry loop of [categorize].  A call of [categorize] sends
    between one request and one more than [RETRY_MAX_ATTEMPTS]; every
    attempt but the last one made failed with an error [onFailedAttempt]
    let pass; it resolves exactly when the last attempt made resolved,
    with that attempt's answer; and it rejects either with the error of
    the last attempt made, [onFailedAttempt] having thrown on it, or, the
    retries being used up, with the main error of all the attempts: one
    of their errors, with a message no other message is more frequent
    than, which is the error of the last attempt when no message is more
    frequent than its message. *)
Theorem categorize_retry_loop {R : Runtime} (cfg : EnvConfig)
    (replies : nat -> EndpointReply) :
  let outcome := categorize cfg replies in
  let requests := snd outcome in
  let retries := Pos.to_nat (RETRY_MAX_ATTEMPTS cfg) in
  let errors := attemptErrors (fun n => attempt (replies n)) 1 (S retries) in
  1 <= requests <= S retries
  /\ (forall m, 1 <= m < requests ->
        exists e, attempt (replies m) = Throw e /\ onFailedAttempt e = Return tt)
  /\ (forall response,
        fst outcome = Return response <-> attempt (replies requests) = Return response)
  /\ (forall e,
        fst outcome = Throw e ->
        exists last,
          attempt (replies requests) = Throw last
          /\ ((onFailedAttempt last = Throw last /\ e = last)
              \/ (onFailedAttempt last = Return tt
                  /\ requests = S retries
                  /\ PRetry.mainError errors = Some e
                  /\ In e errors
                  /\ (forall m, occurrences m errors <= occurrences (messageOf e) errors)
                  /\ ((forall m, occurrences m errors
                                 <= occurrences (messageOf last) errors) ->
                      e = last)))).
Proof.
  intros outcome requests retries errors.
  pose proof (pRetry_settles (fun n => attempt (replies n)) onFailedAttempt retries 1 [])
    as Hs.
  cbn zeta in Hs. rewrite app_nil_l in Hs.
  change (PRetry.pRetry (fun n => attempt (replies n)) onFailedAttempt retries 1 [])
    with outcome in Hs.
  change (snd outcome) with requests in Hs.
  change (attemptErrors (fun n => attempt (replies n)) 1 (S retries)) with errors in Hs.
  destruct Hs as (Hn & Hbefore & Hlast).
  split; [lia|]. split; [exact Hbefore|]. split.
  - intros response. destruct (attempt (replies requests)) as [a|last].
    + rewrite Hlast. reflexivity.
    + split; [|discriminate]. intros Hout.
      destruct (onFailedAttempt last) as [[]|thrown];
        [destruct Hlast as [_ Hlast]|]; congruence.
  - intros e Hout. destruct (attempt (replies requests)) as [a|last] eqn:Hreq;
      [congruence|].
    exists last. split; [reflexivity|].
    destruct (onFailedAttempt last) as [[]|thrown] eqn:Hon.
    + right. destruct Hlast as [Hexhausted Hmain].
      split; [reflexivity|]. split; [exact Hexhausted|].
      assert (Herrors : errors
                        = (attemptErrors (fun n => attempt (replies n)) 1 retries
                           ++ [last])%list).
      { unfold errors. apply attemptErrors_snoc. now rewrite <- Hexhausted. }
      pose proof (mainError_spec errors) as Hspec.
      destruct (PRetry.mainError errors) as [main|] eqn:Hm.
      * cbn in Hmain. assert (main = e) as -> by congruence.
        destruct Hspec as [Hin Hmost].
        split; [reflexivity|]. split; [exact Hin|]. split; [exact Hmost|].
        intros Hmost'. rewrite Herrors in Hm, Hmost'.
        rewrite (mainError_last _ last Hmost') in Hm. congruence.
      * exfalso. rewrite Herrors in Hspec. now destruct (attemptErrors _ 1 retries).
    + left. assert (thrown = last) as -> by now apply onFailedAttempt_rethrows.
      split; [reflexivity | congruence].
Qed.

Lemma wrapped_message (m : string) :
  JS.includes ("Gemini API error: " ++ m) "GeminiAPIError" = JS.includes m "GeminiAPIError".
Proof. reflexivity. Qed.

(** X8: what an attempt throws, and when the retry loop gives up on it.
    Whatever goes wrong in an attempt (the request, the extraction, the
    parsing, the validation) is thrown as a [GeminiAPIError] wrapped
    around the cause: its message is the cause's behind "Gemini API
    error: ", its status code is read off the cause's [status] or
    [error.code], and it is flagged retryable exactly when
    [isRetryableError] flags the cause.  [onFailedAttempt] throws on it,
    which ends the retries, exactly when the cause is not flagged
    retryable and the cause's own message holds the text
    "GeminiAPIError". *)
Theorem attempt_failure_is_wrapped {R : Runtime} (reply : EndpointReply) (e : Thrown) :
  attempt reply = Throw e ->
  exists cause,
    e = GeminiAPIError ("Gemini API error: " ++ GeminiService.getErrorMessage cause)
          (extractErrorCode cause) (isRetryableError cause) (CausedBy cause)
    /\ isRetryableError e = isRetryableError cause
    /\ (onFailedAttempt e = Throw e
        <-> isRetryableError cause = false
            /\ JS.includes (GeminiService.getErrorMessage cause) "GeminiAPIError" = true)
    /\ (onFailedAttempt e = Return tt
        <-> isRetryableError cause = true
            \/ JS.includes (GeminiService.getErrorMessage cause) "GeminiAPIError" = false).
Proof.
  unfold attempt. intros H.
  assert (Hc : exists cause,
             e = GeminiAPIError ("Gemini API error: " ++ GeminiService.getErrorMessage cause)
                   (extractErrorCode cause) (isRetryableError cause) (CausedBy cause)).
  { destruct reply as [result|err].
    - destruct (parseResponse (JS.orString (text result) "{}")) as [c|cause];
        [discriminate|]. injection H as <-. now exists cause.
    - injection H as <-. now exists (Foreign err). }
  destruct Hc as [cause ->]. exists cause. split; [reflexivity|].
  split; [reflexivity|].
  unfold onFailedAttempt. cbn [messageOf isRetryableError]. rewrite wrapped_message.
  destruct (JS.includes (GeminiService.getErrorMessage cause) "GeminiAPIError"),
    (isRetryableError cause); cbn; intuition congruence.
Qed.

End RetryLoop.

(** Five answers with HTTP 400 and then one with HTTP 503: [categorize]
    sends all six requests and rejects with the error of the first five,
    the main error, while the last attempt failed with the other one. *)
Example categorize_rejects_with_main_error :
  let replies n :=
    if (n <=? 5)%nat then Failed Sample.invalidRequest else Failed Sample.serviceUnavailable in
  match @GeminiService.categorize flatRuntime defaultConfig replies with
  | (Throw e, requests) => Some (messageOf e, requests)
  | (Return _, _) => None
  end = Some ("Gemini API error: invalid request", 6)
  /\ match @GeminiService.attempt flatRuntime (replies 6) with
     | Throw e => Some (messageOf e)
     | Return _ => None
     end = Some "Gemini API error: 503 service unavailable".
Proof. vm_compute. split; reflexivity. Qed.

Lemma attempt_failure_is_wrapped_witness :
  exists cause,
    @GeminiService.attempt flatRuntime (Failed Sample.invalidRequest)
    = Throw (GeminiAPIError "Gemini API error: invalid request" (Some 400%Z) false
               (CausedBy cause))
    /\ GeminiService.onFailedAttempt
         (GeminiAPIError "Gemini API error: invalid request" (Some 400%Z) false
            (CausedBy cause))
       = Return tt.
Proof.
  destruct (@attempt_failure_is_wrapped flatRuntime (Failed Sample.invalidRequest)
              (GeminiAPIError "Gemini API error: invalid request" (Some 400%Z) false
                 (CausedBy (Foreign Sample.invalidRequest))) eq_refl)
    as (cause & Heq & _ & _ & Hpass).
  injection Heq as _ _ _ Hcause. subst cause.
  exists (Foreign Sample.invalidRequest). split; [reflexivity|].
  apply Hpass. right. reflexivity.
Defined.

Section Taxonomy.

Import GeminiService.

(** The category depends on the answer through its trimmed text only. *)
Lemma normalizeCategory_trim (p : ParsedCategorization) (raw : string)
    (cat : CategoryConfig) :
  List.find (matchesCategory (JS.trim raw)) CATEGORIES = Some cat ->
  normalizeCategory p raw
  = {| category := name cat;
       confidence := parsed_confidence p;
       reasoning := parsed_reasoning p |}.
Proof. unfold normalizeCategory. now intros ->. Qed.

(** Searching the taxonomy for the name of one of its entries, bare or
    behind the entry's emoji, finds an entry of that name. *)
Lemma taxonomy_finds_itself :
  forallb (fun cat =>
             match List.find (matchesCategory (name cat)) CATEGORIES,
                   List.find (matchesCategory (fullNameOf cat)) CATEGORIES with
             | Some c1, Some c2 => (name c1 =? name cat) && (name c2 =? name cat)
             | _, _ => false
             end
             && (JS.trim (name cat) =? name cat)) CATEGORIES = true.
Proof. vm_compute. reflexivity. Qed.

(** X12: normalization keeps the names of the taxonomy.  For every entry
    of [CATEGORIES], an answer whose trimmed category is the entry's name,
    or the entry's emoji, a space and its name (the form the prompt lists
    the categories in), is given that entry's name, with the classifier's
    confidence and reasoning: no earlier entry's name is contained in it.
    So normalizing a normalized category changes nothing. *)
Theorem normalization_keeps_taxonomy_names (p : ParsedCategorization) :
  Forall (fun cat =>
            forall raw,
              JS.trim raw = name cat \/ JS.trim raw = emoji cat ++ " " ++ name cat ->
              normalizeCategory p raw
              = {| category := name cat;
                   confidence := parsed_confidence p;
                   reasoning := parsed_reasoning p |}) CATEGORIES
  /\ (forall q raw,
        category (normalizeCategory p (category (normalizeCategory q raw)))
        = category (normalizeCategory q raw)).
Proof.
  pose proof taxonomy_finds_itself as Hself. rewrite forallb_forall in Hself.
  assert (Hcat : forall cat, In cat CATEGORIES ->
            forall r raw,
              JS.trim raw = name cat \/ JS.trim raw = fullNameOf cat ->
              normalizeCategory r raw
              = {| category := name cat;
                   confidence := parsed_confidence r;
                   reasoning := parsed_reasoning r |}).
  { intros cat Hin r raw Hraw. specialize (Hself cat Hin).
    apply andb_true_iff in Hself as [Hfind _].
    destruct (List.find (matchesCategory (name cat)) CATEGORIES) as [c1|] eqn:H1;
      [|discriminate].
    destruct (List.find (matchesCategory (fullNameOf cat)) CATEGORIES) as [c2|] eqn:H2;
      [|discriminate].
    apply andb_true_iff in Hfind as [E1 E2].
    apply String.eqb_eq in E1, E2.
    destruct Hraw as [Hraw|Hraw].
    - rewrite <- Hraw in H1. rewrite (normalizeCategory_trim r raw c1 H1). now rewrite E1.
    - rewrite <- Hraw in H2. rewrite (normalizeCategory_trim r raw c2 H2). now rewrite E2. }
  split.
  - apply List.Forall_forall. intros cat Hin raw Hraw. now apply Hcat.
  - intros q raw.
    pose proof (normalizeCategory_in_taxonomy q raw) as Hin.
    unfold CATEGORY_NAMES in Hin. apply in_map_iff in Hin as (cat & Hname & Hin).
    rewrite <- Hname. rewrite (Hcat cat Hin p (name cat)); [reflexivity|].
    left. specialize (Hself cat Hin). apply andb_true_iff in Hself as [_ Htrim].
    now apply String.eqb_eq in Htrim.
Qed.

(** X13: an answer without text.  [result.text || "{}"] makes an answer
    whose text is missing or empty the text "{}", which [JSON.parse] reads
    as an object without a category: the attempt fails on the validation,
    with an error flagged retryable whose status code, 503 on the error
    thrown by [parseResponse], is not carried over to the wrapper; the
    retry loop goes on, so an endpoint that keeps answering without text
    is asked once more than [RETRY_MAX_ATTEMPTS] times before
    [categorize] rejects. *)
Theorem empty_answer_is_retried {R : Runtime} (cfg : EnvConfig) (p : ParsedCategorization) :
  JSON_parse "{}" = inl p ->
  parsed_category p = JS.Undefined ->
  let invalid := GeminiAPIError "Empty or invalid category in response" (Some 503%Z) true
                   NoCause in
  let wrapped := GeminiAPIError "Gemini API error: Empty or invalid category in response"
                   None true (CausedBy invalid) in
  (forall result,
      text result = None \/ text result = Some EmptyString ->
      attempt (Replied result) = Throw wrapped)
  /\ onFailedAttempt wrapped = Return tt
  /\ (forall replies,
        (forall n, exists result,
            replies n = Replied result
            /\ (text result = None \/ text result = Some EmptyString)) ->
        categorize cfg replies = (Throw wrapped, S (Pos.to_nat (RETRY_MAX_ATTEMPTS cfg)))).
Proof.
  intros Hparse Hcat invalid wrapped.
  assert (Hattempt : forall result,
            text result = None \/ text result = Some EmptyString ->
            attempt (Replied result) = Throw wrapped).
  { intros result Htext. unfold attempt.
    assert (Ht : JS.orString (text result) "{}" = "{}")
      by (destruct Htext as [-> | ->]; reflexivity).
    rewrite Ht. unfold parseResponse.
    change (jsonMatch "{}") with (Some "{}"). cbv iota. rewrite Hparse, Hcat.
    reflexivity. }
  split; [exact Hattempt|]. split; [reflexivity|].
  intros replies Hall. unfold categorize.
  rewrite (pRetry_always_failing _ _ wrapped); [f_equal|..].
  - intros n. destruct (Hall n) as (result & -> & Htext). now apply Hattempt.
  - reflexivity.
Qed.

End Taxonomy.

Lemma empty_answer_is_retried_witness :
  snd (@GeminiService.categorize flatRuntime defaultConfig
         (fun _ => Replied {| text := None; groundingChunkCount := None;
                              totalTokenCount := None |}))
  = 6.
Proof.
  destruct (@empty_answer_is_retried flatRuntime defaultConfig
              {| parsed_category := JS.Undefined;
                 parsed_confidence := 0;
                 parsed_reasoning := EmptyString |} eq_refl eq_refl)
    as (_ & _ & Hall).
  rewrite Hall; [reflexivity|].
  intros n. eexists. split; [reflexivity|]. now left.
Defined.

(* ===================================================================== *)
(** * More about the cache                                                *)
(* ===================================================================== *)

Section CacheFiles.

Import CacheService.

Lemma append_inv_head (p a b : string) : p ++ a = p ++ b -> a = b.
Proof. induction p as [|c p IH]; simpl; [tauto|]. intros [= H]. now apply IH. Qed.

Lemma append_inv_tail (a b s : string) : a ++ s = b ++ s -> a = b.
Proof.
  intros H. apply (f_equal list_ascii_of_string) in H.
  rewrite !chars_append in H. apply app_inv_tail in H.
  rewrite <- (string_of_list_ascii_of_string a), <- (string_of_list_ascii_of_string b).
  now rewrite H.
Qed.

(** Two names share a file exactly when they share a key. *)
Lemma getAnalysisPath_inj (a b : string) :
  getAnalysisPath a = getAnalysisPath b <-> slugify a = slugify b.
Proof.
  unfold getAnalysisPath. split; [|now intros ->].
  intros H. apply append_inv_head, append_inv_head in H. now apply append_inv_tail in H.
Qed.

(** X9: what is saved is read back, under its key.  After
    [saveAnalysis(result)] has succeeded, [getAnalysis] returns that
    record, flagged as cached, for every name whose key is the key of the
    record's repository, be it the name of another repository, and
    [hasAnalysis] holds of such a name; for a name with another key both
    answer as before the write. *)
Theorem saved_analysis_is_read_back (canWrite : string -> bool)
    (disk disk' : gmap string FileContent) (result : AnalysisResult) :
  saveAnalysis canWrite disk result = Return disk' ->
  forall repoName,
    (slugify repoName = slugify (full_name (repo result)) ->
     getAnalysis disk' repoName = Some (Complete (markCached result))
     /\ hasAnalysis disk' repoName = true)
    /\ (slugify repoName <> slugify (full_name (repo result)) ->
        getAnalysis disk' repoName = getAnalysis disk repoName
        /\ hasAnalysis disk' repoName = hasAnalysis disk repoName).
Proof.
  intros Hsave repoName. apply saveAnalysis_inserts in Hsave as ->.
  unfold getAnalysis, hasAnalysis. split.
  - intros Hkey. apply getAnalysisPath_inj in Hkey. rewrite Hkey, lookup_insert_eq.
    split; [reflexivity|]. apply bool_decide_eq_true. eauto.
  - intros Hkey. rewrite lookup_insert_ne; [now split|].
    intros Hpath. apply Hkey. symmetry. now apply getAnalysisPath_inj.
Qed.

End CacheFiles.

Lemma saved_analysis_is_read_back_witness :
  let saved :=
    {| repo := Sample.item "vercel/next-js";
       categorization :=
         {| category := "Frontend Frameworks"; confidence := 95; reasoning := "x" |};
       webSearchCalls := 0;
       cached := false;
       timestamp := 0;
       failed := None;
       error := None |} in
  let disk' := <[CacheService.getAnalysisPath "vercel/next-js" := Stored saved]> ∅ in
  CacheService.getAnalysis disk' "vercel-next/js" = Some (Complete (CacheService.markCached saved))
  /\ CacheService.getAnalysis disk' "vercel/next" = None.
Proof.
  intros saved disk'.
  assert (Hsave : CacheService.saveAnalysis (fun _ => true) ∅ saved = Return disk')
    by reflexivity.
  split.
  - apply (saved_analysis_is_read_back _ _ _ _ Hsave "vercel-next/js"). reflexivity.
  - destruct (saved_analysis_is_read_back _ _ _ _ Hsave "vercel/next") as [_ Hother].
    destruct Hother as [Hget _]; [discriminate|]. rewrite Hget. reflexivity.
Defined.

Section StarredReposCache.

Import StarredRepos.

(** X10: the cache of the starred repositories and its age limit.
    [getStarredRepos] never throws, although its second read is not
    guarded: it returns the repositories of a readable file whose
    timestamp is a date less than [CACHE_MAX_AGE_HOURS] hours behind the
    clock, and [null] in every other case (no file, a file that cannot be
    read, a timestamp that is no date, an age that has reached the limit).
    So what [saveStarredRepos] wrote at [written] is returned up to the
    limit, and from the limit on it is not. *)
Theorem starred_repos_expire (cfg : EnvConfig) (canWrite : string -> bool)
    (written : Z) (repos : list GitHubRepo) (file : option ReposFile) :
  saveStarredRepos canWrite written repos = Return file ->
  (forall now, (now - written < Z.pos (CACHE_MAX_AGE_HOURS cfg) * 3600000)%Z ->
     getStarredRepos cfg file now = Return (Some repos))
  /\ (forall now, (Z.pos (CACHE_MAX_AGE_HOURS cfg) * 3600000 <= now - written)%Z ->
        getStarredRepos cfg file now = Return None)
  /\ (forall other now,
        getStarredRepos cfg other now
        = Return (match other with
                  | Some (CachedRepos (Some t) found) =>
                      if (now - t <? maxAge cfg)%Z then Some found else None
                  | _ => None
                  end)).
Proof.
  intros Hsave. unfold saveStarredRepos in Hsave.
  destruct (canWrite reposFile); [|discriminate]. injection Hsave as <-.
  assert (Hmax : maxAge cfg = (Z.pos (CACHE_MAX_AGE_HOURS cfg) * 3600000)%Z)
    by (unfold maxAge; lia).
  split; [|split].
  - intros now Hage. unfold getStarredRepos, isReposCacheValid. cbn.
    rewrite Hmax. apply Z.ltb_lt in Hage. now rewrite Hage.
  - intros now Hage. unfold getStarredRepos, isReposCacheValid. cbn.
    rewrite Hmax. apply Z.ltb_ge in Hage. now rewrite Hage.
  - intros other now. unfold getStarredRepos, isReposCacheValid.
    destruct other as [[[t|] found|]|]; cbn; try reflexivity.
    now destruct (now - t <? maxAge cfg)%Z.
Qed.

Lemma age_split (age : Z) :
  (0 <= age)%Z ->
  (0 <= age / HOUR
   /\ 0 <= Z.rem age HOUR / MINUTE < 60
   /\ age / HOUR * 60 + Z.rem age HOUR / MINUTE = age / MINUTE)%Z.
Proof.
  intros Hage. unfold HOUR, MINUTE.
  rewrite Z.rem_mod_nonneg by lia.
  pose proof (Z.div_mod age (60 * 60 * 1000) ltac:(lia)) as Hdm.
  pose proof (Z.mod_pos_bound age (60 * 60 * 1000) ltac:(lia)) as Hb.
  set (q := (age / (60 * 60 * 1000))%Z) in *.
  set (r := (age mod (60 * 60 * 1000))%Z) in *.
  assert (Hq : (0 <= q)%Z) by (apply Z.div_pos; lia).
  assert (Hr : (0 <= r / (60 * 1000) < 60)%Z).
  { split; [apply Z.div_pos; lia|]. apply Z.div_lt_upper_bound; lia. }
  repeat split; try lia.
  rewrite Hdm.
  replace (60 * 60 * 1000 * q + r)%Z with (r + (q * 60) * (60 * 1000))%Z by lia.
  rewrite Z.div_add by lia. lia.
Qed.

(** X11: the age [getCacheAge] reports.  For a file whose timestamp is a
    date not ahead of the clock, the text is the whole hours elapsed, "h",
    a space, the minutes beyond them, "m": the minutes are below 60 and
    both together are the whole minutes elapsed; a timestamp less than a
    minute ahead of the clock gives "-1h -1m"; a timestamp that is no date
    gives "NaNh NaNm"; and there is no text without a readable file. *)
Theorem cache_age_text (written : option Z) (repos : list GitHubRepo) (now : Z) :
  let file := Some (CachedRepos written repos) in
  (forall t, written = Some t -> (t <= now)%Z ->
     exists hours minutes,
       getCacheAge file now = Some (number hours ++ "h " ++ number minutes ++ "m")
       /\ (0 <= hours)%Z /\ (0 <= minutes < 60)%Z
       /\ (hours * 60 + minutes = (now - t) / 60000)%Z)
  /\ (forall t, written = Some t -> (now < t < now + 60000)%Z ->
        getCacheAge file now = Some "-1h -1m")
  /\ (written = None -> getCacheAge file now = Some "NaNh NaNm")
  /\ getCacheAge None now = None
  /\ getCacheAge (Some UnreadableRepos) now = None.
Proof.
  intros file. split; [|split; [|split; [|split]]]; try reflexivity.
  - intros t -> Hle. exists ((now - t) / HOUR)%Z, (Z.rem (now - t) HOUR / MINUTE)%Z.
    split; [reflexivity|]. apply age_split. lia.
  - intros t -> Hahead. unfold file, getCacheAge. cbn [fileExists negb readJSON].
    assert (Hh : ((now - t) / HOUR = -1)%Z).
    { unfold HOUR. symmetry. apply (Z.div_unique_pos _ _ _ (now - t + 3600000)); lia. }
    assert (Hm : (Z.rem (now - t) HOUR / MINUTE = -1)%Z).
    { unfold HOUR, MINUTE.
      rewrite (proj2 (Z.rem_small_iff (now - t) (60 * 60 * 1000) ltac:(lia))) by lia.
      symmetry. apply (Z.div_unique_pos _ _ _ (now - t + 60000)); lia. }
    cbn zeta. rewrite Hh, Hm. reflexivity.
  - intros ->. reflexivity.
Qed.

End StarredReposCache.

Lemma starred_repos_expire_witness :
  StarredRepos.getStarredRepos defaultConfig
    (Some (CachedRepos (Some 0%Z) [Sample.item "a/b"])) 1295999999
  = Return (Some [Sample.item "a/b"])
  /\ StarredRepos.getStarredRepos defaultConfig
       (Some (CachedRepos (Some 0%Z) [Sample.item "a/b"])) 1296000000
     = Return None.
Proof.
  destruct (starred_repos_expire defaultConfig (fun _ => true) 0 [Sample.item "a/b"]
              (Some (CachedRepos (Some 0%Z) [Sample.item "a/b"])) eq_refl)
    as (Hfresh & Hstale & _).
  split; [apply Hfresh | apply Hstale]; vm_compute; congruence.
Defined.

(* ===================================================================== *)
(** * The limit of the command line                                       *)
(* ===================================================================== *)

Section Limit.

Import Cli.

(** X19: what [--limit] does.  The repositories processed are always a
    prefix of the repositories fetched: all of them when no limit is
    given and also when the limit is 0, which is read as no limit; the
    first [n] for a positive limit [n], all when there are fewer; and for
    a negative limit all but the last [-n]. *)
Theorem limit_takes_a_prefix (limit : option Z) (repos : list GitHubRepo) :
  (exists rest, repos = (reposToProcess limit repos ++ rest)%list)
  /\ reposToProcess None repos = repos
  /\ reposToProcess (Some 0%Z) repos = repos
  /\ (forall n, (0 < n)%Z ->
        reposToProcess (Some n) repos = firstn (Z.to_nat n) repos
        /\ length (reposToProcess (Some n) repos) = Nat.min (Z.to_nat n) (length repos))
  /\ (forall n, (n < 0)%Z ->
        reposToProcess (Some n) repos = firstn (length repos - Z.to_nat (- n)) repos
        /\ length (reposToProcess (Some n) repos) = length repos - Z.to_nat (- n)).
Proof.
  split; [|split; [|split; [|split]]]; try reflexivity.
  - unfold reposToProcess, slice0. destruct limit as [n|]; [|exists []; now rewrite app_nil_r].
    destruct (n =? 0)%Z; [exists []; now rewrite app_nil_r|].
    destruct (n <? 0)%Z; eexists; symmetry; apply firstn_skipn.
  - intros n Hn. unfold reposToProcess, slice0.
    destruct (n =? 0)%Z eqn:H0; [apply Z.eqb_eq in H0; lia|].
    destruct (n <? 0)%Z eqn:Hneg; [apply Z.ltb_lt in Hneg; lia|].
    split; [reflexivity | apply length_firstn].
  - intros n Hn. unfold reposToProcess, slice0.
    destruct (n =? 0)%Z eqn:H0; [apply Z.eqb_eq in H0; lia|].
    destruct (n <? 0)%Z eqn:Hneg; [|apply Z.ltb_ge in Hneg; lia].
    replace (Z.to_nat (Z.of_nat (length repos) + n)) with (length repos - Z.to_nat (- n))
      by lia.
    split; [reflexivity|]. rewrite length_firstn. lia.
Qed.

End Limit.

(* ===================================================================== *)
(** * The assignment of repositories to lists                             *)
(* ===================================================================== *)

Section ListNames.

Import GitHubService.

Lemma indexOf_behind (c : ascii) (e rest : string) :
  indexOf c e = None -> indexOf c (e ++ String c rest) = Some (String.length e).
Proof.
  induction e as [|d e IH]; cbn [indexOf String.append String.length].
  - now rewrite Ascii.eqb_refl.
  - destruct (Ascii.eqb d c); [discriminate|].
    destruct (indexOf c e); [discriminate|]. intros _. now rewrite IH.
Qed.

Lemma dropPrefix_behind (c : ascii) (e rest : string) :
  JS.dropPrefix (String.length e + 1) (e ++ String c rest) = rest.
Proof. induction e as [|d e IH]; [reflexivity | exact IH]. Qed.

Lemma categoryName_fullName (emoji name : string) :
  indexOf " " emoji = None -> categoryName (fullName emoji name) = name.
Proof.
  intros He. unfold categoryName, fullName.
  change (" " ++ name) with (String " " name).
  rewrite (indexOf_behind _ _ _ He). apply dropPrefix_behind.
Qed.

Lemma fold_insert_last (lists : list GitHubList) (l : GitHubList) :
  categoryToListId (lists ++ [l])%list
  = <[categoryName (list_name l) := list_id l]> (categoryToListId lists).
Proof. unfold categoryToListId. now rewrite fold_left_app. Qed.

(** The map holds, for a category name, the id of the last list of that
    name, and nothing for a name no list has. *)
Lemma categoryToListId_lookup (lists : list GitHubList) (c : string) :
  categoryToListId lists !! c
  = option_map list_id
      (List.find (fun l => categoryName (list_name l) =? c) (rev lists)).
Proof.
  induction lists as [|l lists IH] using rev_ind; [reflexivity|].
  rewrite fold_insert_last, rev_app_distr. cbn [rev app List.find].
  destruct (categoryName (list_name l) =? c) eqn:Hc.
  - apply String.eqb_eq in Hc as <-. now rewrite lookup_insert_eq.
  - apply String.eqb_neq in Hc. now rewrite lookup_insert_ne.
Qed.

End ListNames.

Section Assignments.

Import GitHubService.

Lemma taxonomy_names_differ : NoDup CATEGORY_NAMES.
Proof. apply (bool_decide_unpack _). vm_compute. reflexivity. Qed.

Lemma taxonomy_emojis_have_no_space :
  Forall (fun cat => indexOf " " (emoji cat) = None) CATEGORIES.
Proof. repeat constructor. Qed.

Lemma categoryToListId_unique (lists : list GitHubList) (i : nat) (l : GitHubList) :
  lists !! i = Some l ->
  (forall j l', lists !! j = Some l' ->
     categoryName (list_name l') = categoryName (list_name l) -> j = i) ->
  categoryToListId lists !! categoryName (list_name l) = Some (list_id l).
Proof.
  revert i l; induction lists as [|x lists IH] using rev_ind; intros i l Hi Huniq;
    [discriminate|].
  rewrite fold_insert_last.
  destruct (decide (categoryName (list_name x) = categoryName (list_name l))) as [Heq|Hne].
  - assert (Hx : (lists ++ [x])%list !! length lists = Some x)
      by (rewrite lookup_app_r, Nat.sub_diag by lia; reflexivity).
    pose proof (Huniq _ _ Hx Heq) as <-.
    assert (l = x) as -> by congruence. now rewrite lookup_insert_eq.
  - rewrite lookup_insert_ne by assumption.
    assert (Hlt : i < length lists).
    { pose proof (lookup_lt_Some _ _ _ Hi) as Hlen. rewrite length_app in Hlen.
      cbn in Hlen. destruct (decide (i = length lists)) as [->|]; [|lia].
      rewrite lookup_app_r, Nat.sub_diag in Hi by lia. injection Hi as <-. congruence. }
    apply (IH i); [now rewrite lookup_app_l in Hi|].
    intros j l' Hj. apply Huniq. rewrite lookup_app_l; [assumption|].
    now apply lookup_lt_Some with l'.
Qed.

Lemma created_lookup (ids : list string) (i : nat) (l : GitHubList) :
  created ids !! i = Some l ->
  exists cat id,
    CATEGORIES !! i = Some cat /\ ids !! i = Some id
    /\ l = {| list_id := id;
              list_name := fullName (emoji cat) (name cat);
              list_description := description cat |}
    /\ categoryName (list_name l) = name cat.
Proof.
  unfold created. intros Hl. apply lookup_zip_with_Some in Hl as (cat & id & -> & Hc & Hid).
  exists cat, id. repeat split; try assumption. cbn [list_name].
  apply categoryName_fullName.
  pose proof taxonomy_emojis_have_no_space as He. rewrite Forall_lookup in He.
  now apply (He i).
Qed.

Lemma created_listId (ids : list string) (i : nat) (cat : CategoryConfig) (id : string) :
  CATEGORIES !! i = Some cat -> ids !! i = Some id ->
  categoryToListId (created ids) !! name cat = Some id.
Proof.
  intros Hc Hid.
  set (l := {| list_id := id;
               list_name := fullName (emoji cat) (name cat);
               list_description := description cat |}).
  assert (Hl : created ids !! i = Some l).
  { unfold created. apply lookup_zip_with_Some. now exists cat, id. }
  destruct (created_lookup ids i l Hl) as (cat' & id' & Hc' & _ & _ & Hname).
  assert (cat' = cat) as -> by congruence.
  rewrite <- Hname. change id with (list_id l).
  apply (categoryToListId_unique _ i); [exact Hl|].
  intros j l' Hj Hsame. rewrite Hname in Hsame.
  destruct (created_lookup ids j l' Hj) as (catj & _ & Hcj & _ & _ & Hnamej).
  rewrite Hnamej in Hsame.
  apply (NoDup_lookup CATEGORY_NAMES j i (name cat) taxonomy_names_differ).
  - unfold CATEGORY_NAMES.
    change ((name <$> CATEGORIES) !! j = Some (name cat)).
    now rewrite list_lookup_fmap, Hcj, <- Hsame.
  - unfold CATEGORY_NAMES.
    change ((name <$> CATEGORIES) !! i = Some (name cat)).
    now rewrite list_lookup_fmap, Hc.
Qed.

(** X16: the lists take their categories back.  [createList] names a list
    by the category's emoji, a space and the category's name, and
    [assignReposToLists] cuts a list's name behind its first space: for
    every entry of the taxonomy this gives the entry's name back.  So when
    every list of the taxonomy was created under the name asked for, each
    category is mapped to the id of its own list, and every result that is
    not flagged as failed and carries a name of the taxonomy is assigned,
    in the order of the results; whatever the lists, an assignment is made
    only for a result not flagged as failed, to the last list of its
    category's name. *)
Theorem lists_take_their_categories_back (ids : list string)
    (results : list AnalysisResult) :
  Forall (fun cat => categoryName (fullName (emoji cat) (name cat)) = name cat) CATEGORIES
  /\ (forall i cat id,
        CATEGORIES !! i = Some cat -> ids !! i = Some id ->
        categoryToListId (created ids) !! name cat = Some id)
  /\ (length ids = length CATEGORIES ->
      (forall r, In r results -> isFailed r = false ->
         In (category (categorization r)) CATEGORY_NAMES) ->
      List.map nodeId (assignments results (created ids))
      = List.map (fun r => node_id (repo r))
          (List.filter (fun r => negb (isFailed r)) results))
  /\ (forall lists a,
        In a (assignments results lists) ->
        exists r l,
          In r results /\ isFailed r = false /\ nodeId a = node_id (repo r)
          /\ List.find (fun l => categoryName (list_name l) =? category (categorization r))
               (rev lists) = Some l
          /\ listId a = list_id l).
Proof.
  split; [|split; [|split]].
  - eapply Forall_impl; [apply taxonomy_emojis_have_no_space|].
    intros cat He. now apply categoryName_fullName.
  - apply created_listId.
  - intros Hlen Hnames. unfold assignments.
    assert (Hall : forall r, In r (List.filter (fun r => negb (isFailed r)) results) ->
              is_Some (categoryToListId (created ids) !! category (categorization r))).
    { intros r Hin. apply filter_In in Hin as [Hin Hf]. apply negb_true_iff in Hf.
      pose proof (Hnames r Hin Hf) as Hc. unfold CATEGORY_NAMES in Hc.
      apply in_map_iff in Hc as (cat & <- & Hc).
      apply list_elem_of_In, list_elem_of_lookup in Hc as [i Hi].
      destruct (lookup_lt_is_Some_2 ids i) as [id Hid];
        [rewrite Hlen; now apply lookup_lt_Some with cat|].
      rewrite (created_listId ids i cat id Hi Hid). eauto. }
    induction (List.filter (fun r => negb (isFailed r)) results) as [|r l IH];
      [reflexivity|].
    destruct (Hall r (or_introl eq_refl)) as [id Hid].
    rewrite (omap_cons_some _ r l {| listId := id; nodeId := node_id (repo r) |})
      by now rewrite Hid.
    cbn [List.map nodeId]. f_equal. apply IH. intros r' Hin. apply Hall. now right.
  - intros lists a Hin. unfold assignments in Hin.
    apply list_elem_of_In, list_elem_of_omap in Hin as (r & Hr & Ha).
    apply list_elem_of_In, filter_In in Hr as [Hr Hf]. apply negb_true_iff in Hf.
    rewrite categoryToListId_lookup in Ha.
    destruct (List.find _ (rev lists)) as [l|] eqn:Hfind; [|discriminate].
    injection Ha as <-. now exists r, l.
Qed.

End Assignments.

Section Batches.

Import GitHubService.

Lemma batchesFrom_spec (fuel i : nat) (l : list Assignment) :
  length l - i <= fuel ->
  concat (batchesFrom fuel i l) = skipn i l
  /\ Forall (fun b => 1 <= length b <= BATCH_SIZE) (batchesFrom fuel i l)
  /\ length (batchesFrom fuel i l) = (length l - i + 9) / 10
  /\ (forall j b, batchesFrom fuel i l !! j = Some b ->
        S j < length (batchesFrom fuel i l) -> length b = BATCH_SIZE).
Proof.
  revert i; induction fuel as [|fuel IH]; intros i Hfuel.
  - cbn [batchesFrom concat length].
    replace (length l - i) with 0 by lia.
    rewrite skipn_all2 by lia. repeat split; try constructor.
    intros j b Hj. discriminate.
  - cbn [batchesFrom]. destruct (i <? length l)%nat eqn:Hi.
    + apply Nat.ltb_lt in Hi.
      destruct (IH (i + BATCH_SIZE)) as (Hcat & Hall & Hlen & Hfull);
        [unfold BATCH_SIZE; lia|].
      assert (Hfirst : length (firstn BATCH_SIZE (skipn i l)) = Nat.min 10 (length l - i))
        by (rewrite length_firstn, length_skipn; reflexivity).
      split; [|split; [|split]].
      * cbn [concat]. rewrite Hcat.
        replace (i + BATCH_SIZE) with (BATCH_SIZE + i) by lia.
        rewrite <- skipn_skipn. apply firstn_skipn.
      * constructor; [|exact Hall]. rewrite Hfirst. unfold BATCH_SIZE. lia.
      * cbn [length]. rewrite Hlen. unfold BATCH_SIZE.
        destruct (le_lt_dec (length l - i) 10) as [Hsmall|Hbig].
        -- replace (length l - (i + 10)) with 0 by lia.
           change ((0 + 9) / 10) with 0.
           apply (Nat.div_unique _ _ _ (length l - i - 1)); lia.
        -- replace (length l - i + 9) with (length l - (i + 10) + 9 + 1 * 10) by lia.
           rewrite Nat.div_add by lia. lia.
      * intros [|j] b Hj Hlast.
        -- cbn in Hj. injection Hj as <-. unfold BATCH_SIZE in *.
           rewrite length_firstn, length_skipn.
           cbn [length] in Hlast. rewrite Hlen in Hlast.
           destruct (le_lt_dec (length l - i) 10) as [Hsmall|Hbig]; [|lia].
           replace (length l - (i + 10)) with 0 in Hlast by lia.
           cbn in Hlast. lia.
        -- cbn in Hj. apply (Hfull j b Hj). cbn [length] in Hlast. lia.
    + apply Nat.ltb_ge in Hi. cbn [concat length].
      replace (length l - i) with 0 by lia.
      rewrite skipn_all2 by lia. repeat split; try constructor.
      intros j b Hj. discriminate.
Qed.

(** X17: the batches.  The assignments are cut into batches that, one
    behind the other, are the assignments again, none lost, none twice;
    no batch is empty or has more than ten assignments, every batch but
    the last has ten, and there are as many batches as tens in the number
    of assignments, rounded up: none when there is no assignment. *)
Theorem batches_of_ten (l : list Assignment) :
  concat (batches l) = l
  /\ Forall (fun b => 1 <= length b <= 10) (batches l)
  /\ length (batches l) = (length l + 9) / 10
  /\ (forall j b, batches l !! j = Some b -> S j < length (batches l) -> length b = 10)
  /\ batches [] = [].
Proof.
  destruct (batchesFrom_spec (length l) 0 l) as (Hcat & Hall & Hlen & Hfull); [lia|].
  unfold batches. rewrite Nat.sub_0_r in Hlen.
  split; [exact Hcat|]. split; [exact Hall|]. split; [exact Hlen|].
  split; [exact Hfull | reflexivity].
Qed.

Lemma last_nonempty {A : Type} (x : A) (l : list A) (d d' : A) :
  List.last (x :: l) d = List.last (x :: l) d'.
Proof.
  revert x; induction l as [|y l IH]; intros x; [reflexivity|].
  change (List.last (y :: l) d = List.last (y :: l) d'). apply IH.
Qed.

Lemma totalsFrom_spec (c : nat) (sizes : list nat) :
  Forall (fun n => 1 <= n) sizes ->
  length (totalsFrom c sizes) = length sizes
  /\ List.last (totalsFrom c sizes) c = c + list_sum sizes
  /\ Forall (fun k => c < k <= c + list_sum sizes) (totalsFrom c sizes)
  /\ StronglySorted lt (totalsFrom c sizes).
Proof.
  intros Hpos. revert c; induction Hpos as [|n sizes Hn _ IH]; intros c.
  - cbn. repeat split; try constructor. lia.
  - destruct (IH (c + n)) as (Hlen & Hlast & Hin & Hsorted).
    cbn [totalsFrom length list_sum].
    change (list_sum (n :: sizes)) with (n + list_sum sizes).
    split; [now rewrite Hlen|]. split; [|split].
    + destruct (totalsFrom (c + n) sizes) as [|k ks] eqn:Hk.
      * destruct sizes; [cbn; lia | discriminate].
      * change (List.last (c + n :: k :: ks) c) with (List.last (k :: ks) c).
        rewrite (last_nonempty k ks c (c + n)), Hlast. lia.
    + constructor; [lia|]. eapply Forall_impl; [exact Hin|]. intros k Hk. cbn in Hk. lia.
    + constructor; [exact Hsorted|]. eapply Forall_impl; [exact Hin|].
      intros k Hk. cbn in Hk. lia.
Qed.

Lemma finish_all (mutate : list Assignment -> bool) (total : nat)
    (order : list (list Assignment)) (st : Progress) :
  Forall (fun b => mutate b = true) order ->
  fold_left (finish mutate total) order st
  = {| completed := completed st + list_sum (List.map (@length Assignment) order);
       reported := (reported st
                    ++ List.map (fun k => (k, total))
                         (totalsFrom (completed st) (List.map (@length Assignment) order)))%list;
       rejection := rejection st |}.
Proof.
  intros Hall. revert st; induction Hall as [|b order Hb _ IH]; intros st.
  - cbn. rewrite Nat.add_0_r, app_nil_r. now destruct st.
  - cbn [fold_left]. rewrite IH. unfold finish. rewrite Hb.
    cbn [completed reported rejection List.map totalsFrom list_sum].
    change (list_sum (length b :: List.map (@length Assignment) order))
      with (length b + list_sum (List.map (@length Assignment) order)).
    now rewrite Nat.add_assoc, <- app_assoc.
Qed.

Lemma finish_rejects (mutate : list Assignment -> bool) (total : nat)
    (order : list (list Assignment)) (st : Progress) :
  (rejection st <> None \/ Exists (fun b => mutate b = false) order) ->
  rejection (fold_left (finish mutate total) order st)
  = Some (default "GraphQL mutation failed" (rejection st)).
Proof.
  revert st; induction order as [|b order IH]; intros st Hbad.
  - destruct Hbad as [Hst|Hex]; [|inversion Hex].
    cbn. now destruct (rejection st).
  - cbn [fold_left]. rewrite IH.
    + unfold finish. destruct (mutate b); [reflexivity|].
      cbn [rejection]. now destruct (rejection st).
    + unfold finish. destruct (mutate b) eqn:Hb; cbn [rejection].
      * destruct Hbad as [Hst|Hex]; [now left|].
        apply Exists_cons in Hex as [Hex|Hex]; [congruence | now right].
      * left. now destruct (rejection st).
Qed.

Lemma sizes_perm (l l' : list (list Assignment)) :
  l ≡ₚ l' -> list_sum (List.map (@length Assignment) l) = length (concat l').
Proof.
  intros Hp. transitivity (list_sum (List.map (@length Assignment) l')).
  - unfold list_sum.
    induction Hp as [|x l1 l2 _ IH|x y l1|l1 l2 l3 _ IH1 _ IH2]; simpl; lia.
  - clear. induction l' as [|b l' IH]; [reflexivity|].
    cbn [List.map concat]. rewrite length_app, <- IH. reflexivity.
Qed.

(** X18: the progress of the assignment.  When the batches finish, each
    once, in whatever order, and every mutation succeeds,
    [assignReposToLists] resolves; [onProgress] is invoked once for every
    batch, with the number of assignments as [total] and with [completed]
    values that grow by the size of the batch that finished: they
    increase, stay between 1 and the number of assignments, and the last
    one is that number.  When a mutation fails, [assignReposToLists]
    rejects with "GraphQL mutation failed". *)
Theorem assignment_progress (mutate : list Assignment -> bool)
    (order : list (list Assignment)) (results : list AnalysisResult)
    (lists : list GitHubList) :
  let total := length (assignments results lists) in
  let outcome := assignReposToLists mutate order results lists in
  order ≡ₚ batches (assignments results lists) ->
  (Forall (fun b => mutate b = true) order ->
   fst outcome = Resolved tt
   /\ snd outcome
      = List.map (fun k => (k, total)) (totalsFrom 0 (List.map (@length Assignment) order))
   /\ length (snd outcome) = length (batches (assignments results lists))
   /\ StronglySorted lt (List.map fst (snd outcome))
   /\ Forall (fun report => 1 <= fst report <= total /\ snd report = total) (snd outcome)
   /\ List.last (List.map fst (snd outcome)) 0 = total)
  /\ (Exists (fun b => mutate b = false) order ->
      fst outcome = Rejected "GraphQL mutation failed").
Proof.
  intros total outcome Hperm.
  assert (Hsum : list_sum (List.map (@length Assignment) order) = total).
  { rewrite (sizes_perm _ _ Hperm).
    destruct (batches_of_ten (assignments results lists)) as (-> & _). reflexivity. }
  assert (Hpos : Forall (fun n => 1 <= n) (List.map (@length Assignment) order)).
  { apply List.Forall_map. rewrite Hperm.
    destruct (batches_of_ten (assignments results lists)) as (_ & Hall & _).
    eapply Forall_impl; [exact Hall|]. intros b Hb. cbn in Hb. lia. }
  split.
  - intros Hall. unfold outcome, assignReposToLists. fold total.
    rewrite (finish_all mutate total order _ Hall).
    cbn [completed reported rejection fst snd app].
    destruct (totalsFrom_spec 0 _ Hpos) as (Hlen & Hlast & Hin & Hsorted).
    rewrite Hsum in Hlast, Hin. cbn [Nat.add] in Hlast, Hin.
    assert (Hfst : List.map fst
                     (List.map (fun k => (k, total))
                        (totalsFrom 0 (List.map (@length Assignment) order)))
                   = totalsFrom 0 (List.map (@length Assignment) order)).
    { rewrite List.map_map. cbn [fst]. apply List.map_id. }
    split; [reflexivity|]. split; [reflexivity|]. split; [|split; [|split]].
    + rewrite length_map, Hlen, length_map. now apply Permutation_length.
    + now rewrite Hfst.
    + apply List.Forall_map. eapply Forall_impl; [exact Hin|].
      intros k Hk. cbn in *. lia.
    + now rewrite Hfst.
  - intros Hbad. unfold outcome, assignReposToLists. fold total.
    rewrite finish_rejects by now right. reflexivity.
Qed.

End Batches.

Lemma assignment_progress_witness :
  let successful :=
    {| repo := Sample.item "a/b";
       categorization :=
         {| category := "CLI & Terminal"; confidence := 85; reasoning := "x" |};
       webSearchCalls := 0; cached := false; timestamp := 0;
       failed := None; error := None |} in
  let lists := [ {| list_id := "L7"; list_name := "💻 CLI & Terminal";
                    list_description := EmptyString |} ] in
  GitHubService.assignReposToLists (fun _ => true)
    (GitHubService.batches (GitHubService.assignments [successful] lists))
    [successful] lists
  = (GitHubService.Resolved tt, [(1, 1)]).
Proof.
  intros successful lists.
  destruct (assignment_progress (fun _ => true)
              (GitHubService.batches (GitHubService.assignments [successful] lists))
              [successful] lists (Permutation_refl _)) as [Hok _].
  destruct Hok as (Hfst & Hsnd & _).
  - apply Forall_forall. reflexivity.
  - rewrite (surjective_pairing (GitHubService.assignReposToLists _ _ _ _)), Hfst, Hsnd.
    reflexivity.
Defined.

Section FetchedLines.

Import GitHubService.

Variable JSON_parse_line : string -> GitHubRepo + string.

Lemma split_nonempty (s : string) : split s <> [].
Proof.
  destruct s as [|c s]; [discriminate|]. cbn [split].
  destruct (Ascii.eqb c (ascii_of_nat 10)); [discriminate|].
  destruct (split s); discriminate.
Qed.

(** The pieces of two outputs joined by a line feed are the pieces of
    the first and then those of the second. *)
Lemma split_joined (a b : string) :
  split (a ++ newline ++ b) = (split a ++ split b)%list.
Proof.
  induction a as [|c a IH]; [reflexivity|].
  cbn [String.append split]. rewrite IH.
  destruct (Ascii.eqb c (ascii_of_nat 10)); [reflexivity|].
  pose proof (split_nonempty a) as Hne.
  destruct (split a) as [|line more]; [contradiction | reflexivity].
Qed.

Lemma parseLines_app (l1 l2 : list string) :
  parseLines JSON_parse_line (l1 ++ l2)
  = match parseLines JSON_parse_line l1, parseLines JSON_parse_line l2 with
    | inl r1, inl r2 => inl (r1 ++ r2)%list
    | inr m, _ => inr m
    | inl _, inr m => inr m
    end.
Proof.
  induction l1 as [|line l1 IH].
  - cbn. now destruct (parseLines JSON_parse_line l2).
  - cbn [app parseLines]. destruct (JSON_parse_line line) as [repo|m]; [|reflexivity].
    rewrite IH.
    destruct (parseLines JSON_parse_line l1) as [r1|m1]; [|reflexivity].
    now destruct (parseLines JSON_parse_line l2).
Qed.

Lemma parseLines_spec (lines : list string) :
  match parseLines JSON_parse_line lines with
  | inl repos => Forall2 (fun line repo => JSON_parse_line line = inl repo) lines repos
  | inr _ => Exists (fun line => exists m, JSON_parse_line line = inr m) lines
  end.
Proof.
  induction lines as [|line lines IH]; [constructor|].
  cbn [parseLines]. destruct (JSON_parse_line line) as [repo|m] eqn:Hl.
  - destruct (parseLines JSON_parse_line lines) as [repos|m'].
    + now constructor.
    + now apply Exists_cons_tl.
  - apply Exists_cons_hd. eauto.
Qed.

(** X23: what [fetchStarredRepos] makes of the output of [gh].  It
    resolves with one repository for every line of the output that is not
    blank, in the order of the lines, each being what [JSON.parse] reads
    from its line; and it rejects, with "Failed to fetch starred
    repositories", when the command failed or one such line does not
    parse, returning no repository then.  An output without such a line,
    the empty one among them, gives the empty list; and the output of two
    pages, one behind the other on separate lines, gives the repositories
    of the first page followed by those of the second, when both parse. *)
Theorem fetch_reads_the_lines (stdout : string) :
  let fetch := fetchStarredRepos JSON_parse_line in
  let lines := List.filter notBlank (split stdout) in
  (forall repos,
      fetch (Some stdout) = Resolved repos
      <-> Forall2 (fun line repo => JSON_parse_line line = inl repo) lines repos)
  /\ (fetch (Some stdout) = Rejected "Failed to fetch starred repositories"
      <-> Exists (fun line => exists m, JSON_parse_line line = inr m) lines)
  /\ fetch None = Rejected "Failed to fetch starred repositories"
  /\ fetch (Some EmptyString) = Resolved []
  /\ (forall first second more,
        fetch (Some stdout) = Resolved first ->
        fetch (Some more) = Resolved second ->
        fetch (Some (stdout ++ newline ++ more)) = Resolved (first ++ second)%list).
Proof.
  intros fetch lines. unfold fetch, fetchStarredRepos. fold lines.
  pose proof (parseLines_spec lines) as Hspec.
  split; [|split; [|split; [|split]]]; try reflexivity.
  - intros repos. destruct (parseLines JSON_parse_line lines) as [found|m] eqn:Hp.
    + split.
      * now intros [= <-].
      * intros Hall. f_equal. clear Hp. revert repos Hall.
        induction Hspec as [|line repo ls rs Hl _ IH]; intros repos Hall.
        -- now inversion Hall.
        -- inversion Hall as [|? repo' ? rs' Hl' Hrest]; subst.
           f_equal; [congruence | now apply IH].
    + split; [discriminate|]. intros Hall. exfalso.
      clear Hp. induction Hall as [|line repo ls rs Hl _ IH]; [inversion Hspec|].
      apply Exists_cons in Hspec as [[m' Hm']|Hrest]; [congruence | now apply IH].
  - destruct (parseLines JSON_parse_line lines) as [found|m] eqn:Hp.
    + split; [discriminate|]. intros Hex. exfalso.
      clear Hp. induction Hspec as [|line repo ls rs Hl _ IH]; [inversion Hex|].
      apply Exists_cons in Hex as [[m' Hm']|Hrest]; [congruence | now apply IH].
    + split; [now intros _ | reflexivity].
  - intros first second more.
    rewrite split_joined, List.filter_app, parseLines_app. fold lines.
    destruct (parseLines JSON_parse_line lines) as [r1|m1]; [|discriminate].
    destruct (parseLines JSON_parse_line (List.filter notBlank (split more))) as [r2|m2];
      [|discriminate].
    now intros [= <-] [= <-].
Qed.

End FetchedLines.

(* ===================================================================== *)
(** * The report                                                          *)
(* ===================================================================== *)

Section Reports.

Import ReporterService.

Lemma totalCount_insert_new (categories : gmap string Report.entry) (k : string)
    (e : Report.entry) :
  categories !! k = None ->
  totalCount (<[k := e]> categories) = Report.count e + totalCount categories.
Proof.
  intros Hk. unfold totalCount.
  rewrite map_fold_insert_L; [reflexivity | | assumption].
  intros j1 j2 z1 z2 y _ _ _. lia.
Qed.

Lemma totalCount_insert_old (categories : gmap string Report.entry) (k : string)
    (e0 e : Report.entry) :
  categories !! k = Some e0 ->
  totalCount (<[k := e]> categories) + Report.count e0
  = Report.count e + totalCount categories.
Proof.
  intros Hk.
  rewrite <- (insert_delete_eq categories k e).
  rewrite totalCount_insert_new by apply lookup_delete_eq.
  unfold totalCount.
  rewrite (map_fold_delete_L _ _ k e0 categories); [lia | | assumption].
  intros j1 j2 z1 z2 y _ _ _. lia.
Qed.

Lemma get_own (categories : gmap string Report.entry) (k : string) (e : Report.entry) :
  get categories k = Own e <-> categories !! k = Some e.
Proof.
  unfold get. destruct (categories !! k) as [e'|].
  - split; congruence.
  - destruct (existsb (String.eqb k) objectPrototype); split; discriminate.
Qed.

Lemma get_absent (categories : gmap string Report.entry) (k : string) :
  get categories k = Absent -> categories !! k = None.
Proof. unfold get. now destruct (categories !! k). Qed.

Lemma namesIn_cons (c : string) (r : AnalysisResult) (rest : list AnalysisResult) :
  namesIn c (r :: rest)
  = if negb (isFailed r) && (category (categorization r) =? c)
    then full_name (repo r) :: namesIn c rest
    else namesIn c rest.
Proof.
  unfold namesIn. cbn [List.filter].
  now destruct (negb (isFailed r) && (category (categorization r) =? c)).
Qed.

Lemma extend_more (before : option Report.entry) (n : string) (names : list string) :
  extend (Some {| Report.count := S (match before with Some e => Report.count e | None => 0 end);
                  Report.repos :=
                    ((match before with Some e => Report.repos e | None => [] end) ++ [n])%list |})
    names
  = extend before (n :: names).
Proof.
  destruct before as [[k l]|]; cbn.
  - f_equal. f_equal; [lia | now rewrite <- app_assoc].
  - reflexivity.
Qed.

(** What the loop of [generateReport] leaves in [categories] and
    [failedRepos] when it runs to its end. *)
Lemma loop_returned (results : list AnalysisResult) :
  forall categories failedRepos categories' failedRepos',
    loop results (categories, failedRepos) = Return (categories', failedRepos') ->
    failedRepos'
    = (failedRepos
       ++ List.map (fun r => full_name (repo r)) (List.filter isFailed results))%list
    /\ (forall c, categories' !! c = extend (categories !! c) (namesIn c results))
    /\ totalCount categories'
       = totalCount categories
         + length (List.filter (fun r => negb (isFailed r)) results).
Proof.
  induction results as [|r rest IH]; intros categories failedRepos categories' failedRepos'.
  - intros [= <- <-]. split; [now rewrite app_nil_r|]. split; [|cbn; lia].
    intros c. cbn. destruct (categories !! c) as [[k l]|]; [|reflexivity].
    cbn. now rewrite Nat.add_0_r, app_nil_r.
  - cbn [loop]. unfold visit. destruct (isFailed r) eqn:Hf.
    + intros Hloop. apply IH in Hloop as (Hfailed & Hcats & Htotal).
      cbn [List.filter]. rewrite Hf. cbn [negb List.map].
      split; [now rewrite Hfailed, <- app_assoc|]. split; [|exact Htotal].
      intros c. rewrite namesIn_cons, Hf. exact (Hcats c).
    + cbn [List.filter]. rewrite Hf. cbn [negb length].
      destruct (get categories (category (categorization r))) as [e| |] eqn:Hget;
        [| discriminate |].
      * apply get_own in Hget.
        intros Hloop. apply IH in Hloop as (Hfailed & Hcats & Htotal).
        split; [exact Hfailed|]. split.
        -- intros c. rewrite Hcats, namesIn_cons, Hf. cbn [negb andb].
           destruct (category (categorization r) =? c) eqn:Hc.
           ++ apply String.eqb_eq in Hc as <-. rewrite lookup_insert_eq.
              rewrite <- extend_more, Hget. reflexivity.
           ++ apply String.eqb_neq in Hc. now rewrite lookup_insert_ne.
        -- pose proof (totalCount_insert_old categories _ e
                         {| Report.count := S (Report.count e);
                            Report.repos :=
                              (Report.repos e ++ [full_name (repo r)])%list |} Hget) as Hins.
           cbn [Report.count] in Hins. lia.
      * apply get_absent in Hget.
        intros Hloop. apply IH in Hloop as (Hfailed & Hcats & Htotal).
        split; [exact Hfailed|]. split.
        -- intros c. rewrite Hcats, namesIn_cons, Hf. cbn [negb andb].
           destruct (category (categorization r) =? c) eqn:Hc.
           ++ apply String.eqb_eq in Hc as <-. rewrite lookup_insert_eq.
              rewrite <- extend_more, Hget. reflexivity.
           ++ apply String.eqb_neq in Hc. now rewrite lookup_insert_ne.
        -- rewrite totalCount_insert_new in Htotal by assumption.
           cbn [Report.count] in Htotal. lia.
Qed.

(** The loop runs to its end when no result that is not flagged as failed
    carries the name of an inherited property as its category. *)
Lemma loop_returns (results : list AnalysisResult) :
  (forall r, In r results -> isFailed r = false ->
     ~ In (category (categorization r)) objectPrototype) ->
  forall acc, exists acc', loop results acc = Return acc'.
Proof.
  induction results as [|r rest IH]; intros Hsafe acc; [now exists acc|].
  cbn [loop]. unfold visit. destruct acc as [categories failedRepos].
  assert (Hrest : forall r', In r' rest -> isFailed r' = false ->
            ~ In (category (categorization r')) objectPrototype)
    by (intros r' Hin; apply Hsafe; now right).
  destruct (isFailed r) eqn:Hf; [now apply IH|].
  cbv zeta. unfold get.
  destruct (categories !! category (categorization r)); [now apply IH|].
  destruct (existsb (String.eqb (category (categorization r))) objectPrototype) eqn:Hin;
    [|now apply IH].
  exfalso. apply existsb_exists in Hin as (k & Hk & Heq).
  apply String.eqb_eq in Heq. subst k. now apply (Hsafe r); [left|..].
Qed.

(** It throws when there is such a result. *)
Lemma loop_throws (results : list AnalysisResult) :
  forall acc,
    (forall k, In k objectPrototype -> fst acc !! k = None) ->
    (exists r, In r results /\ isFailed r = false
               /\ In (category (categorization r)) objectPrototype) ->
    exists e, loop results acc = Throw e.
Proof.
  induction results as [|r rest IH]; intros [categories failedRepos] Hown (bad & Hin & Hf & Hk);
    [contradiction|].
  cbn [fst] in Hown. cbn [loop]. unfold visit.
  destruct (isFailed r) eqn:Hfr.
  - apply IH; [exact Hown|]. destruct Hin as [->|Hin]; [congruence|]. eauto.
  - cbv zeta. unfold get.
    destruct (existsb (String.eqb (category (categorization r))) objectPrototype) eqn:Hex.
    + apply existsb_exists in Hex as (k & Hkin & Heq). apply String.eqb_eq in Heq. subst k.
      rewrite (Hown _ Hkin). eauto.
    + assert (Hnot : ~ In (category (categorization r)) objectPrototype).
      { intros Hin'. apply Bool.not_true_iff_false in Hex. apply Hex.
        apply existsb_exists. eexists. split; [exact Hin' | apply String.eqb_refl]. }
      assert (Hrest : exists r', In r' rest /\ isFailed r' = false
                                 /\ In (category (categorization r')) objectPrototype).
      { destruct Hin as [->|Hin]; [contradiction|]. eauto. }
      destruct (categories !! category (categorization r)); apply IH; try exact Hrest.
      all: intros k Hkin; cbn [fst]; rewrite lookup_insert_ne; [now apply Hown|].
      all: intros <-; contradiction.
Qed.

Lemma filter_split {A : Type} (p : A -> bool) (l : list A) :
  length (List.filter p l) + length (List.filter (fun x => negb (p x)) l) = length l.
Proof. induction l as [|a l IH]; [reflexivity|]. cbn. destruct (p a); cbn; lia. Qed.

(** X14: what [generateReport] makes of a list of results.  The report
    counts every result once: [totalRepos] is the length of the list,
    [failedRepos] holds the names of the results flagged as failed, in
    their order, every other result is in the entry of its category, whose
    [repos] are the names of that category's results in their order and
    whose [count] is their number, and a category without result has no
    entry; so the counts and the failed names add up to [totalRepos].
    [stats] is handed through.  The call returns unless a result not
    flagged as failed carries as its category the name of a property that
    objects inherit; when there is such a result it throws. *)
Theorem report_groups_results (results : list AnalysisResult) (stats : AnalyzerStats)
    (now : Z) :
  ((forall r, In r results -> isFailed r = false ->
      ~ In (category (categorization r)) objectPrototype) ->
   exists report, generateReport results stats now = Return report)
  /\ (forall report,
        generateReport results stats now = Return report ->
        Report.totalRepos report = length results
        /\ Report.stats report = stats
        /\ Report.failedRepos report
           = List.map (fun r => full_name (repo r)) (List.filter isFailed results)
        /\ (forall c,
              Report.categories report !! c
              = match namesIn c results with
                | [] => None
                | names => Some {| Report.count := length names; Report.repos := names |}
                end)
        /\ length (Report.failedRepos report) + totalCount (Report.categories report)
           = Report.totalRepos report)
  /\ ((exists r, In r results /\ isFailed r = false
                  /\ In (category (categorization r)) objectPrototype) ->
      exists e, generateReport results stats now = Throw e).
Proof.
  split; [|split].
  - intros Hsafe. unfold generateReport.
    destruct (loop_returns results Hsafe (∅, [])) as [[categories failedRepos] ->]. eauto.
  - intros report. unfold generateReport.
    destruct (loop results (∅, [])) as [[categories failedRepos]|e] eqn:Hloop;
      [|discriminate].
    intros [= <-]. cbn.
    apply loop_returned in Hloop as (Hfailed & Hcats & Htotal).
    cbn in Hfailed. subst failedRepos.
    split; [reflexivity|]. split; [reflexivity|]. split; [reflexivity|]. split.
    + intros c. rewrite Hcats, lookup_empty. cbn. now destruct (namesIn c results).
    + rewrite Htotal, length_map. unfold totalCount. rewrite map_fold_empty.
      apply filter_split.
  - intros Hbad. unfold generateReport.
    destruct (loop_throws results (∅, []) (fun k _ => lookup_empty k) Hbad) as [e ->]. eauto.
Qed.

End Reports.

Section ReportOfARun.

Import AnalyzerService.

Context {R : Runtime} (cfg : EnvConfig) (w : World).




End ReportOfARun.


(* ===================================================================== *)
(** * The scenarios of the specification, run                             *)
(* ===================================================================== *)

Section Scenarios.

Import AnalyzerService.

#[local] Existing Instance flatRuntime.

(** The concrete scenario: a fresh record with the category returned. *)
Example scenario_fresh_record :
  let final := analyzeAll defaultConfig (Sample.world Sample.frontend true)
                 [] [Sample.item "a/b"] false (create ∅) in
  List.map (fun r => (category (categorization r), failed r, cached r)) (results final)
  = [("Frontend Frameworks", None, false)].
Proof. vm_compute. reflexivity. Qed.

(** Token usages 100, 200, 150 and lookup counts 0, 1, 2 add up. *)
Example scenario_stats_accumulation :
  let reply tokens lookups :=
    Replied {| text := Some (Sample.answer "Other Tools" "80" "t");
               groundingChunkCount := Some lookups;
               totalTokenCount := Some tokens |} in
  let script i (_ : nat) :=
    match i with 0 => reply 100 0 | 1 => reply 200 1 | _ => reply 150 2 end in
  let final := analyzeAll defaultConfig (Sample.scripted script) [2; 0; 1; 1]
                 [Sample.item "a/a"; Sample.item "b/b"; Sample.item "c/c"] false
                 (create ∅) in
  getStats final
  = {| Stats.total := 3; Stats.analyzed := 3; Stats.cached := 0; Stats.failed := 0;
       Stats.totalTokens := 450; Stats.totalWebSearches := 3 |}.
Proof. vm_compute. reflexivity. Qed.

(** Two answers flagged retryable, then a valid one: the item is analyzed
    at the third request. *)
Example scenario_retryable_then_success :
  let script (_ : nat) n :=
    if (n <=? 2)%nat then Failed Sample.serviceUnavailable else Sample.frontend in
  let final := analyzeAll defaultConfig (Sample.scripted script) []
                 [Sample.item "a/b"] false (create ∅) in
  isRetryableError (Foreign Sample.serviceUnavailable) = true
  /\ requests final = [("a/b", 3)]
  /\ List.map (fun r => (category (categorization r), failed r)) (results final)
     = [("Frontend Frameworks", None)]
  /\ Stats.analyzed (stats final) = 1 /\ Stats.failed (stats final) = 0.
Proof. vm_compute. repeat split. Qed.

(** With [skipCache] the classifier is asked although the cache has the
    item, and the file is overwritten. *)
Example scenario_skip_cache :
  let st0 := create {[ CacheService.getAnalysisPath "a/b" := Stored Sample.storedRecord ]} in
  let final := analyzeAll defaultConfig (Sample.world Sample.frontend true)
                 [] [Sample.item "a/b"] true st0 in
  requests final = [("a/b", 1)]
  /\ List.map cached (results final) = [false]
  /\ (category ∘ categorization <$> cachedRecord (disk final) "a/b")
     = Some "Frontend Frameworks".
Proof. vm_compute. repeat split. Qed.

(** A classifier that fails on every call: nothing is stored by the first
    run, and the second run asks again for every item. *)
Example scenario_failed_items_are_retried :
  let failing := Sample.world (Failed Sample.serviceUnavailable) true in
  let repos := [Sample.item "a/b"; Sample.item "c/d"] in
  let first := analyzeAll defaultConfig failing [] repos false (create ∅) in
  let second := analyzeAll defaultConfig failing [0; 1; 1] repos false first in
  disk first = ∅
  /\ List.map failed (results first) = [Some true; Some true]
  /\ List.map fst (requests second) = ["a/b"; "c/d"; "c/d"; "a/b"]
  /\ Stats.cached (stats second) = 0.
Proof. vm_compute. repeat split. Qed.

(** A cache written under another taxonomy: the stored category comes
    back as it is. *)
Example scenario_stale_cache :
  let stale :=
    {| repo := Sample.item "a/b";
       categorization :=
         {| category := "Programming Languages"; confidence := 92; reasoning := "old" |};
       webSearchCalls := 1;
       cached := false;
       timestamp := 0;
       failed := None;
       error := None |} in
  let st0 := create {[ CacheService.getAnalysisPath "a/b" := Stored stale ]} in
  let final := analyzeAll defaultConfig (Sample.world Sample.frontend true)
                 [] [Sample.item "a/b"] false st0 in
  List.map (fun r => (category (categorization r), cached r)) (results final)
  = [("Programming Languages", true)]
  /\ requests final = []
  /\ existsb (String.eqb "Programming Languages") CATEGORY_NAMES = false.
Proof. vm_compute. repeat split. Qed.

End Scenarios.
